(** * filter-burgers: URL classifier and HTML content parser

    A shallow embedding of [src/classify.ts] and [src/parse.ts].

    JavaScript strings are sequences of UTF-16 code units; the regular
    expressions of the source are given as syntax trees and run by a
    backtracking matcher that follows the ECMAScript pattern semantics
    (priority order of alternatives, greedy and lazy quantifiers, capture
    groups, back-references, the [i] flag).  The string methods the source
    calls ([match], [exec] in a loop, [replace], [split], [trim],
    [indexOf], [includes], [endsWith], [toLowerCase]) are written on top of
    it, and [JSON.parse] is modelled by a small push-down parser. *)

From Stdlib Require Import String Ascii List NArith ZArith Bool Arith Lia.
Import ListNotations.

(* ================================================================== *)
(** * JavaScript strings *)
(* ================================================================== *)

(** A string is its list of UTF-16 code units. *)
Definition jsstring := list N.

(** Literals: the code units of an ASCII Rocq string. *)
Definition js (s : string) : jsstring :=
  map N_of_ascii (list_ascii_of_string s).

(** The double quote, and HTML literals in which a back-tick stands for
    a double quote. *)
Definition DQ : N := 34.
Definition SQ : N := 39.

Definition html (s : string) : jsstring :=
  map (fun c => if N.eqb c 96 then DQ else c) (js s).

Definition jseqb (a b : jsstring) : bool :=
  if list_eq_dec N.eq_dec a b then true else false.

(** ToBoolean on a string: the empty string is the only falsy one. *)
Definition truthy (s : jsstring) : bool :=
  match s with [] => false | _ => true end.

(** [a || b] on strings. *)
Definition or_else (a b : jsstring) : jsstring :=
  if truthy a then a else b.

(** WhiteSpace and LineTerminator code points: the set of [\s] and of
    [String.prototype.trim]. *)
Definition is_space (c : N) : bool :=
  ((9 <=? c) && (c <=? 13) || (c =? 32) || (c =? 160) || (c =? 5760)
   || (8192 <=? c) && (c <=? 8202) || (c =? 8232) || (c =? 8233)
   || (c =? 8239) || (c =? 8287) || (c =? 12288) || (c =? 65279))%N.

Definition is_upper (c : N) : bool := ((65 <=? c) && (c <=? 90))%N.
Definition is_lower (c : N) : bool := ((97 <=? c) && (c <=? 122))%N.

(** [String.prototype.toLowerCase] on the Basic Latin block; code units
    outside it are kept as they are (every pattern of the classifier is
    Basic Latin). *)
Definition lower_unit (c : N) : N := if is_upper c then (c + 32)%N else c.
Definition toLowerCase (s : jsstring) : jsstring := map lower_unit s.

(** [w] is a prefix of [s]. *)
Fixpoint starts_with (w s : jsstring) : bool :=
  match w, s with
  | [], _ => true
  | a :: w', b :: s' => (a =? b)%N && starts_with w' s'
  | _ :: _, [] => false
  end.

(** [s.includes(w)] *)
Fixpoint includes (w s : jsstring) : bool :=
  starts_with w s || match s with [] => false | _ :: s' => includes w s' end.

(** [s.indexOf(w)]; [None] stands for -1. *)
Fixpoint indexOf (w s : jsstring) : option nat :=
  if starts_with w s then Some 0
  else match s with
       | [] => None
       | _ :: s' => option_map S (indexOf w s')
       end.

(** [s.endsWith(w)] *)
Definition endsWith (w s : jsstring) : bool :=
  (length w <=? length s) && jseqb (skipn (length s - length w) s) w.

(** [s.trim()] *)
Fixpoint trimStart (s : jsstring) : jsstring :=
  match s with
  | c :: s' => if is_space c then trimStart s' else s
  | [] => []
  end.

Definition trim (s : jsstring) : jsstring :=
  rev (trimStart (rev (trimStart s))).

(** [parts.join(sep)] *)
Fixpoint join (sep : jsstring) (parts : list jsstring) : jsstring :=
  match parts with
  | [] => []
  | [p] => p
  | p :: ps => p ++ sep ++ join sep ps
  end.

(* ================================================================== *)
(** * Regular expressions *)
(* ================================================================== *)

Inductive class_item :=
| CChar (c : N)            (* a single character *)
| CRange (lo hi : N)       (* lo-hi *)
| CSpace                   (* \s *)
| CNonSpace.               (* \S *)

Inductive regex :=
| Eps
| Chr (c : N)
| Cls (negated : bool) (items : list class_item)
| Seq (r1 r2 : regex)
| Alt (r1 r2 : regex)
| Star (greedy : bool) (r : regex)      (* r*  and r*? *)
| Plus (greedy : bool) (r : regex)      (* r+  and r+? *)
| Opt (greedy : bool) (r : regex)       (* r?  and r?? *)
| Grp (i : nat) (r : regex)             (* i-th capturing group *)
| Bref (i : nat)                        (* \i *)
| Eos.                                  (* $ without the m flag *)

(** The literal text [w]. *)
Fixpoint lit_units (w : jsstring) : regex :=
  match w with
  | [] => Eps
  | [c] => Chr c
  | c :: w' => Seq (Chr c) (lit_units w')
  end.
Definition lit (s : string) : regex := lit_units (js s).

(** Sequence and alternation of several parts. *)
Fixpoint seqs (rs : list regex) : regex :=
  match rs with
  | [] => Eps
  | [r] => r
  | r :: rs' => Seq r (seqs rs')
  end.

Fixpoint alts (rs : list regex) : regex :=
  match rs with
  | [] => Eps
  | [r] => r
  | r :: rs' => Alt r (alts rs')
  end.

(** Canonicalize of the pattern semantics: with the [i] flag and without
    the [u] flag a character is compared through its upper case.  A
    character outside Basic Latin never canonicalizes into it, so on the
    Basic Latin patterns of the source this is upper-casing of a-z. *)
Definition canon (ic : bool) (c : N) : N :=
  if ic && is_lower c then (c - 32)%N else c.

Definition in_range (lo hi c : N) : bool := ((lo <=? c) && (c <=? hi))%N.

Definition item_mem (ic : bool) (it : class_item) (c : N) : bool :=
  match it with
  | CChar a => (canon ic a =? canon ic c)%N
  | CRange lo hi =>
      let C := canon ic c in
      in_range lo hi C || (ic && is_upper C && in_range lo hi (C + 32)%N)
  | CSpace => is_space c
  | CNonSpace => negb (is_space c)
  end.

Definition class_mem (ic : bool) (neg : bool) (items : list class_item)
           (c : N) : bool :=
  xorb neg (existsb (fun it => item_mem ic it c) items).

(** Captures: the i-th entry is the text of group i, [None] while the
    group is undefined. *)
Definition captures := list (option jsstring).

Definition get_cap (i : nat) (caps : captures) : option jsstring :=
  nth i caps None.

Fixpoint set_cap (i : nat) (v : option jsstring) (caps : captures)
  : captures :=
  match i, caps with
  | 0, _ :: t => v :: t
  | 0, [] => [v]
  | S j, h :: t => h :: set_cap j v t
  | S j, [] => None :: set_cap j v []
  end.

(** The capturing groups inside a pattern. *)
Fixpoint groups (r : regex) : list nat :=
  match r with
  | Seq a b | Alt a b => groups a ++ groups b
  | Star _ a | Plus _ a | Opt _ a => groups a
  | Grp i a => i :: groups a
  | _ => []
  end.

(** A matcher state: the input that is left, and the captures. *)
Definition mstate := (jsstring * captures)%type.

Definition clear_caps (gs : list nat) (st : mstate) : mstate :=
  (fst st, fold_right (fun i c => set_cap i None c) (snd st) gs).

Definition advances (x y : mstate) : bool :=
  length (fst y) <? length (fst x).

(** RepeatMatcher with min = 0 and no upper bound: an iteration that
    consumes nothing is a failure; captures inside the iterated atom are
    reset at each iteration. [fuel] bounds the number of iterations by
    the length of the input that is left, which they consume. *)
Fixpoint repeat_matcher (step : mstate -> list mstate) (gs : list nat)
         (greedy : bool) (fuel : nat) (x : mstate) : list mstate :=
  match fuel with
  | 0 => [x]
  | S f =>
      let again :=
        flat_map (fun y => if advances x y
                           then repeat_matcher step gs greedy f y
                           else [])
                 (step (clear_caps gs x)) in
      if greedy then again ++ [x] else x :: again
  end.

(** Text of a back-reference against the input. *)
Fixpoint starts_with_ic (ic : bool) (w s : jsstring) : bool :=
  match w, s with
  | [], _ => true
  | a :: w', b :: s' => (canon ic a =? canon ic b)%N && starts_with_ic ic w' s'
  | _ :: _, [] => false
  end.

(** All the ways [r] matches at the start of the input of [x], as the
    states reached, in the order in which backtracking tries them. *)
Fixpoint matcher (ic : bool) (r : regex) (x : mstate) : list mstate :=
  match r with
  | Eps => [x]
  | Chr c =>
      match fst x with
      | a :: s' => if (canon ic a =? canon ic c)%N then [(s', snd x)] else []
      | [] => []
      end
  | Cls neg items =>
      match fst x with
      | a :: s' => if class_mem ic neg items a then [(s', snd x)] else []
      | [] => []
      end
  | Seq r1 r2 => flat_map (matcher ic r2) (matcher ic r1 x)
  | Alt r1 r2 => matcher ic r1 x ++ matcher ic r2 x
  | Star g r1 =>
      repeat_matcher (matcher ic r1) (groups r1) g (length (fst x)) x
  | Plus g r1 =>
      flat_map (fun y => repeat_matcher (matcher ic r1) (groups r1) g
                                        (length (fst y)) y)
               (matcher ic r1 (clear_caps (groups r1) x))
  | Opt g r1 =>
      let once := filter (advances x)
                         (matcher ic r1 (clear_caps (groups r1) x)) in
      if g then once ++ [x] else x :: once
  | Grp i r1 =>
      map (fun y => (fst y,
                     set_cap i (Some (firstn (length (fst x) - length (fst y))
                                             (fst x)))
                             (snd y)))
          (matcher ic r1 x)
  | Bref i =>
      match get_cap i (snd x) with
      | None => [x]
      | Some w => if starts_with_ic ic w (fst x)
                  then [(skipn (length w) (fst x), snd x)] else []
      end
  | Eos => match fst x with [] => [x] | _ => [] end
  end.

(** A compiled pattern: the tree and its [i] flag. *)
Record RegExp := { re_src : regex; re_ic : bool }.

(** The result of a successful match: the text before the match, the
    matched text, the captures, and the text after the match. *)
Record match_result := {
  m_before : jsstring;
  m_text : jsstring;
  m_caps : captures;
  m_after : jsstring
}.

(** [m[i]] for a capture group: [None] is undefined. *)
Definition group (i : nat) (m : match_result) : option jsstring :=
  get_cap i (m_caps m).

(** The match of [re] that starts exactly at the start of [s]. *)
Definition match_here (re : RegExp) (s : jsstring) : option match_result :=
  match matcher (re_ic re) (re_src re) (s, []) with
  | (s', caps) :: _ =>
      Some {| m_before := []; m_text := firstn (length s - length s') s;
              m_caps := caps; m_after := s' |}
  | [] => None
  end.

(** RegExpBuiltinExec from index 0: the leftmost match. *)
Fixpoint regexp_exec (re : RegExp) (s : jsstring) : option match_result :=
  match match_here re s with
  | Some m => Some m
  | None =>
      match s with
      | [] => None
      | c :: s' =>
          match regexp_exec re s' with
          | Some m => Some {| m_before := c :: m_before m; m_text := m_text m;
                              m_caps := m_caps m; m_after := m_after m |}
          | None => None
          end
      end
  end.

(** [re.test(s)] *)
Definition test (re : RegExp) (s : jsstring) : bool :=
  match regexp_exec re s with Some _ => true | None => false end.

(** [s.replace(re, by)] for a pattern without the [g] flag and a
    replacement text without [$]. *)
Definition replace_first (re : RegExp) (by_ : jsstring) (s : jsstring)
  : jsstring :=
  match regexp_exec re s with
  | Some m => m_before m ++ by_ ++ m_after m
  | None => s
  end.

(** [s.replace(re, by)] for a pattern with the [g] flag: after an empty
    match the search resumes one code unit further. *)
Fixpoint replace_all_fuel (fuel : nat) (re : RegExp) (by_ : jsstring)
         (s : jsstring) : jsstring :=
  match fuel with
  | 0 => s
  | S f =>
      match regexp_exec re s with
      | None => s
      | Some m =>
          match m_text m, m_after m with
          | [], c :: rest =>
              m_before m ++ by_ ++ c :: replace_all_fuel f re by_ rest
          | [], [] => m_before m ++ by_
          | _ :: _, rest => m_before m ++ by_ ++ replace_all_fuel f re by_ rest
          end
      end
  end.

Definition replace_all (re : RegExp) (by_ : jsstring) (s : jsstring)
  : jsstring :=
  replace_all_fuel (S (length s)) re by_ s.

(** [while ((m = re.exec(s)) !== null) ...] for a pattern with the [g]
    flag: the successive matches.  The loop of the source does not end
    when a match is empty; the patterns it is used with start with [<]
    and cannot match the empty text, and the model stops there. *)
Fixpoint exec_loop_fuel (fuel : nat) (re : RegExp) (s : jsstring)
  : list match_result :=
  match fuel with
  | 0 => []
  | S f =>
      match regexp_exec re s with
      | None => []
      | Some m =>
          match m_text m with
          | [] => [m]
          | _ :: _ => m :: exec_loop_fuel f re (m_after m)
          end
      end
  end.

Definition exec_loop (re : RegExp) (s : jsstring) : list match_result :=
  exec_loop_fuel (S (length s)) re s.

(** [s.split(re)]: RegExp.prototype[Symbol.split] without a limit, for a
    pattern without capture groups.  [piece] is the text since the last
    separator, in reverse. *)
Fixpoint split_fuel (fuel : nat) (re : RegExp) (piece : jsstring)
         (s : jsstring) : list jsstring :=
  match fuel with
  | 0 => [rev piece ++ s]
  | S f =>
      match s with
      | [] => [rev piece]
      | c :: s' =>
          match match_here re s with
          | None => split_fuel f re (c :: piece) s'
          | Some m =>
              match m_text m, piece with
              | [], [] => split_fuel f re [c] s'
              | [], _ :: _ => rev piece :: split_fuel f re [c] s'
              | _ :: _, _ => rev piece :: split_fuel f re [] (m_after m)
              end
          end
      end
  end.

Definition split (re : RegExp) (s : jsstring) : list jsstring :=
  match s with
  | [] => match match_here re [] with Some _ => [] | None => [[]] end
  | _ => split_fuel (S (length s)) re [] s
  end.

(* ================================================================== *)
(** * JSON values and [JSON.parse] *)
(* ================================================================== *)

(** A number keeps its decimal reading: sign, digits and power of ten. *)
Record decimal := { d_neg : bool; d_mant : N; d_exp : Z }.

#[warnings="-register-all"] Inductive jsvalue :=
| VNull
| VBool (b : bool)
| VNumber (d : decimal)
| VString (s : jsstring)
| VArray (items : list jsvalue)
| VObject (members : list (jsstring * jsvalue)).

(** The number read as a double is zero: no digit is set, or the value
    rounds to zero, which happens at or below 2^-1075 (far below it the
    power of ten is not computed). *)
Definition decimal_is_zero (d : decimal) : bool :=
  (d_mant d =? 0)%N
  || ((d_exp d <? 0)%Z
      && ((Z.of_N (N.log2 (d_mant d)) + 400 <=? - d_exp d)%Z
          || (Z.of_N (d_mant d) * 2 ^ 1075 <=? 10 ^ (- d_exp d))%Z)).

(** ToBoolean; [None] is undefined. *)
Definition to_boolean (v : option jsvalue) : bool :=
  match v with
  | None | Some VNull => false
  | Some (VBool b) => b
  | Some (VNumber d) => negb (decimal_is_zero d)
  | Some (VString s) => truthy s
  | Some (VArray _) | Some (VObject _) => true
  end.

(** ** Tokens *)

Inductive token :=
| TLBrace | TRBrace | TLBracket | TRBracket | TColon | TComma
| TString (s : jsstring)
| TWord (w : jsstring).     (* a literal name or a number *)

Inductive lex_mode :=
| MDefault
| MWord (acc : jsstring)
| MString (acc : jsstring)
| MEscape (acc : jsstring)
| MUnicode (acc : jsstring) (digits : list N).

Definition json_ws (c : N) : bool :=
  ((c =? 9) || (c =? 10) || (c =? 13) || (c =? 32))%N.

Definition is_digit (c : N) : bool := ((48 <=? c) && (c <=? 57))%N.

Definition word_unit (c : N) : bool :=
  is_digit c || is_upper c || is_lower c
  || (c =? 43)%N || (c =? 45)%N || (c =? 46)%N.

Definition hex_value (c : N) : option N :=
  if is_digit c then Some (c - 48)%N
  else if ((97 <=? c) && (c <=? 102))%N then Some (c - 87)%N
  else if ((65 <=? c) && (c <=? 70))%N then Some (c - 55)%N
  else None.

Definition lex_default (c : N) : option (lex_mode * list token) :=
  if json_ws c then Some (MDefault, [])
  else if (c =? 123)%N then Some (MDefault, [TLBrace])
  else if (c =? 125)%N then Some (MDefault, [TRBrace])
  else if (c =? 91)%N then Some (MDefault, [TLBracket])
  else if (c =? 93)%N then Some (MDefault, [TRBracket])
  else if (c =? 58)%N then Some (MDefault, [TColon])
  else if (c =? 44)%N then Some (MDefault, [TComma])
  else if (c =? 34)%N then Some (MString [], [])
  else if word_unit c then Some (MWord [c], [])
  else None.

Definition unescape (c : N) : option N :=
  if (c =? 34)%N then Some 34%N
  else if (c =? 92)%N then Some 92%N
  else if (c =? 47)%N then Some 47%N
  else if (c =? 98)%N then Some 8%N
  else if (c =? 102)%N then Some 12%N
  else if (c =? 110)%N then Some 10%N
  else if (c =? 114)%N then Some 13%N
  else if (c =? 116)%N then Some 9%N
  else None.

(** The tokens of a JSON text, [None] on a lexical error.  Accumulators
    are in reverse. *)
Fixpoint lexer (mode : lex_mode) (toks : list token) (s : jsstring)
  : option (list token) :=
  match s with
  | [] =>
      match mode with
      | MDefault => Some (rev toks)
      | MWord acc => Some (rev (TWord (rev acc) :: toks))
      | _ => None
      end
  | c :: s' =>
      match mode with
      | MDefault =>
          match lex_default c with
          | Some (m, t) => lexer m (t ++ toks) s'
          | None => None
          end
      | MWord acc =>
          if word_unit c then lexer (MWord (c :: acc)) toks s'
          else match lex_default c with
               | Some (m, t) => lexer m (t ++ TWord (rev acc) :: toks) s'
               | None => None
               end
      | MString acc =>
          if (c =? 34)%N then lexer MDefault (TString (rev acc) :: toks) s'
          else if (c =? 92)%N then lexer (MEscape acc) toks s'
          else if (c <? 32)%N then None
          else lexer (MString (c :: acc)) toks s'
      | MEscape acc =>
          if (c =? 117)%N then lexer (MUnicode acc []) toks s'
          else match unescape c with
               | Some u => lexer (MString (u :: acc)) toks s'
               | None => None
               end
      | MUnicode acc ds =>
          match hex_value c with
          | None => None
          | Some h =>
              match ds with
              | [a; b; d] =>
                  lexer (MString ((a * 4096 + b * 256 + d * 16 + h)%N :: acc))
                        toks s'
              | _ => lexer (MUnicode acc (ds ++ [h])) toks s'
              end
          end
      end
  end.

(** ** Numbers and literal names *)

Fixpoint span_digits (s : jsstring) : jsstring * jsstring :=
  match s with
  | c :: s' => if is_digit c
               then let (d, r) := span_digits s' in (c :: d, r)
               else ([], s)
  | [] => ([], [])
  end.

Definition digits_value (ds : jsstring) : N :=
  fold_left (fun acc c => (acc * 10 + (c - 48))%N) ds 0%N.

Definition parse_exponent (s : jsstring) : option Z :=
  match s with
  | [] => Some 0%Z
  | e :: s1 =>
      if ((e =? 101) || (e =? 69))%N then
        let '(neg, s2) :=
          match s1 with
          | c :: t => if (c =? 45)%N then (true, t)
                      else if (c =? 43)%N then (false, t) else (false, s1)
          | [] => (false, s1)
          end in
        match span_digits s2 with
        | ((_ :: _) as ds, []) =>
            let v := Z.of_N (digits_value ds) in
            Some (if neg then (- v)%Z else v)
        | _ => None
        end
      else None
  end.

Definition parse_number (w : jsstring) : option decimal :=
  let '(neg, w1) :=
    match w with
    | c :: t => if (c =? 45)%N then (true, t) else (false, w)
    | [] => (false, w)
    end in
  match span_digits w1 with
  | ([], _) => None
  | (ip, w2) =>
      let int_ok := match ip with
                    | c :: _ :: _ => negb (c =? 48)%N
                    | _ => true
                    end in
      if negb int_ok then None
      else
        let frac :=
          match w2 with
          | c :: t => if (c =? 46)%N
                      then match span_digits t with
                           | ([], _) => None
                           | (fp, w3) => Some (fp, w3)
                           end
                      else Some ([], w2)
          | [] => Some ([], w2)
          end in
        match frac with
        | None => None
        | Some (fp, w3) =>
            match parse_exponent w3 with
            | None => None
            | Some e =>
                Some {| d_neg := neg;
                        d_mant := digits_value (ip ++ fp);
                        d_exp := (e - Z.of_nat (length fp))%Z |}
            end
        end
  end.

Definition word_value (w : jsstring) : option jsvalue :=
  if jseqb w (js "null") then Some VNull
  else if jseqb w (js "true") then Some (VBool true)
  else if jseqb w (js "false") then Some (VBool false)
  else option_map VNumber (parse_number w).

(** ** The parser: a push-down automaton over the tokens *)

Inductive frame :=
| FArr (items : list jsvalue)
| FObj (members : list (jsstring * jsvalue)) (key : option jsstring).

Inductive pstate :=
| SValue            (* a value *)
| SValueOrClose     (* just after [ *)
| SKeyOrClose       (* just after { *)
| SKey              (* after a comma in an object *)
| SColon
| SAfter            (* after a value inside an array or object *)
| SDone (v : jsvalue).

(** A value is complete: it goes into the enclosing array or object, or
    is the result. *)
Definition complete (v : jsvalue) (stack : list frame)
  : option (pstate * list frame) :=
  match stack with
  | [] => Some (SDone v, [])
  | FArr items :: st => Some (SAfter, FArr (v :: items) :: st)
  | FObj ms (Some k) :: st => Some (SAfter, FObj ((k, v) :: ms) None :: st)
  | FObj _ None :: _ => None
  end.

Definition parse_step (ps : pstate) (stack : list frame) (t : token)
  : option (pstate * list frame) :=
  match ps, t with
  | (SValue | SValueOrClose), TString s => complete (VString s) stack
  | (SValue | SValueOrClose), TWord w =>
      match word_value w with
      | Some v => complete v stack
      | None => None
      end
  | (SValue | SValueOrClose), TLBracket => Some (SValueOrClose, FArr [] :: stack)
  | (SValue | SValueOrClose), TLBrace => Some (SKeyOrClose, FObj [] None :: stack)
  | SValueOrClose, TRBracket =>
      match stack with
      | FArr [] :: st => complete (VArray []) st
      | _ => None
      end
  | (SKeyOrClose | SKey), TString k =>
      match stack with
      | FObj ms None :: st => Some (SColon, FObj ms (Some k) :: st)
      | _ => None
      end
  | SKeyOrClose, TRBrace =>
      match stack with
      | FObj [] None :: st => complete (VObject []) st
      | _ => None
      end
  | SColon, TColon => Some (SValue, stack)
  | SAfter, TComma =>
      match stack with
      | FArr _ :: _ => Some (SValue, stack)
      | FObj _ None :: _ => Some (SKey, stack)
      | _ => None
      end
  | SAfter, TRBracket =>
      match stack with
      | FArr items :: st => complete (VArray (rev items)) st
      | _ => None
      end
  | SAfter, TRBrace =>
      match stack with
      | FObj ms None :: st => complete (VObject (rev ms)) st
      | _ => None
      end
  | _, _ => None
  end.

Fixpoint parse_tokens (ps : pstate) (stack : list frame) (ts : list token)
  : option jsvalue :=
  match ts with
  | [] => match ps with SDone v => Some v | _ => None end
  | t :: ts' =>
      match parse_step ps stack t with
      | Some (ps', stack') => parse_tokens ps' stack' ts'
      | None => None
      end
  end.

(** [JSON.parse(text)]; [None] is a SyntaxError. *)
Definition JSON_parse (text : jsstring) : option jsvalue :=
  match lexer MDefault [] text with
  | Some ts => parse_tokens SValue [] ts
  | None => None
  end.

(* ================================================================== *)
(** * Exceptions *)
(* ================================================================== *)

(** What a [throw] carries, as far as the [catch] of [parseHtml] looks at
    it: an [Error] with its message, or some other value. *)
Inductive thrown :=
| ThrownError (message : jsstring)
| ThrownOther.

Inductive completion (A : Type) :=
| Normal (a : A)
| Throw (e : thrown).
Arguments Normal {A} a.
Arguments Throw {A} e.

Definition bind {A B} (c : completion A) (k : A -> completion B)
  : completion B :=
  match c with
  | Normal a => k a
  | Throw e => Throw e
  end.

Notation "x <- c ;; k" := (bind c (fun x => k))
  (at level 61, c at next level, right associativity).

(** The message of the TypeError of a property read on [null] (V8, the
    engine of Node and Deno). *)
Definition null_read_message (prop : string) : jsstring :=
  js "Cannot read properties of null (reading '" ++ js prop ++ js "')".

(** The own property [k] of an object built by [JSON.parse]: of two
    members with one key the later one stays. *)
Fixpoint own_property (k : jsstring) (ms : list (jsstring * jsvalue))
  : option jsvalue :=
  match ms with
  | [] => None
  | (k', v) :: ms' =>
      match own_property k ms' with
      | Some v' => Some v'
      | None => if jseqb k k' then Some v else None
      end
  end.

(** [v.prop] for one of the property names the parser reads ([author],
    [name], [datePublished], [dateCreated], [publishedAt]): none of them
    is on a prototype, so only an object's own member answers; [null]
    throws; [None] is undefined. *)
Definition get_prop (prop : string) (v : jsvalue)
  : completion (option jsvalue) :=
  match v with
  | VNull => Throw (ThrownError (null_read_message prop))
  | VObject ms => Normal (own_property (js prop) ms)
  | _ => Normal None
  end.

(* ================================================================== *)
(** * src/classify.ts *)
(* ================================================================== *)

Inductive LinkType := pdf | x | reddit | job | advertiser | article.

(** [/(careers|jobs|greenhouse\.io|lever\.co)/] *)
Definition job_re : RegExp :=
  {| re_src := Grp 1 (alts [lit "careers"; lit "jobs"; lit "greenhouse.io";
                            lit "lever.co"]);
     re_ic := false |}.

(** [/(ads?|advertis)/] *)
Definition advertiser_re : RegExp :=
  {| re_src := Grp 1 (Alt (Seq (lit "ad") (Opt true (Chr 115)))
                          (lit "advertis"));
     re_ic := false |}.

Definition classify (url : jsstring) : LinkType :=
  let s := toLowerCase url in
  if endsWith (js ".pdf") s || includes (js "/pdf") s then pdf
  else if includes (js "x.com") s || includes (js "twitter.com") s then x
  else if includes (js "reddit.com") s then reddit
  else if test job_re s then job
  else if test advertiser_re s then advertiser
  else article.

(* ================================================================== *)
(** * src/parse.ts *)
(* ================================================================== *)

Inductive ContentType := ct_article | ct_short_form | ct_minimal.

Record ParsedData := {
  title : jsstring;
  author : jsvalue;          (* string | null *)
  publishDate : jsvalue;     (* string | null *)
  summary : jsstring;
  content : jsstring;
  wordCount : nat;
  readingTime : nat;
  language : jsstring;
  contentType : ContentType
}.

Record ParsedContent := {
  success : bool;
  extractedAt : jsstring;
  sourceUrl : jsstring;
  data : ParsedData;
  error : option jsstring    (* [None]: the field is absent *)
}.

(** The interface [ParsedContent] of parse.ts declares [author] and
    [publishDate] as [string | null], and [extractAuthor] and
    [extractPublishDate] declare that type for what they return; the
    other fields have their declared types by the two records. *)
Definition string_or_null (v : jsvalue) : bool :=
  match v with
  | VNull | VString _ => true
  | _ => false
  end.

Definition well_formed (r : ParsedContent) : bool :=
  string_or_null (author (data r)) && string_or_null (publishDate (data r)).

(** ** Pieces of patterns that recur

    In the comments a pattern is quoted from the source with its double
    quotes written [\x22]. *)

Definition ch (a : ascii) : N := N_of_ascii a.

(** [[^>]] *)
Definition not_gt : regex := Cls true [CChar (ch ">")].
(** [[\x22']] *)
Definition quote : regex := Cls false [CChar DQ; CChar SQ].
(** [[^\x22']] *)
Definition not_quote : regex := Cls true [CChar DQ; CChar SQ].
(** [[^\x22]] *)
Definition not_dq : regex := Cls true [CChar DQ].
(** [[\s\S]] *)
Definition any : regex := Cls false [CSpace; CNonSpace].
(** [\s] *)
Definition space : regex := Cls false [CSpace].

Definition icase (r : regex) : RegExp := {| re_src := r; re_ic := true |}.
Definition csens (r : regex) : RegExp := {| re_src := r; re_ic := false |}.

(** ** cleanText *)

(** [/<[^>]*>/g] *)
Definition tag_re : RegExp :=
  csens (seqs [lit "<"; Star true not_gt; lit ">"]).
(** [/&nbsp;/gi] *)
Definition nbsp_re : RegExp := icase (lit "&nbsp;").
(** [/&[#a-z0-9]+;/gi] *)
Definition entity_re : RegExp :=
  icase (seqs [lit "&";
               Plus true (Cls false [CChar (ch "#"); CRange (ch "a") (ch "z");
                                     CRange (ch "0") (ch "9")]);
               lit ";"]).
(** [/\s+/g] *)
Definition spaces_re : RegExp := csens (Plus true space).

Definition cleanText (text : jsstring) : jsstring :=
  if negb (truthy text) then []
  else
    trim (replace_all spaces_re (js " ")
           (replace_all entity_re (js " ")
             (replace_all nbsp_re (js " ")
               (replace_all tag_re [] text)))).

(** [m[i]] when [m] is a match and the group is a non-empty text: the
    test [m && m[i]] of the source. *)
Definition group_if_any (i : nat) (m : option match_result)
  : option jsstring :=
  match m with
  | Some r => match group i r with
              | Some ((_ :: _) as g) => Some g
              | _ => None
              end
  | None => None
  end.

(** ** extractMetaTag *)

(** The two patterns built from [name], which at every call is a plain
    text without pattern syntax:
    [<meta[^>]*(?:name|property)=[\x22']NAME[\x22'][^>]*content=[\x22']([^\x22']+)[\x22'][^>]*>]
    and
    [<meta[^>]*content=[\x22']([^\x22']+)[\x22'][^>]*(?:name|property)=[\x22']NAME[\x22'][^>]*>],
    both with the [i] flag. *)
Definition meta_regexA (name : string) : RegExp :=
  icase (seqs [lit "<meta"; Star true not_gt;
               Alt (lit "name") (lit "property"); lit "="; quote; lit name;
               quote; Star true not_gt; lit "content="; quote;
               Grp 1 (Plus true not_quote); quote; Star true not_gt; lit ">"]).

Definition meta_regexB (name : string) : RegExp :=
  icase (seqs [lit "<meta"; Star true not_gt; lit "content="; quote;
               Grp 1 (Plus true not_quote); quote; Star true not_gt;
               Alt (lit "name") (lit "property"); lit "="; quote; lit name;
               quote; Star true not_gt; lit ">"]).

Definition or_match (a b : option match_result) : option match_result :=
  match a with Some _ => a | None => b end.

Definition cleanText_opt (g : option jsstring) : jsstring :=
  match g with Some t => cleanText t | None => [] end.

Definition extractMetaTag (name : string) (doc : jsstring) : jsstring :=
  match or_match (regexp_exec (meta_regexA name) doc)
                 (regexp_exec (meta_regexB name) doc) with
  | Some m => cleanText_opt (group 1 m)
  | None => []
  end.

(** ** extractJsonLD *)

(** [/<script[^>]*type=[\x22']application\/ld\+json[\x22'][^>]*>([\s\S]*?)<\/script>/gi] *)
Definition jsonld_re : RegExp :=
  icase (seqs [lit "<script"; Star true not_gt; lit "type="; quote;
               lit "application/ld+json"; quote; Star true not_gt; lit ">";
               Grp 1 (Star false any); lit "</script>"]).

(** Blocks that do not parse are skipped. *)
Definition extractJsonLD (doc : jsstring) : list jsvalue :=
  flat_map (fun m => match group 1 m with
                     | Some text => match JSON_parse text with
                                    | Some v => [v]
                                    | None => []
                                    end
                     | None => []
                     end)
           (exec_loop jsonld_re doc).

(** ** extractMainContent *)

Definition block_re (tag : string) : regex :=
  seqs [lit "<"; lit tag; Star true not_gt; lit ">"; Star false any;
        lit "</"; lit tag; lit ">"].

(** The pattern that removes script, style, nav, header, footer and aside
    elements, with the flags [gi]. *)
Definition unwantedRegex : RegExp :=
  icase (alts [block_re "script"; block_re "style"; block_re "nav";
               block_re "header"; block_re "footer"; block_re "aside"]).

(** [/<article[^>]*>([\s\S]*?)<\/article>/i] *)
Definition article_re : RegExp :=
  icase (seqs [lit "<article"; Star true not_gt; lit ">";
               Grp 1 (Star false any); lit "</article>"]).
(** [/<main[^>]*>([\s\S]*?)<\/main>/i] *)
Definition main_re : RegExp :=
  icase (seqs [lit "<main"; Star true not_gt; lit ">";
               Grp 1 (Star false any); lit "</main>"]).
(** [/<[^>]*class=\x22[^\x22]*(wp-block-post-content|entry-content|post-content|article-content)[^\x22]*\x22[^>]*>([\s\S]*?)<\/[^>]*>/i] *)
Definition post_class_re : RegExp :=
  icase (seqs [lit "<"; Star true not_gt; lit "class="; Chr DQ;
               Star true not_dq;
               Grp 1 (alts [lit "wp-block-post-content"; lit "entry-content";
                            lit "post-content"; lit "article-content"]);
               Star true not_dq; Chr DQ; Star true not_gt; lit ">";
               Grp 2 (Star false any); lit "</"; Star true not_gt; lit ">"]).
(** [/<div[^>]*class=\x22[^\x22]*(content|post|article)[^\x22]*\x22[^>]*>([\s\S]*?)<\/div>/i] *)
Definition div_class_re : RegExp :=
  icase (seqs [lit "<div"; Star true not_gt; lit "class="; Chr DQ;
               Star true not_dq;
               Grp 1 (alts [lit "content"; lit "post"; lit "article"]);
               Star true not_dq; Chr DQ; Star true not_gt; lit ">";
               Grp 2 (Star false any); lit "</div>"]).

Definition contentWrappers : list RegExp :=
  [article_re; main_re; post_class_re; div_class_re].

(** [/<(p|li|h[1-6]|blockquote)[^>]*>([\s\S]*?)<\/\1>/gi] *)
Definition paragraphRegex : RegExp :=
  icase (seqs [lit "<";
               Grp 1 (alts [lit "p"; lit "li";
                            Seq (lit "h") (Cls false [CRange (ch "1") (ch "6")]);
                            lit "blockquote"]);
               Star true not_gt; lit ">"; Grp 2 (Star false any);
               lit "</"; Bref 1; lit ">"]).

(** One turn of the loop over [contentWrappers]. *)
Definition pick_wrapper (cleanedHtml : jsstring) (bodyHtml : jsstring)
           (re : RegExp) : jsstring :=
  match group_if_any 1 (regexp_exec re cleanedHtml) with
  | Some g => if length bodyHtml <? length g then g else bodyHtml
  | None => bodyHtml
  end.

(** The container the paragraphs are taken from. *)
Definition content_container (doc : jsstring) : jsstring :=
  let cleanedHtml := replace_all unwantedRegex [] doc in
  let bodyHtml := fold_left (pick_wrapper cleanedHtml) contentWrappers [] in
  if negb (truthy bodyHtml) then cleanedHtml else bodyHtml.

Definition content_parts (bodyHtml : jsstring) : list jsstring :=
  filter (fun t => 40 <? length t)
         (map (fun m => cleanText_opt (group 2 m))
              (exec_loop paragraphRegex bodyHtml)).

Definition extractMainContent (doc : jsstring) : jsstring :=
  join (js (String "010" (String "010" EmptyString)))
       (content_parts (content_container doc)).

(** ** extractSourceUrl *)

(** [/<link[^>]*rel=[\x22']canonical[\x22'][^>]*href=[\x22']([^\x22']+)[\x22']/i] *)
Definition canonical_re : RegExp :=
  icase (seqs [lit "<link"; Star true not_gt; lit "rel="; quote;
               lit "canonical"; quote; Star true not_gt; lit "href="; quote;
               Grp 1 (Plus true not_quote); quote]).

(** [url || ''] *)
Definition url_or_empty (url : option jsstring) : jsstring :=
  match url with Some u => u | None => [] end.

Definition extractSourceUrl (doc : jsstring) (providedUrl : option jsstring)
  : jsstring :=
  if truthy (url_or_empty providedUrl) then url_or_empty providedUrl
  else
    let ogUrl := extractMetaTag "og:url" doc in
    if truthy ogUrl then ogUrl
    else match group_if_any 1 (regexp_exec canonical_re doc) with
         | Some g => g
         | None => []
         end.

(** ** extractTitle *)

(** [/<h1[^>]*>([\s\S]*?)<\/h1>/i] *)
Definition h1_re : RegExp :=
  icase (seqs [lit "<h1"; Star true not_gt; lit ">"; Grp 1 (Star false any);
               lit "</h1>"]).
(** [/<title[^>]*>([\s\S]*?)<\/title>/i] *)
Definition title_re : RegExp :=
  icase (seqs [lit "<title"; Star true not_gt; lit ">";
               Grp 1 (Star false any); lit "</title>"]).
(** [/\s*[|\-—]\s*[^|]+$/]; the dash of the class is U+2014. *)
Definition site_name_re : RegExp :=
  csens (seqs [Star true space;
               Cls false [CChar (ch "|"); CChar (ch "-"); CChar 8212];
               Star true space; Plus true (Cls true [CChar (ch "|")]); Eos]).

Definition h1_candidate (doc : jsstring) : jsstring :=
  match group_if_any 1 (regexp_exec h1_re doc) with
  | Some g => cleanText g
  | None => []
  end.

Definition title_tag_candidate (doc : jsstring) : jsstring :=
  match group_if_any 1 (regexp_exec title_re doc) with
  | Some g => trim (replace_first site_name_re [] (cleanText g))
  | None => []
  end.

Definition extractTitle (doc : jsstring) : jsstring :=
  let t := extractMetaTag "og:title" doc in
  if truthy t then t
  else
    let t := extractMetaTag "twitter:title" doc in
    if truthy t then t
    else
      let t := h1_candidate doc in
      if truthy t then t
      else
        let t := title_tag_candidate doc in
        if truthy t then t else [].

(** ** extractAuthor *)

(** [/<[^>]*rel=[\x22']author[\x22'][^>]*>([\s\S]*?)<\/[^>]*>/i] *)
Definition author_link_re : RegExp :=
  icase (seqs [lit "<"; Star true not_gt; lit "rel="; quote; lit "author";
               quote; Star true not_gt; lit ">"; Grp 1 (Star false any);
               lit "</"; Star true not_gt; lit ">"]).
(** [/<[^>]*class=\x22[^\x22]*(author|byline|writer)[^\x22]*\x22[^>]*>([\s\S]*?)<\/[^>]*>/i] *)
Definition author_class_re : RegExp :=
  icase (seqs [lit "<"; Star true not_gt; lit "class="; Chr DQ;
               Star true not_dq;
               Grp 1 (alts [lit "author"; lit "byline"; lit "writer"]);
               Star true not_dq; Chr DQ; Star true not_gt; lit ">";
               Grp 2 (Star false any); lit "</"; Star true not_gt; lit ">"]).

(** The loop over the JSON-LD blocks: the first block whose [author] is a
    string, or has a truthy [name], decides. *)
Fixpoint author_of_jsonld (blocks : list jsvalue)
  : completion (option jsvalue) :=
  match blocks with
  | [] => Normal None
  | jsonLD :: rest =>
      a <- get_prop "author" jsonLD ;;
      if to_boolean a then
        match a with
        | Some (VString s) => Normal (Some (VString s))
        | Some v =>
            n <- get_prop "name" v ;;
            if to_boolean n then Normal n else author_of_jsonld rest
        | None => author_of_jsonld rest
        end
      else author_of_jsonld rest
  end.

Definition author_class_candidate (doc : jsstring) : jsvalue :=
  match group_if_any 2 (regexp_exec author_class_re doc) with
  | Some g =>
      let a := cleanText g in
      if truthy a && (length a <? 100) then VString a else VNull
  | None => VNull
  end.

Definition author_after_meta (doc : jsstring) : completion jsvalue :=
  let link :=
    match group_if_any 1 (regexp_exec author_link_re doc) with
    | Some g => cleanText g
    | None => []
    end in
  if truthy link then Normal (VString link)
  else
    found <- author_of_jsonld (extractJsonLD doc) ;;
    match found with
    | Some v => Normal v
    | None => Normal (author_class_candidate doc)
    end.

Definition extractAuthor (doc : jsstring) : completion jsvalue :=
  let a := or_else (extractMetaTag "author" doc)
             (or_else (extractMetaTag "article:author" doc)
                      (extractMetaTag "twitter:creator" doc)) in
  if truthy a then Normal (VString a) else author_after_meta doc.

(** ** extractPublishDate *)

(** [/<time[^>]*datetime=[\x22']([^\x22']+)[\x22'][^>]*>/i] *)
Definition time_re : RegExp :=
  icase (seqs [lit "<time"; Star true not_gt; lit "datetime="; quote;
               Grp 1 (Plus true not_quote); quote; Star true not_gt; lit ">"]).

(** [a || b] on values that may be undefined. *)
Definition or_value (a b : option jsvalue) : option jsvalue :=
  if to_boolean a then a else b.

Fixpoint date_of_jsonld (blocks : list jsvalue)
  : completion (option jsvalue) :=
  match blocks with
  | [] => Normal None
  | jsonLD :: rest =>
      p <- get_prop "datePublished" jsonLD ;;
      d <- (if to_boolean p then Normal p
            else c <- get_prop "dateCreated" jsonLD ;;
                 if to_boolean c then Normal c
                 else get_prop "publishedAt" jsonLD) ;;
      if to_boolean d then Normal d else date_of_jsonld rest
  end.

Definition extractPublishDate (doc : jsstring) : completion jsvalue :=
  let d := or_else (extractMetaTag "article:published_time" doc)
             (or_else (extractMetaTag "pubdate" doc)
                      (extractMetaTag "date" doc)) in
  if truthy d then Normal (VString d)
  else
    match group_if_any 1 (regexp_exec time_re doc) with
    | Some g => Normal (VString g)
    | None =>
        found <- date_of_jsonld (extractJsonLD doc) ;;
        match found with
        | Some v => Normal v
        | None => Normal VNull
        end
    end.

(** ** extractSummary *)

(** [/<[^>]*(id|class)=[\x22'](?:speakable-summary|lead|summary|excerpt|abstract)[^\x22']*[\x22'][^>]*>([\s\S]*?)<\/[^>]*>/i] *)
Definition summary_element_re : RegExp :=
  icase (seqs [lit "<"; Star true not_gt;
               Grp 1 (Alt (lit "id") (lit "class")); lit "="; quote;
               alts [lit "speakable-summary"; lit "lead"; lit "summary";
                     lit "excerpt"; lit "abstract"];
               Star true not_quote; quote; Star true not_gt; lit ">";
               Grp 2 (Star false any); lit "</"; Star true not_gt; lit ">"]).
(** [/<p[^>]*>([\s\S]*?)<\/p>/i] *)
Definition first_p_re : RegExp :=
  icase (seqs [lit "<p"; Star true not_gt; lit ">"; Grp 1 (Star false any);
               lit "</p>"]).

Definition meta_summary (doc : jsstring) : jsstring :=
  or_else (extractMetaTag "description" doc)
    (or_else (extractMetaTag "og:description" doc)
             (extractMetaTag "twitter:description" doc)).

Definition summary_element (doc : jsstring) : jsstring :=
  match group_if_any 2 (regexp_exec summary_element_re doc) with
  | Some g => cleanText g
  | None => []
  end.

Definition first_paragraph_summary (doc : jsstring) : jsstring :=
  match group_if_any 1 (regexp_exec first_p_re doc) with
  | Some g =>
      let firstPara := cleanText g in
      if (50 <? length firstPara) && (length firstPara <? 300)
      then firstPara else []
  | None => []
  end.

Definition extractSummary (doc : jsstring) : jsstring :=
  let s := meta_summary doc in
  if truthy s then s
  else
    let s := summary_element doc in
    if truthy s then s
    else first_paragraph_summary doc.

(** ** extractLanguage *)

(** [/<html[^>]*lang=[\x22']([^\x22']+)[\x22']/i] *)
Definition lang_re : RegExp :=
  icase (seqs [lit "<html"; Star true not_gt; lit "lang="; quote;
               Grp 1 (Plus true not_quote); quote]).

Definition extractLanguage (doc : jsstring) : jsstring :=
  match group_if_any 1 (regexp_exec lang_re doc) with
  | Some g => g
  | None => js "unknown"
  end.

(** ** determineContentType *)

Definition determineContentType (wordCount : nat) : ContentType :=
  if 500 <? wordCount then ct_article
  else if 100 <? wordCount then ct_short_form
  else ct_minimal.

(** ** parseHtml *)

(** The data of a result that reports a failure. *)
Definition empty_data : ParsedData :=
  {| title := []; author := VNull; publishDate := VNull; summary := [];
     content := []; wordCount := 0; readingTime := 0;
     language := js "unknown"; contentType := ct_minimal |}.

Definition failure (now : jsstring) (url : option jsstring)
           (message : jsstring) : ParsedContent :=
  {| success := false; extractedAt := now; sourceUrl := url_or_empty url;
     data := empty_data; error := Some message |}.

(** [content.split(/\s+/).filter(Boolean)] *)
Definition words_of (text : jsstring) : list jsstring :=
  filter truthy (split spaces_re text).

(** [Math.ceil(wordCount / 200)]: the quotient of two integers below
    2^53 is rounded to a double on the same side of every integer, so the
    ceiling is the one of the exact quotient. *)
Definition reading_time (wordCount : nat) : nat := (wordCount + 199) / 200.

(** The body of the [try] block.  [now] is what
    [new Date().toISOString()] reads from the clock at the call. *)
Definition parseHtml_try (now : jsstring) (doc : jsstring)
           (url : option jsstring) : completion ParsedContent :=
  if negb (truthy doc) || match indexOf (js "<html") doc with
                          | None => true
                          | Some _ => false
                          end
  then Normal (failure now url (js "No valid HTML content found"))
  else
    let sourceUrl := extractSourceUrl doc url in
    let title := extractTitle doc in
    author <- extractAuthor doc ;;
    publishDate <- extractPublishDate doc ;;
    let summary := extractSummary doc in
    let content := extractMainContent doc in
    let language := extractLanguage doc in
    let words := words_of content in
    let wordCount := length words in
    let readingTime := reading_time wordCount in
    let contentType := determineContentType wordCount in
    Normal {| success := true; extractedAt := now; sourceUrl := sourceUrl;
              data := {| title := title; author := author;
                         publishDate := publishDate; summary := summary;
                         content := content; wordCount := wordCount;
                         readingTime := readingTime; language := language;
                         contentType := contentType |};
              error := None |}.

(** The [catch] block:
    [error instanceof Error ? error.message : 'Unknown parsing error']. *)
Definition parseHtml_catch (now : jsstring) (url : option jsstring)
           (e : thrown) : ParsedContent :=
  failure now url
          match e with
          | ThrownError message => message
          | ThrownOther => js "Unknown parsing error"
          end.

Definition parseHtml (now : jsstring) (doc : jsstring) (url : option jsstring)
  : ParsedContent :=
  match parseHtml_try now doc url with
  | Normal r => r
  | Throw e => parseHtml_catch now url e
  end.

(** [batchParseHtml]: the documents are parsed in order; [clock k] is
    the reading of the k-th call of [new Date()], counted from [tick]. *)
Fixpoint batchParseHtml_from (clock : nat -> jsstring) (tick : nat)
         (docs : list (jsstring * option jsstring)) : list ParsedContent :=
  match docs with
  | [] => []
  | (doc, url) :: rest =>
      parseHtml (clock tick) doc url :: batchParseHtml_from clock (S tick) rest
  end.

Definition batchParseHtml (clock : nat -> jsstring)
           (docs : list (jsstring * option jsstring)) : list ParsedContent :=
  batchParseHtml_from clock 0 docs.

(* ================================================================== *)
(** * The specification's words *)
(* ================================================================== *)

(** [w] occurs in [s]. *)
Definition substring_of (w s : jsstring) : Prop :=
  exists before after, s = before ++ w ++ after.

(** [w] is at the end of [s]. *)
Definition suffix_of (w s : jsstring) : Prop :=
  exists before, s = before ++ w.

(** The whitespace-separated tokens of a text: its maximal runs of
    characters that are not whitespace.  [cur] is the run being read, in
    reverse. *)
Fixpoint tokens_from (cur : jsstring) (s : jsstring) : list jsstring :=
  match s with
  | [] => match cur with [] => [] | _ => [rev cur] end
  | c :: s' =>
      if is_space c
      then match cur with
           | [] => tokens_from [] s'
           | _ => rev cur :: tokens_from [] s'
           end
      else tokens_from (c :: cur) s'
  end.

Definition tokens (s : jsstring) : list jsstring := tokens_from [] s.

(** The first candidate that is not empty, the empty text when all are. *)
Fixpoint first_nonempty (candidates : list jsstring) : jsstring :=
  match candidates with
  | [] => []
  | c :: rest => if truthy c then c else first_nonempty rest
  end.

(** The rules of the classifier in their order of priority, each a test
    on the lower-cased URL with its tag; the first rule that matches
    decides, [article] is the default. *)
Definition classifier_rules : list ((jsstring -> bool) * LinkType) :=
  [ (fun s => endsWith (js ".pdf") s || includes (js "/pdf") s, pdf);
    (fun s => includes (js "x.com") s || includes (js "twitter.com") s, x);
    (fun s => includes (js "reddit.com") s, reddit);
    (fun s => includes (js "careers") s || includes (js "jobs") s
              || includes (js "greenhouse.io") s
              || includes (js "lever.co") s, job);
    (fun s => includes (js "ads") s || includes (js "ad") s
              || includes (js "advertis") s, advertiser) ].

Fixpoint first_rule (rules : list ((jsstring -> bool) * LinkType))
         (s : jsstring) : LinkType :=
  match rules with
  | [] => article
  | (applies, tag) :: rest => if applies s then tag else first_rule rest s
  end.

(** The content container as section 4.3 words it: of the inner HTML of
    the matches of the four patterns, the longest. *)
Definition longest_of (candidates : list jsstring) : jsstring :=
  fold_left (fun best g => if length best <? length g then g else best)
            candidates [].

Definition inner_html (i : nat) (re : RegExp) (cleanedHtml : jsstring)
  : list jsstring :=
  match group_if_any i (regexp_exec re cleanedHtml) with
  | Some g => [g]
  | None => []
  end.

Definition container_by_spec (doc : jsstring) : jsstring :=
  let cleanedHtml := replace_all unwantedRegex [] doc in
  let best := longest_of (inner_html 1 article_re cleanedHtml
                          ++ inner_html 1 main_re cleanedHtml
                          ++ inner_html 2 post_class_re cleanedHtml
                          ++ inner_html 2 div_class_re cleanedHtml) in
  if negb (truthy best) then cleanedHtml else best.

(** The summary of last resort as section 4.2 words it: of all the [p]
    elements, the first whose cleaned text is longer than 50 and shorter
    than 300 characters. *)
Definition qualifies_as_summary (t : jsstring) : bool :=
  (50 <? length t) && (length t <? 300).

Definition first_qualifying_paragraph (doc : jsstring) : jsstring :=
  match find qualifies_as_summary
             (map (fun m => cleanText_opt (group 1 m))
                  (exec_loop first_p_re doc)) with
  | Some t => t
  | None => []
  end.

(** A pattern every match of which takes at least one code unit. *)
Fixpoint consumes (r : regex) : bool :=
  match r with
  | Chr _ | Cls _ _ => true
  | Seq a b => consumes a || consumes b
  | Alt a b => consumes a && consumes b
  | Plus _ a | Grp _ a => consumes a
  | _ => false
  end.

(** The pattern matches at the very start of the text. *)
Definition matches_at (re : RegExp) (s : jsstring) : bool :=
  match match_here re s with Some _ => true | None => false end.

Definition nonempty {A} (l : list A) : bool :=
  match l with [] => false | _ => true end.

(** Two results that differ at most in [extractedAt]. *)
Definition same_but_time (a b : ParsedContent) : Prop :=
  success a = success b /\ sourceUrl a = sourceUrl b
  /\ data a = data b /\ error a = error b.

(** The exception of a property read on [null]. *)
Definition null_read (e : thrown) : Prop :=
  exists prop, e = ThrownError (null_read_message prop).

(** The result at the end of the [try] block, for the author and the
    date found. *)
Definition assembled (now doc : jsstring) (url : option jsstring)
           (a p : jsvalue) : ParsedContent :=
  {| success := true; extractedAt := now;
     sourceUrl := extractSourceUrl doc url;
     data := {| title := extractTitle doc; author := a; publishDate := p;
                summary := extractSummary doc;
                content := extractMainContent doc;
                wordCount := length (words_of (extractMainContent doc));
                readingTime :=
                  reading_time (length (words_of (extractMainContent doc)));
                language := extractLanguage doc;
                contentType :=
                  determineContentType
                    (length (words_of (extractMainContent doc))) |};
     error := None |}.

(** A match found one code unit further on. *)
Definition shift (c : N) (m : match_result) : match_result :=
  {| m_before := c :: m_before m; m_text := m_text m; m_caps := m_caps m;
     m_after := m_after m |}.

(** A text free of the character [c]. *)
Definition free_of (c : N) (t : jsstring) : bool :=
  forallb (fun a => negb (a =? c)%N) t.

(** A plain value of an attribute: no quote, no [>] and no [=]. *)
Definition plain (v : jsstring) : bool :=
  free_of 34 v && free_of 39 v && free_of 62 v && free_of 61 v.

(** What stands between [<p] and [>] in the opening tag of a paragraph:
    nothing, or attributes after white space.  Of another tag whose name
    begins with [p], as [<pre>], the rest of the name stands there. *)
Definition paragraph_attributes (attrs : jsstring) : bool :=
  free_of 62 attrs
  && match attrs with
     | [] => true
     | c :: _ => is_space c
     end.

(** The og:title tag with the content [v]. *)
Definition og_title_tag (v : jsstring) : jsstring :=
  html "<meta property=`og:title` content=`" ++ v ++ html "`>".

(** ** Sample documents *)

Definition doc_plain : jsstring := js "just some text".

(** A JSON-LD block that holds [null]. *)
Definition doc_null_jsonld : jsstring :=
  html "<html><head><script type=`application/ld+json`>null</script></head><body><p>Hello</p></body></html>".

(** A JSON-LD block whose [datePublished] is an array. *)
Definition doc_array_date : jsstring :=
  html "<html><head><script type=`application/ld+json`>{`datePublished`: []}</script></head><body><p>Hello</p></body></html>".

(** A JSON-LD block whose author has a number for a name. *)
Definition doc_number_name : jsstring :=
  html "<html><head><script type=`application/ld+json`>{`author`: {`name`: 7}}</script></head><body><p>Hello</p></body></html>".

Definition doc_article : jsstring :=
  html "<html lang='en'><head><title>Grilling basics | Burger Weekly</title><meta name='author' content='Ann Lee'></head><body><article><p>The patty should rest for five minutes before it goes on the grill.</p></article></body></html>".

(** An og:title whose text holds an entity, and a different h1. *)
Definition doc_og_entity : jsstring :=
  html "<html><head><meta property='og:title' content='Q&amp;A'></head><body><h1>Weekly notes</h1></body></html>".

(** An og:title whose text cleans to nothing, and an h1. *)
Definition doc_og_blank : jsstring :=
  html "<html><head><meta property='og:title' content='&nbsp;'></head><body><h1>Weekly notes</h1></body></html>".

Definition doc_og_plain : jsstring :=
  html "<html><head><meta property=`og:title` content=`Smash burgers`></head><body><h1>Weekly notes</h1></body></html>".

(** A short article element and a longer div of class content. *)
Definition doc_two_containers : jsstring :=
  html "<html><body><article><p>A short note of a little more than forty characters.</p></article><div class=`content`><p>The first long paragraph of the real story, well over forty characters.</p><p>The second long paragraph of the real story, also well over forty characters.</p></div></body></html>".

(** Only a div of class content holds the text. *)
Definition doc_div_only : jsstring :=
  html "<html><body><div class=`content`><p>The first long paragraph of the real story, well over forty characters.</p></div></body></html>".

(** A short first paragraph and a second one of summary length. *)
Definition doc_short_first_p : jsstring :=
  html "<html><body><p>Hi.</p><p>This second paragraph is long enough to serve as a summary of the page.</p></body></html>".

Definition doc_long_first_p : jsstring :=
  html "<html><body><p>This first paragraph is long enough to serve as a summary of the page.</p><p>Hi.</p></body></html>".

(** A first paragraph that comes after a heading, with an attribute, an
    inline tag and capitals in its tags, and a second paragraph. *)
Definition doc_first_p_inside : jsstring :=
  html "<html><head><title>Grilling</title></head><body><h1>Notes</h1><P id=`first`>This first paragraph is <b>long</b> enough to serve as a summary of the page.</P><p>Hi.</p></body></html>".

(** A [pre] element before the first paragraph. *)
Definition doc_pre_before_p : jsstring :=
  html "<html><body><pre>x = 1</pre><p>This first paragraph is long enough to serve as a summary of the page.</p></body></html>".

(* ================================================================== *)
(** * More of the code, and the words of its properties *)
(* ================================================================== *)

(** ** validateParsedContent *)

(** The object [validateParsedContent] returns. *)
Record Validation := {
  score : nat;
  issues : list jsstring;
  suggestions : list jsstring
}.

(** [score += n] *)
Definition add_score (n : nat) (v : Validation) : Validation :=
  {| score := score v + n; issues := issues v;
     suggestions := suggestions v |}.

(** [issues.push(issue); suggestions.push(suggestion)] *)
Definition push_issue (issue suggestion : string) (v : Validation)
  : Validation :=
  {| score := score v; issues := issues v ++ [js issue];
     suggestions := suggestions v ++ [js suggestion] |}.

(** Title validation (30 points) *)
Definition validate_title (parsed : ParsedContent) (v : Validation)
  : Validation :=
  if truthy (title (data parsed)) then
    if 10 <? length (title (data parsed)) then add_score 30 v
    else push_issue "Title too short"
                    "Check if title extraction is working correctly" v
  else push_issue "No title found" "Verify HTML structure and meta tags" v.

(** Content validation (40 points) *)
Definition validate_content (parsed : ParsedContent) (v : Validation)
  : Validation :=
  if truthy (content (data parsed)) then
    if 100 <? wordCount (data parsed) then add_score 40 v
    else if 20 <? wordCount (data parsed) then
      push_issue "Low content volume"
                 "Check if main content extraction is working"
                 (add_score 20 v)
    else push_issue "Very little content extracted"
                    "Verify content selectors and parsing logic" v
  else push_issue "No content found"
                  "Check HTML structure and content selectors" v.

(** Metadata validation (20 points) *)
Definition validate_metadata (parsed : ParsedContent) (v : Validation)
  : Validation :=
  let v := if to_boolean (Some (author (data parsed)))
           then add_score 10 v else v in
  let v := if to_boolean (Some (publishDate (data parsed)))
           then add_score 5 v else v in
  if truthy (summary (data parsed)) then add_score 5 v else v.

(** Structure validation (10 points) *)
Definition validate_structure (parsed : ParsedContent) (v : Validation)
  : Validation :=
  let v := if truthy (sourceUrl parsed) then add_score 5 v else v in
  if negb (jseqb (language (data parsed)) (js "unknown"))
  then add_score 5 v else v.

Definition validateParsedContent (parsed : ParsedContent) : Validation :=
  validate_structure parsed
    (validate_metadata parsed
       (validate_content parsed
          (validate_title parsed
             {| score := 0; issues := []; suggestions := [] |}))).

(** The issues that are about the content. *)
Definition content_issues : list jsstring :=
  [js "Low content volume"; js "Very little content extracted";
   js "No content found"].

(** A value that is [null] or truthy: never an empty text, a zero or
    [false]. *)
Definition null_or_truthy (v : jsvalue) : Prop :=
  v = VNull \/ to_boolean (Some v) = true.

(** The messages of the two property reads that can fail. *)
Definition null_read_errors : list jsstring :=
  [null_read_message "author"; null_read_message "datePublished"].

(** The points of the four groups of tests of [validateParsedContent]. *)
Definition title_points (parsed : ParsedContent) : nat :=
  if 10 <? length (title (data parsed)) then 30 else 0.

Definition content_points (parsed : ParsedContent) : nat :=
  if truthy (content (data parsed))
  then if 100 <? wordCount (data parsed) then 40
       else if 20 <? wordCount (data parsed) then 20 else 0
  else 0.

Definition metadata_points (parsed : ParsedContent) : nat :=
  (if to_boolean (Some (author (data parsed))) then 10 else 0)
  + (if to_boolean (Some (publishDate (data parsed))) then 5 else 0)
  + (if truthy (summary (data parsed)) then 5 else 0).

Definition structure_points (parsed : ParsedContent) : nat :=
  (if truthy (sourceUrl parsed) then 5 else 0)
  + (if jseqb (language (data parsed)) (js "unknown") then 0 else 5).

(** The issue each of the first two groups raises, if any. *)
Definition title_issue (parsed : ParsedContent) : list jsstring :=
  if truthy (title (data parsed))
  then if 10 <? length (title (data parsed)) then []
       else [js "Title too short"]
  else [js "No title found"].

Definition content_issue (parsed : ParsedContent) : list jsstring :=
  if truthy (content (data parsed))
  then if 100 <? wordCount (data parsed) then []
       else if 20 <? wordCount (data parsed)
            then [js "Low content volume"]
            else [js "Very little content extracted"]
  else [js "No content found"].

(** ** Whitespace *)

(** The text in which every maximal run of whitespace is one space;
    [in_run] tells that the code unit before was whitespace. *)
Fixpoint collapse_from (in_run : bool) (s : jsstring) : jsstring :=
  match s with
  | [] => []
  | c :: s' =>
      if is_space c
      then if in_run then collapse_from true s'
           else 32%N :: collapse_from true s'
      else c :: collapse_from false s'
  end.

(** The last code unit is whitespace. *)
Fixpoint ends_space (s : jsstring) : bool :=
  match s with
  | [] => false
  | [c] => is_space c
  | _ :: s' => ends_space s'
  end.

Definition trailing (s : jsstring) : jsstring :=
  if ends_space s then [32%N] else [].

(** A word: a non-empty text without whitespace. *)
Definition word (t : jsstring) : bool :=
  truthy t && forallb (fun c => negb (is_space c)) t.

(** What [cleanText] does before it turns to the whitespace. *)
Definition strip_markup (text : jsstring) : jsstring :=
  replace_all entity_re (js " ")
    (replace_all nbsp_re (js " ") (replace_all tag_re [] text)).

(** [s.split(/\s+/)] with the piece read so far, in reverse. *)
Definition split_from (piece s : jsstring) : list jsstring :=
  split_fuel (S (length s)) spaces_re piece s.

(** No whitespace at the start. *)
Definition no_lead (s : jsstring) : bool :=
  match s with
  | c :: _ => negb (is_space c)
  | [] => true
  end.

(** ** Markup *)

(** A [<] with a [>] somewhere after it: the texts the tag pattern
    [/<[^>]*>/] finds a match in. *)
Fixpoint angle_pair (s : jsstring) : bool :=
  match s with
  | [] => false
  | c :: s' => (c =? 60)%N && negb (free_of 62 s') || angle_pair s'
  end.

Definition is_angle (c : N) : bool := ((c =? 60) || (c =? 62))%N.

(** The angle brackets of a text, in their order. *)
Definition angles (s : jsstring) : jsstring := filter is_angle s.

(** The code units a pattern can read: those one of its characters or
    classes accepts; a back-reference repeats what a group has read. *)
Fixpoint accepts (ic : bool) (r : regex) (a : N) : bool :=
  match r with
  | Chr c => (canon ic a =? canon ic c)%N
  | Cls neg items => class_mem ic neg items a
  | Seq r1 r2 | Alt r1 r2 => accepts ic r1 a || accepts ic r2 a
  | Star _ r1 | Plus _ r1 | Opt _ r1 | Grp _ r1 => accepts ic r1 a
  | Bref _ => true
  | Eps | Eos => false
  end.

(** ** The edge function of supabase/functions *)

Module Edge.

(** [.]: any code unit but a line terminator. *)
Definition dot : regex :=
  Cls true [CChar 10; CChar 13; CChar 8232; CChar 8233].

(** [/<title>(.*?)<\/title>/i] *)
Definition title_re : RegExp :=
  icase (seqs [lit "<title>"; Grp 1 (Star false dot); lit "</title>"]).

(** What [naiveParse] returns. *)
Record Parsed := {
  title : jsstring;
  author : jsvalue;
  publishDate : jsvalue;
  summary : jsstring;
  content : jsstring
}.

(** [html.match(re)?.[1] ?? ''] *)
Definition first_group_or_empty (re : RegExp) (html : jsstring) : jsstring :=
  match regexp_exec re html with
  | Some m => match group 1 m with Some g => g | None => [] end
  | None => []
  end.

Definition naiveParse (html url : jsstring) : Parsed :=
  let title := trim (first_group_or_empty title_re html) in
  {| title := title; author := VNull; publishDate := VNull;
     summary := if truthy title then js "Summary: " ++ title else [];
     content := if truthy html then firstn 5000 html else [] |}.

End Edge.

(** ** src/summarize.js: the summary of last resort *)

Module Summarize.

(** The fields of the input that the fallback reads; [None] is a field
    that is not there. *)
Record Input := {
  input_title : option jsstring;
  input_summary : option jsstring;
  input_content : option jsstring
}.

(** The result of a summarization; [error] and [tokensUsed] are [None]
    where the object has no such property or has it undefined. *)
Record Result := {
  summary : jsstring;
  provider : jsstring;
  model : jsstring;
  error : option jsstring;
  tokensUsed : option N
}.

(** [field || rest] *)
Definition field_or (field : option jsstring) (rest : jsstring) : jsstring :=
  match field with
  | Some s => if truthy s then s else rest
  | None => rest
  end.

(** [input.content || input.summary || input.title || ''] *)
Definition content_of (input : Input) : jsstring :=
  field_or (input_content input)
    (field_or (input_summary input) (field_or (input_title input) [])).

(** [HybridProvider.fallbackSummarization] *)
Definition fallbackSummarization (input : Input) : Result :=
  let content := content_of input in
  let words := join (js " ") (firstn 50 (split spaces_re content)) in
  {| summary := words ++ (if length words <? length content
                          then js "..." else []);
     provider := js "hybrid";
     model := js "fallback";
     error := Some (js "All AI providers failed, using basic text truncation");
     tokensUsed := None
  |}.

(** *** The providers

    The calls of the two services are not part of the program.  What
    the [try] block of a provider's [summarize] gets from the awaited
    call is a [Reply]: the text of the response with its usage, or an
    error, which the [catch] turns into a message
    ([error instanceof Error ? error.message : 'Unknown error']).  The
    constructors of the clients are taken to return. *)

Record Usage := {
  total_tokens : option N;
  input_tokens : option N;
  output_tokens : option N
}.

(** For OpenAI, [text] is [response.choices[0]?.message?.content]; for
    Anthropic it is [response.content[0].text] when
    [response.content[0]?.type === 'text'] and [None] otherwise. *)
Inductive Reply :=
| Answer (text : option jsstring) (usage : option Usage)
| Rejected (message : jsstring).

(** [response.usage?.total_tokens] *)
Definition openai_tokens (usage : option Usage) : option N :=
  match usage with Some u => total_tokens u | None => None end.

(** [response.usage?.input_tokens
      ? response.usage.input_tokens + (response.usage.output_tokens || 0)
      : undefined] *)
Definition anthropic_tokens (usage : option Usage) : option N :=
  match usage with
  | Some u =>
      match input_tokens u with
      | Some i =>
          if (i =? 0)%N then None
          else Some (i + match output_tokens u with
                         | Some o => o
                         | None => 0
                         end)%N
      | None => None
      end
  | None => None
  end.

(** [OpenAIProvider.summarize]; [OPENAI_MODEL] is the variable of the
    environment. *)
Definition openai_summarize (OPENAI_MODEL : option jsstring) (reply : Reply)
  : Result :=
  let model := field_or OPENAI_MODEL (js "gpt-4o-mini") in
  match reply with
  | Answer text usage =>
      let summary := field_or text (js "No summary generated") in
      {| summary := trim summary; provider := js "openai"; model := model;
         error := None; tokensUsed := openai_tokens usage |}
  | Rejected message =>
      {| summary := []; provider := js "openai"; model := model;
         error := Some message; tokensUsed := None |}
  end.

(** [AnthropicProvider.summarize] *)
Definition anthropic_summarize (ANTHROPIC_MODEL : option jsstring)
           (reply : Reply) : Result :=
  let model := field_or ANTHROPIC_MODEL (js "claude-3-5-sonnet-20241022") in
  match reply with
  | Answer text usage =>
      let summary := match text with
                     | Some t => t
                     | None => js "No summary generated"
                     end in
      {| summary := trim summary; provider := js "anthropic"; model := model;
         error := None; tokensUsed := anthropic_tokens usage |}
  | Rejected message =>
      {| summary := []; provider := js "anthropic"; model := model;
         error := Some message; tokensUsed := None |}
  end.

(** [String.prototype.toUpperCase] on the Basic Latin block, where the
    names of the providers are. *)
Definition upper_unit (c : N) : N := if is_lower c then (c - 32)%N else c.
Definition toUpperCase (s : jsstring) : jsstring := map upper_unit s.

(** [result.summary && !result.error] *)
Definition usable (result : Result) : bool :=
  truthy (summary result)
  && negb (match error result with Some e => truthy e | None => false end).

(** [{...result, provider: this.name,
      summary: `[${provider.name.toUpperCase()}] ${result.summary}`}] *)
Definition tagged (name : jsstring) (result : Result) : Result :=
  {| summary := js "[" ++ toUpperCase name ++ js "] " ++ summary result;
     provider := js "hybrid";
     model := model result;
     error := error result;
     tokensUsed := tokensUsed result |}.

(** The loop of [HybridProvider.summarize] over the providers, each
    given by its name and by what its [summarize] completes with. *)
Fixpoint hybrid_loop (providers : list (jsstring * completion Result))
  : option Result :=
  match providers with
  | [] => None
  | (name, Normal result) :: rest =>
      if usable result then Some (tagged name result) else hybrid_loop rest
  | (_, Throw _) :: rest => hybrid_loop rest
  end.

(** [HybridProvider.summarize] *)
Definition hybrid_summarize (providers : list (jsstring * completion Result))
           (input : Input) : Result :=
  match hybrid_loop providers with
  | Some result => result
  | None => fallbackSummarization input
  end.

(** The variables of [process.env] that [summarize] reads. *)
Record Environment := {
  OPENAI_API_KEY : option jsstring;
  ANTHROPIC_API_KEY : option jsstring;
  OPENAI_MODEL : option jsstring;
  ANTHROPIC_MODEL : option jsstring
}.

Definition is_set (variable : option jsstring) : bool :=
  match variable with Some s => truthy s | None => false end.

(** [summarize]; [openai] and [anthropic] are the replies the two
    services give when they are called. *)
Definition summarize (env : Environment) (openai anthropic : Reply)
           (input : Input) : Result :=
  let providers :=
    (if is_set (OPENAI_API_KEY env)
     then [(js "openai", openai_summarize (OPENAI_MODEL env) openai)]
     else [])
    ++ (if is_set (ANTHROPIC_API_KEY env)
        then [(js "anthropic",
               anthropic_summarize (ANTHROPIC_MODEL env) anthropic)]
        else []) in
  match providers with
  | [] =>
      {| summary := field_or (input_summary input)
                      (field_or (input_title input)
                                (js "No content to summarize"));
         provider := js "fallback";
         model := js "none";
         error := Some (js "No AI API keys configured");
         tokensUsed := None |}
  | [(_, result)] => result
  | _ =>
      hybrid_summarize (map (fun p => (fst p, Normal (snd p))) providers)
                       input
  end.

End Summarize.

(** A text of white space only. *)
Definition blank (s : jsstring) : bool := forallb is_space s.

(** ** The Gmail client *)

Module Gmail.

(** The tags [identifyNewsletter] returns. *)
Inductive Newsletter :=
| TheNeuron | TLDR | TheRundown | FutureTools | AIBreakfast | unknown.

(** [String.prototype.toLowerCase], as far as a search for a text of
    Basic Latin can tell: the capitals of Basic Latin become small
    letters, U+212A (the Kelvin sign) becomes [k], and U+0130 becomes [i]
    followed by U+0307; every other code unit outside Basic Latin is
    lower-cased to code units outside Basic Latin, and is kept here as
    it is. *)
Definition lower_units (c : N) : jsstring :=
  if is_upper c then [(c + 32)%N]
  else if (c =? 8490)%N then [107%N]
  else if (c =? 304)%N then [105%N; 775%N]
  else [c].

Definition toLowerCase (s : jsstring) : jsstring := flat_map lower_units s.

Definition identifyNewsletter (from subject : jsstring) : Newsletter :=
  let fromLower := toLowerCase from in
  if includes (js "theneuron") fromLower
     || includes (js "neurondaily") fromLower then TheNeuron
  else if includes (js "tldr") fromLower
          || includes (js "tldrnewsletter") fromLower then TLDR
  else if includes (js "rundown") fromLower
          || includes (js "daily.therundown") fromLower then TheRundown
  else if includes (js "futuretools") fromLower then FutureTools
  else if includes (js "aibreakfast") fromLower then AIBreakfast
  else unknown.

(** The image extensions of the second and of the last two patterns. *)
Definition image_ext : regex :=
  Grp 1 (alts [lit "jpg"; lit "jpeg"; lit "png"; lit "gif"; lit "webp";
               lit "svg"; lit "ico"]).
Definition image_ext3 : regex :=
  Grp 1 (alts [lit "jpg"; lit "png"; lit "gif"]).

(** [/\.(jpg|jpeg|png|gif|webp|svg|ico)(\?|$)/i] *)
Definition image_re : RegExp :=
  icase (seqs [lit "."; image_ext; Grp 2 (Alt (lit "?") Eos)]).

(** [/amazonaws\.com.*\.(jpg|png|gif)/i] and [/cdn.*\.(jpg|png|gif)/i] *)
Definition hosted_re (host : string) : RegExp :=
  icase (seqs [lit host; Star true Edge.dot; lit "."; image_ext3]).

Definition excludePatterns : list RegExp :=
  [ icase (lit "unsubscribe");
    image_re;
    icase (alts [lit "pixel"; lit "tracking"; lit "analytics"]);
    icase (lit "facebook.com/tr");
    icase (lit "google-analytics.com");
    icase (lit "doubleclick.net");
    hosted_re "amazonaws.com";
    hosted_re "cdn" ].

(** [!excludePatterns.some(pattern => pattern.test(url))] *)
Definition shouldIncludeUrl (url : jsstring) : bool :=
  negb (existsb (fun pattern => test pattern url) excludePatterns).

End Gmail.

(** ** Words for the rules of the Gmail client *)

(** The first rule that applies decides, [default] when none does. *)
Fixpoint first_tag {T} (rules : list ((jsstring -> bool) * T)) (default : T)
         (s : jsstring) : T :=
  match rules with
  | [] => default
  | (applies, tag) :: rest =>
      if applies s then tag else first_tag rest default s
  end.

(** The rules of [identifyNewsletter], each a test on the lower-cased
    sender. *)
Definition newsletter_rules : list ((jsstring -> bool) * Gmail.Newsletter) :=
  [ (fun s => includes (js "theneuron") s || includes (js "neurondaily") s,
     Gmail.TheNeuron);
    (includes (js "tldr"), Gmail.TLDR);
    (includes (js "rundown"), Gmail.TheRundown);
    (includes (js "futuretools"), Gmail.FutureTools);
    (includes (js "aibreakfast"), Gmail.AIBreakfast) ].

(** The texts that exclude a URL wherever they occur in it. *)
Definition exclusion_words : list jsstring :=
  [js "unsubscribe"; js "pixel"; js "tracking"; js "analytics";
   js "facebook.com/tr"; js "doubleclick.net"].

(** The extensions of the image pattern, and those of the two patterns
    of hosts. *)
Definition image_extensions : list string :=
  ["jpg"; "jpeg"; "png"; "gif"; "webp"; "svg"; "ico"]%string.
Definition hosted_extensions : list string := ["jpg"; "png"; "gif"]%string.

(** The image extensions, with their dot. *)
Definition image_suffixes : list jsstring :=
  [js ".jpg"; js ".jpeg"; js ".png"; js ".gif"; js ".webp"; js ".svg";
   js ".ico"].

(** The end of the text, or a question mark. *)
Definition query_or_end (t : jsstring) : bool :=
  match t with
  | [] => true
  | c :: _ => (c =? 63)%N
  end.

(** ** Plain words *)

(** A letter or a digit of Basic Latin. *)
Definition alnum (c : N) : bool := is_digit c || is_upper c || is_lower c.

(** A page whose [title] element holds the text [t]. *)
Definition page_titled (t rest : jsstring) : jsstring :=
  js "<html><head><title>" ++ t ++ js "</title>" ++ rest.

(** ** scripts/setup-oauth.js: the .env file *)

Module Env.

(** [s.split(sep)] for a separator of one code unit; [piece] is the text
    since the last separator, in reverse. *)
Fixpoint split_on (sep : N) (piece : jsstring) (s : jsstring)
  : list jsstring :=
  match s with
  | [] => [rev piece]
  | c :: s' =>
      if (c =? sep)%N then rev piece :: split_on sep [] s'
      else split_on sep (c :: piece) s'
  end.

(** The object [env]: its own properties in the order of their creation,
    which is the order of [Object.entries] for keys that are not array
    indices. *)
Definition env := list (jsstring * jsstring).

(** [env[key] = value] for an object that has its properties for own
    data properties: an existing property keeps its place; the key
    [__proto__] is the accessor of [Object.prototype], whose setter
    ignores a text. *)
Fixpoint assign (key value : jsstring) (e : env) : env :=
  match e with
  | [] => [(key, value)]
  | (k, v) :: e' =>
      if jseqb key k then (key, value) :: e' else (k, v) :: assign key value e'
  end.

Definition set_property (key value : jsstring) (e : env) : env :=
  if jseqb key (js "__proto__") then e else assign key value e.

(** The body of the [forEach] of [loadEnv]. *)
Definition read_line (e : env) (line : jsstring) : env :=
  match split_on 61 [] line with
  | key :: valueParts =>
      if truthy key && (0 <? length valueParts)
      then set_property (trim key) (trim (join (js "=") valueParts)) e
      else e
  | [] => e
  end.

(** [loadEnv], from the content of the file. *)
Definition loadEnv (envContent : jsstring) : env :=
  fold_left read_line (split_on 10 [] envContent) [].

(** [saveEnv]: the content written to the file. *)
Definition saveEnv (e : env) : jsstring :=
  join [10%N] (map (fun kv => fst kv ++ js "=" ++ snd kv) e).

(** An array index is written with digits: a key that begins with a
    digit may be one, and [Object.entries] lists those first. *)
Definition begins_with_digit (key : jsstring) : bool :=
  match key with c :: _ => is_digit c | [] => false end.

(** A key and a value that the file can hold as they are. *)
Definition storable (kv : jsstring * jsstring) : Prop :=
  fst kv <> [] /\ trim (fst kv) = fst kv
  /\ free_of 61 (fst kv) = true /\ free_of 10 (fst kv) = true
  /\ fst kv <> js "__proto__"
  /\ trim (snd kv) = snd kv /\ free_of 10 (snd kv) = true
  /\ begins_with_digit (fst kv) = false.

End Env.

(** The og:title tag with the content [v] before the property. *)
Definition og_title_tag_content_first (v : jsstring) : jsstring :=
  html "<meta content=`" ++ v ++ html "` property=`og:title`>".

(* ================================================================== *)
(** * Strings *)
(* ================================================================== *)

Lemma jseqb_true (a b : jsstring) : jseqb a b = true <-> a = b.
Proof.
  unfold jseqb. destruct (list_eq_dec N.eq_dec a b); split; congruence.
Qed.

Lemma jseqb_refl (a : jsstring) : jseqb a a = true.
Proof. now apply jseqb_true. Qed.

Lemma truthy_false (s : jsstring) : truthy s = false <-> s = [].
Proof. destruct s; simpl; split; congruence. Qed.

Lemma truthy_true (s : jsstring) : truthy s = true <-> s <> [].
Proof. destruct s; simpl; split; congruence. Qed.

Lemma starts_with_app (w rest : jsstring) : starts_with w (w ++ rest) = true.
Proof.
  induction w as [|a w IH]; simpl; [reflexivity|].
  now rewrite N.eqb_refl, IH.
Qed.

Lemma starts_with_spec (w s : jsstring) :
  starts_with w s = true <-> exists rest, s = w ++ rest.
Proof.
  split.
  - revert s. induction w as [|a w IH]; intros s H.
    + now exists s.
    + destruct s as [|b s]; simpl in H; [discriminate|].
      apply andb_true_iff in H as [Hab Hw].
      apply N.eqb_eq in Hab. subst b.
      destruct (IH _ Hw) as [rest ->]. now exists rest.
  - intros [rest ->]. apply starts_with_app.
Qed.

Lemma includes_unfold (w s : jsstring) :
  includes w s
  = starts_with w s || match s with [] => false | _ :: s' => includes w s' end.
Proof. destruct s; reflexivity. Qed.

Lemma includes_spec (w s : jsstring) :
  includes w s = true <-> substring_of w s.
Proof.
  unfold substring_of. split.
  - induction s as [|c s IH]; simpl; intros H.
    + rewrite orb_false_r in H. apply starts_with_spec in H as [rest Hr].
      now exists [], rest.
    + apply orb_true_iff in H as [H|H].
      * apply starts_with_spec in H as [rest Hr]. now exists [], rest.
      * destruct (IH H) as (b & a & ->). now exists (c :: b), a.
  - intros (b & a & ->). induction b as [|c b IH]; simpl.
    + now rewrite includes_unfold, starts_with_app.
    + rewrite IH. apply orb_true_r.
Qed.

Lemma includes_false (w s : jsstring) :
  includes w s = false <-> ~ substring_of w s.
Proof.
  rewrite <- includes_spec. destruct (includes w s); split; congruence.
Qed.

Lemma indexOf_none (w s : jsstring) :
  indexOf w s = None <-> includes w s = false.
Proof.
  induction s as [|c s IH]; simpl.
  - destruct (starts_with w []); simpl; split; congruence.
  - destruct (starts_with w (c :: s)); simpl; [split; congruence|].
    destruct (indexOf w s); simpl.
    + split; [discriminate|]. intros H. apply IH in H. discriminate.
    + split; [|reflexivity]. intros _. now apply IH.
Qed.

Lemma indexOf_position (w s : jsstring) (i : nat) :
  indexOf w s = Some i -> starts_with w (skipn i s) = true.
Proof.
  revert i. induction s as [|c s IH]; simpl; intros i.
  - destruct (starts_with w []) eqn:E; [|discriminate].
    intros [= <-]. exact E.
  - destruct (starts_with w (c :: s)) eqn:E.
    + intros [= <-]. exact E.
    + destruct (indexOf w s) as [j|]; simpl; [|discriminate].
      intros [= <-]. simpl. now apply IH.
Qed.

Lemma endsWith_spec (w s : jsstring) :
  endsWith w s = true <-> suffix_of w s.
Proof.
  unfold endsWith, suffix_of. split.
  - intros H. apply andb_true_iff in H as [_ H]. apply jseqb_true in H.
    exists (firstn (length s - length w) s).
    rewrite <- H at 2. symmetry. apply firstn_skipn.
  - intros [b ->]. rewrite length_app.
    replace (length b + length w - length w) with (length b + 0) by lia.
    rewrite skipn_app, Nat.add_0_r, skipn_all, Nat.sub_diag, skipn_O.
    simpl. rewrite jseqb_refl.
    apply andb_true_iff; split; [apply Nat.leb_le; lia|reflexivity].
Qed.

Lemma lower_unit_fixed (c : N) : is_upper c = false -> lower_unit c = c.
Proof. unfold lower_unit. now intros ->. Qed.

Lemma toLowerCase_fixed (w : jsstring) :
  forallb (fun c => negb (is_upper c)) w = true -> toLowerCase w = w.
Proof.
  induction w as [|c w IH]; simpl; [reflexivity|].
  intros H. apply andb_true_iff in H as [Hc Hw].
  apply negb_true_iff in Hc. now rewrite lower_unit_fixed, (IH Hw).
Qed.

Lemma toLowerCase_app (a b : jsstring) :
  toLowerCase (a ++ b) = toLowerCase a ++ toLowerCase b.
Proof. apply map_app. Qed.

(** A text without capitals that occurs in a URL occurs in its lower
    case. *)
Lemma includes_toLowerCase (w s : jsstring) :
  forallb (fun c => negb (is_upper c)) w = true ->
  includes w s = true -> includes w (toLowerCase s) = true.
Proof.
  intros Hw H. apply includes_spec in H as (b & a & ->).
  apply includes_spec.
  exists (toLowerCase b), (toLowerCase a).
  now rewrite !toLowerCase_app, (toLowerCase_fixed w Hw).
Qed.

Lemma endsWith_toLowerCase (w s : jsstring) :
  forallb (fun c => negb (is_upper c)) w = true ->
  endsWith w s = true -> endsWith w (toLowerCase s) = true.
Proof.
  intros Hw H. apply endsWith_spec in H as [b ->].
  apply endsWith_spec. exists (toLowerCase b).
  now rewrite toLowerCase_app, (toLowerCase_fixed w Hw).
Qed.

(* ================================================================== *)
(** * The matcher only moves forward *)
(* ================================================================== *)

(** [y] is reached from [x] by reading some input. *)
Definition reads (x y : mstate) : Prop := exists w, fst x = w ++ fst y.

Lemma reads_refl (x : mstate) : reads x x.
Proof. now exists []. Qed.

Lemma reads_trans (x y z : mstate) : reads x y -> reads y z -> reads x z.
Proof.
  intros [w Hw] [v Hv]. exists (w ++ v). now rewrite Hw, Hv, app_assoc.
Qed.

Lemma reads_length (x y : mstate) :
  reads x y -> length (fst y) <= length (fst x).
Proof. intros [w ->]. rewrite length_app. lia. Qed.

Lemma reads_clear (gs : list nat) (x y : mstate) :
  reads (clear_caps gs x) y -> reads x y.
Proof. intros H. exact H. Qed.

Lemma starts_with_ic_length (ic : bool) (w s : jsstring) :
  starts_with_ic ic w s = true -> length w <= length s.
Proof.
  revert s. induction w as [|a w IH]; intros [|b s] H; simpl in *;
    try lia; try discriminate.
  apply andb_true_iff in H as [_ H]. apply IH in H. lia.
Qed.

Section RepeatMatcher.
Variable step : mstate -> list mstate.
Variable gs : list nat.
Variable greedy : bool.

Lemma in_repeat_matcher (fuel : nat) (x y : mstate) :
  In y (repeat_matcher step gs greedy fuel x) ->
  y = x \/
  exists z, In z (step (clear_caps gs x)) /\ advances x z = true /\
            exists f, fuel = S f /\ In y (repeat_matcher step gs greedy f z).
Proof.
  destruct fuel as [|f]; simpl.
  - intros [<-|[]]. now left.
  - intros H.
    assert (In y (flat_map (fun z => if advances x z
                                     then repeat_matcher step gs greedy f z
                                     else [])
                           (step (clear_caps gs x))) \/ y = x) as [Hin| ->].
    { destruct greedy.
      - apply in_app_or in H as [H|[<-|[]]]; auto.
      - destruct H as [<-|H]; auto. }
    + apply in_flat_map in Hin as (z & Hz & Hy).
      destruct (advances x z) eqn:E; [|destruct Hy].
      right. exists z. repeat split; auto. now exists f.
    + now left.
Qed.

Hypothesis step_reads : forall x y, In y (step x) -> reads x y.

Lemma repeat_matcher_reads (fuel : nat) (x y : mstate) :
  In y (repeat_matcher step gs greedy fuel x) -> reads x y.
Proof.
  revert x. induction fuel as [|f IH]; intros x H.
  - destruct H as [<-|[]]. apply reads_refl.
  - apply in_repeat_matcher in H as [-> |(z & Hz & _ & f' & [= <-] & Hy)].
    + apply reads_refl.
    + apply reads_trans with z; [|now apply IH].
      apply reads_clear with gs. now apply step_reads.
Qed.
End RepeatMatcher.

Lemma flat_map_nil {A B} (l : list A) :
  flat_map (fun _ : A => @nil B) l = [].
Proof. induction l; simpl; auto. Qed.

(** The number of iterations is bounded by the input: more fuel than the
    input is long changes nothing. *)
Lemma repeat_matcher_fuel (step : mstate -> list mstate) (gs : list nat)
      (greedy : bool) (f1 f2 : nat) (x : mstate) :
  length (fst x) <= f1 -> length (fst x) <= f2 ->
  repeat_matcher step gs greedy f1 x = repeat_matcher step gs greedy f2 x.
Proof.
  revert f2 x. induction f1 as [|f1 IH]; intros f2 x H1 H2.
  - destruct f2 as [|f2]; [reflexivity|]. simpl.
    rewrite (flat_map_ext _ (fun _ => [])).
    + rewrite flat_map_nil. now destruct greedy.
    + intros y. unfold advances.
      destruct (Nat.ltb_spec (length (fst y)) (length (fst x))); [lia|reflexivity].
  - destruct f2 as [|f2]; simpl.
    + rewrite (flat_map_ext _ (fun _ => [])).
      * rewrite flat_map_nil. now destruct greedy.
      * intros y. unfold advances.
        destruct (Nat.ltb_spec (length (fst y)) (length (fst x)));
          [lia|reflexivity].
    + rewrite (flat_map_ext
                 (fun y => if advances x y
                           then repeat_matcher step gs greedy f1 y else [])
                 (fun y => if advances x y
                           then repeat_matcher step gs greedy f2 y else [])).
      * reflexivity.
      * intros y. unfold advances.
        destruct (Nat.ltb_spec (length (fst y)) (length (fst x)));
          [|reflexivity].
        apply IH; lia.
Qed.

Lemma matcher_reads (ic : bool) (r : regex) (x y : mstate) :
  In y (matcher ic r x) -> reads x y.
Proof.
  revert x y. induction r; intros x y H; simpl in H.
  - destruct H as [<-|[]]. apply reads_refl.
  - destruct x as [[|a s] caps]; simpl in H; [destruct H|].
    destruct (canon ic a =? canon ic c)%N; [|destruct H].
    destruct H as [<-|[]]. now exists [a].
  - destruct x as [[|a s] caps]; simpl in H; [destruct H|].
    destruct (class_mem ic negated items a); [|destruct H].
    destruct H as [<-|[]]. now exists [a].
  - apply in_flat_map in H as (z & Hz & Hy).
    apply reads_trans with z; auto.
  - apply in_app_or in H as [H|H]; auto.
  - apply repeat_matcher_reads in H; auto.
  - apply in_flat_map in H as (z & Hz & Hy).
    apply reads_trans with z.
    + apply reads_clear with (groups r). auto.
    + apply repeat_matcher_reads in Hy; auto.
  - assert (In y (filter (advances x)
                         (matcher ic r (clear_caps (groups r) x))) \/ y = x)
      as [Hin| ->].
    { destruct greedy.
      - apply in_app_or in H as [H|[<-|[]]]; auto.
      - destruct H as [<-|H]; auto. }
    + apply filter_In in Hin as [Hin _].
      apply reads_clear with (groups r). auto.
    + apply reads_refl.
  - apply in_map_iff in H as (z & <- & Hz). apply IHr in Hz. exact Hz.
  - destruct (get_cap i (snd x)) as [w|].
    + destruct (starts_with_ic ic w (fst x)) eqn:E; [|destruct H].
      destruct H as [<-|[]]. exists (firstn (length w) (fst x)).
      simpl. symmetry. apply firstn_skipn.
    + destruct H as [<-|[]]. apply reads_refl.
  - destruct (fst x); [|destruct H]. destruct H as [<-|[]]. apply reads_refl.
Qed.

Lemma matcher_length (ic : bool) (r : regex) (x y : mstate) :
  In y (matcher ic r x) -> length (fst y) <= length (fst x).
Proof. intros H. apply reads_length. now apply matcher_reads in H. Qed.

(** A pattern that [consumes] reads at least one code unit. *)
Lemma consumes_advances (ic : bool) (r : regex) (x y : mstate) :
  consumes r = true -> In y (matcher ic r x) ->
  length (fst y) < length (fst x).
Proof.
  revert x y. induction r; intros x y Hc H; simpl in Hc, H;
    try discriminate.
  - destruct x as [[|a s] caps]; simpl in H; [destruct H|].
    destruct (canon ic a =? canon ic c)%N; [|destruct H].
    destruct H as [<-|[]]. simpl. lia.
  - destruct x as [[|a s] caps]; simpl in H; [destruct H|].
    destruct (class_mem ic negated items a); [|destruct H].
    destruct H as [<-|[]]. simpl. lia.
  - apply in_flat_map in H as (z & Hz & Hy).
    pose proof (matcher_length _ _ _ _ Hz).
    pose proof (matcher_length _ _ _ _ Hy).
    apply orb_true_iff in Hc as [Hc|Hc].
    + specialize (IHr1 _ _ Hc Hz). lia.
    + specialize (IHr2 _ _ Hc Hy). lia.
  - apply andb_true_iff in Hc as [Hc1 Hc2].
    apply in_app_or in H as [H|H]; auto.
  - apply in_flat_map in H as (z & Hz & Hy).
    specialize (IHr _ _ Hc Hz). simpl in IHr.
    apply repeat_matcher_reads in Hy; [|apply matcher_reads].
    apply reads_length in Hy. lia.
  - apply in_map_iff in H as (z & <- & Hz). simpl. auto.
Qed.

(** The iteration of [r*] written on itself: the fuel is not seen. *)
Lemma star_unfold (ic greedy : bool) (r : regex) (x : mstate) :
  matcher ic (Star greedy r) x
  = let again :=
      flat_map (fun y => if advances x y
                         then matcher ic (Star greedy r) y else [])
               (matcher ic r (clear_caps (groups r) x)) in
    if greedy then again ++ [x] else x :: again.
Proof.
  simpl. destruct (length (fst x)) as [|n] eqn:E.
  - simpl.
    rewrite (flat_map_ext _ (fun _ => [])).
    + rewrite flat_map_nil. now destruct greedy.
    + intros y. unfold advances. rewrite E.
      destruct (Nat.ltb_spec (length (fst y)) 0); [lia|reflexivity].
  - simpl.
    rewrite (flat_map_ext
               (fun y => if advances x y
                         then repeat_matcher (matcher ic r) (groups r) greedy n y
                         else [])
               (fun y => if advances x y
                         then repeat_matcher (matcher ic r) (groups r) greedy
                                             (length (fst y)) y
                         else [])).
    + reflexivity.
    + intros y. unfold advances. rewrite E.
      destruct (Nat.ltb_spec (length (fst y)) (S n)); [|reflexivity].
      apply repeat_matcher_fuel; lia.
Qed.

(* ================================================================== *)
(** * Matches and the loops over them *)
(* ================================================================== *)

Lemma firstn_prefix (w s : jsstring) :
  firstn (length (w ++ s) - length s) (w ++ s) = w.
Proof.
  rewrite length_app.
  replace (length w + length s - length s) with (length w + 0) by lia.
  rewrite firstn_app_2. simpl. apply app_nil_r.
Qed.

(** A match at the start splits the text into the match and the rest. *)
Lemma match_here_parts (re : RegExp) (s : jsstring) (m : match_result) :
  match_here re s = Some m ->
  m_before m = [] /\ s = m_text m ++ m_after m.
Proof.
  unfold match_here.
  destruct (matcher (re_ic re) (re_src re) (s, [])) as [|[s' caps] l] eqn:E;
    [discriminate|].
  intros [= <-]. simpl. split; [reflexivity|].
  assert (In (s', caps) (matcher (re_ic re) (re_src re) (s, []))) as Hin
      by (rewrite E; now left).
  apply matcher_reads in Hin as [w Hw]. simpl in Hw. subst s.
  now rewrite firstn_prefix.
Qed.

Lemma match_here_nonempty (re : RegExp) (s : jsstring) (m : match_result) :
  consumes (re_src re) = true -> match_here re s = Some m -> m_text m <> [].
Proof.
  intros Hc. unfold match_here.
  destruct (matcher (re_ic re) (re_src re) (s, [])) as [|[s' caps] l] eqn:E;
    [discriminate|].
  intros [= <-]. simpl.
  assert (In (s', caps) (matcher (re_ic re) (re_src re) (s, []))) as Hin
      by (rewrite E; now left).
  pose proof (consumes_advances _ _ _ _ Hc Hin) as Hlt.
  apply matcher_reads in Hin as [w Hw]. simpl in *. subst s.
  rewrite firstn_prefix. rewrite length_app in Hlt.
  destruct w; simpl in Hlt; [lia|discriminate].
Qed.

(** The leftmost match splits the text in three. *)
Lemma regexp_exec_parts (re : RegExp) (s : jsstring) (m : match_result) :
  regexp_exec re s = Some m -> s = m_before m ++ m_text m ++ m_after m.
Proof.
  revert m. induction s as [|c s IH]; intros m; simpl.
  - destruct (match_here re []) as [m'|] eqn:E; [|discriminate].
    intros [= <-]. apply match_here_parts in E as [-> E]. exact E.
  - destruct (match_here re (c :: s)) as [m'|] eqn:E.
    + intros [= <-]. apply match_here_parts in E as [-> E]. exact E.
    + destruct (regexp_exec re s) as [m'|]; [|discriminate].
      intros [= <-]. simpl. now rewrite <- (IH m').
Qed.

Lemma regexp_exec_nonempty (re : RegExp) (s : jsstring) (m : match_result) :
  consumes (re_src re) = true -> regexp_exec re s = Some m -> m_text m <> [].
Proof.
  intros Hc. revert m. induction s as [|c s IH]; intros m; simpl.
  - destruct (match_here re []) as [m'|] eqn:E; [|discriminate].
    intros [= <-]. eapply match_here_nonempty; eauto.
  - destruct (match_here re (c :: s)) as [m'|] eqn:E.
    + intros [= <-]. eapply match_here_nonempty; eauto.
    + destruct (regexp_exec re s) as [m'|]; [|discriminate].
      intros [= <-]. simpl. now apply IH.
Qed.

Lemma regexp_exec_after (re : RegExp) (s : jsstring) (m : match_result) :
  regexp_exec re s = Some m ->
  length (m_before m) + length (m_text m) + length (m_after m) = length s.
Proof.
  intros H. apply regexp_exec_parts in H.
  apply (f_equal (@length N)) in H. rewrite !length_app in H. lia.
Qed.

(** [replace_all] does not run out of fuel. *)
Lemma replace_all_fuel_enough (re : RegExp) (by_ : jsstring) (f1 f2 : nat)
      (s : jsstring) :
  length s < f1 -> length s < f2 ->
  replace_all_fuel f1 re by_ s = replace_all_fuel f2 re by_ s.
Proof.
  revert f2 s. induction f1 as [|f1 IH]; intros f2 s H1 H2; [lia|].
  destruct f2 as [|f2]; [lia|]. simpl.
  destruct (regexp_exec re s) as [m|] eqn:E; [|reflexivity].
  apply regexp_exec_after in E.
  destruct (m_text m) as [|t ts]; destruct (m_after m) as [|c rest];
    simpl in E; try reflexivity.
  - f_equal. f_equal. f_equal. apply IH; lia.
  - f_equal. f_equal. apply IH; simpl; lia.
  - f_equal. f_equal. apply IH; simpl; lia.
Qed.

Lemma replace_all_fuel_step (re : RegExp) (by_ : jsstring) (f : nat)
      (s : jsstring) :
  replace_all_fuel (S f) re by_ s
  = match regexp_exec re s with
    | None => s
    | Some m =>
        match m_text m, m_after m with
        | [], c :: rest => m_before m ++ by_ ++ c :: replace_all_fuel f re by_ rest
        | [], [] => m_before m ++ by_
        | _ :: _, rest => m_before m ++ by_ ++ replace_all_fuel f re by_ rest
        end
    end.
Proof. reflexivity. Qed.

(** [replace_all] written on itself. *)
Lemma replace_all_unfold (re : RegExp) (by_ s : jsstring) :
  replace_all re by_ s
  = match regexp_exec re s with
    | None => s
    | Some m =>
        match m_text m, m_after m with
        | [], c :: rest => m_before m ++ by_ ++ c :: replace_all re by_ rest
        | [], [] => m_before m ++ by_
        | _ :: _, rest => m_before m ++ by_ ++ replace_all re by_ rest
        end
    end.
Proof.
  unfold replace_all at 1. rewrite replace_all_fuel_step.
  destruct (regexp_exec re s) as [m|] eqn:E; [|reflexivity].
  apply regexp_exec_after in E.
  destruct (m_text m) as [|t ts]; destruct (m_after m) as [|c rest];
    simpl in E; try reflexivity; unfold replace_all.
  - f_equal. f_equal. f_equal. apply replace_all_fuel_enough; lia.
  - f_equal. f_equal. apply replace_all_fuel_enough; simpl; lia.
  - f_equal. f_equal. apply replace_all_fuel_enough; simpl; lia.
Qed.

(** [exec_loop] does not run out of fuel. *)
Lemma exec_loop_fuel_enough (re : RegExp) (f1 f2 : nat) (s : jsstring) :
  length s < f1 -> length s < f2 ->
  exec_loop_fuel f1 re s = exec_loop_fuel f2 re s.
Proof.
  revert f2 s. induction f1 as [|f1 IH]; intros f2 s H1 H2; [lia|].
  destruct f2 as [|f2]; [lia|]. simpl.
  destruct (regexp_exec re s) as [m|] eqn:E; [|reflexivity].
  apply regexp_exec_after in E.
  destruct (m_text m) as [|t ts]; [reflexivity|].
  f_equal. apply IH; simpl in E; lia.
Qed.

Lemma exec_loop_fuel_step (re : RegExp) (f : nat) (s : jsstring) :
  exec_loop_fuel (S f) re s
  = match regexp_exec re s with
    | None => []
    | Some m => match m_text m with
                | [] => [m]
                | _ :: _ => m :: exec_loop_fuel f re (m_after m)
                end
    end.
Proof. reflexivity. Qed.

(** For a pattern that [consumes], the loop is the loop of the source:
    each match is followed by the matches in the text after it. *)
Lemma exec_loop_unfold (re : RegExp) (s : jsstring) :
  consumes (re_src re) = true ->
  exec_loop re s
  = match regexp_exec re s with
    | None => []
    | Some m => m :: exec_loop re (m_after m)
    end.
Proof.
  intros Hc. unfold exec_loop at 1. rewrite exec_loop_fuel_step.
  destruct (regexp_exec re s) as [m|] eqn:E; [|reflexivity].
  pose proof (regexp_exec_nonempty _ _ _ Hc E) as Hne.
  apply regexp_exec_after in E.
  destruct (m_text m) as [|t ts]; [congruence|].
  unfold exec_loop. f_equal. apply exec_loop_fuel_enough; simpl in E; lia.
Qed.

(** The two patterns the source loops over cannot match the empty
    text. *)
Lemma loop_patterns_consume :
  consumes (re_src jsonld_re) = true /\ consumes (re_src paragraphRegex) = true.
Proof. split; reflexivity. Qed.

(** [split] does not run out of fuel. *)
Lemma split_fuel_enough (re : RegExp) (f1 f2 : nat) (piece s : jsstring) :
  length s < f1 -> length s < f2 ->
  split_fuel f1 re piece s = split_fuel f2 re piece s.
Proof.
  revert f2 piece s. induction f1 as [|f1 IH]; intros f2 piece s H1 H2; [lia|].
  destruct f2 as [|f2]; [lia|]. simpl.
  destruct s as [|c s']; [reflexivity|]. simpl in H1, H2.
  destruct (match_here re (c :: s')) as [m|] eqn:E.
  - apply match_here_parts in E as [_ E].
    apply (f_equal (@length N)) in E. rewrite length_app in E. simpl in E.
    destruct (m_text m) as [|t ts]; [destruct piece|].
    + apply IH; lia.
    + f_equal. apply IH; lia.
    + f_equal. apply IH; simpl in E; lia.
  - apply IH; lia.
Qed.

(* ================================================================== *)
(** * Patterns that are plain texts *)
(* ================================================================== *)

Lemma nonempty_app {A} (l1 l2 : list A) :
  nonempty (l1 ++ l2) = nonempty l1 || nonempty l2.
Proof. destruct l1; reflexivity. Qed.

Lemma nonempty_map {A B} (f : A -> B) (l : list A) :
  nonempty (map f l) = nonempty l.
Proof. destruct l; reflexivity. Qed.

Lemma matches_at_nonempty (re : RegExp) (s : jsstring) :
  matches_at re s = nonempty (matcher (re_ic re) (re_src re) (s, [])).
Proof.
  unfold matches_at, match_here.
  now destruct (matcher (re_ic re) (re_src re) (s, [])) as [|[? ?] ?].
Qed.

(** [test] looks for a match at every position in turn. *)
Lemma test_unfold (re : RegExp) (s : jsstring) :
  test re s
  = matches_at re s || match s with [] => false | _ :: s' => test re s' end.
Proof.
  unfold test, matches_at. destruct s as [|c s]; simpl.
  - destruct (match_here re []); reflexivity.
  - destruct (match_here re (c :: s)); [reflexivity|].
    destruct (regexp_exec re s); reflexivity.
Qed.

(** A pattern that is a text, under a case-sensitive match, is the test
    that the text comes next. *)
Lemma matcher_lit_units (w s : jsstring) (caps : captures) :
  matcher false (lit_units w) (s, caps)
  = if starts_with w s then [(skipn (length w) s, caps)] else [].
Proof.
  revert s. induction w as [|a w IH]; intros s; [reflexivity|].
  destruct w as [|b w].
  - destruct s as [|c s]; [reflexivity|].
    cbn [lit_units matcher fst snd canon andb starts_with length skipn].
    rewrite (N.eqb_sym c a). destruct (a =? c)%N; reflexivity.
  - change (lit_units (a :: b :: w)) with (Seq (Chr a) (lit_units (b :: w))).
    cbn [matcher]. destruct s as [|c s]; [reflexivity|].
    cbn [fst snd canon andb starts_with].
    rewrite (N.eqb_sym c a). destruct (a =? c)%N; [|reflexivity].
    cbn [flat_map]. rewrite IH, app_nil_r. reflexivity.
Qed.

Lemma matcher_lit (w : string) (s : jsstring) (caps : captures) :
  matcher false (lit w) (s, caps)
  = if starts_with (js w) s then [(skipn (length (js w)) s, caps)] else [].
Proof. apply matcher_lit_units. Qed.

Lemma starts_with_app_l (w v s : jsstring) :
  starts_with (w ++ v) s = true -> starts_with w s = true.
Proof.
  intros H. apply starts_with_spec in H as [rest ->].
  rewrite <- app_assoc. apply starts_with_app.
Qed.

Lemma includes_app_l (w v s : jsstring) :
  includes (w ++ v) s = true -> includes w s = true.
Proof.
  intros H. apply includes_spec in H as (b & a & ->). apply includes_spec.
  exists b, (v ++ a). now rewrite <- app_assoc.
Qed.

(** The job pattern finds one of its four words. *)
Lemma matches_at_job (s : jsstring) :
  matches_at job_re s
  = starts_with (js "careers") s || starts_with (js "jobs") s
    || starts_with (js "greenhouse.io") s || starts_with (js "lever.co") s.
Proof.
  rewrite matches_at_nonempty. unfold job_re.
  cbn [re_src re_ic alts matcher]. rewrite nonempty_map, !nonempty_app.
  rewrite !matcher_lit.
  destruct (starts_with (js "careers") s), (starts_with (js "jobs") s),
    (starts_with (js "greenhouse.io") s), (starts_with (js "lever.co") s);
    reflexivity.
Qed.

Lemma test_job (s : jsstring) :
  test job_re s
  = includes (js "careers") s || includes (js "jobs") s
    || includes (js "greenhouse.io") s || includes (js "lever.co") s.
Proof.
  induction s as [|c s IH]; rewrite test_unfold, matches_at_job.
  - rewrite !(includes_unfold _ []). now rewrite !orb_false_r.
  - rewrite IH, !(includes_unfold _ (c :: s)).
    destruct (starts_with (js "careers") (c :: s)),
      (starts_with (js "jobs") (c :: s)),
      (starts_with (js "greenhouse.io") (c :: s)),
      (starts_with (js "lever.co") (c :: s)),
      (includes (js "careers") s), (includes (js "jobs") s),
      (includes (js "greenhouse.io") s), (includes (js "lever.co") s);
      reflexivity.
Qed.

(** The advertiser pattern finds the two letters [ad]: its other
    branches start with them. *)
Lemma matches_at_advertiser (s : jsstring) :
  matches_at advertiser_re s = starts_with (js "ad") s.
Proof.
  rewrite matches_at_nonempty. unfold advertiser_re.
  cbn [re_src re_ic matcher]. rewrite nonempty_map, nonempty_app.
  rewrite !matcher_lit.
  destruct (starts_with (js "ad") s) eqn:E.
  - cbn [flat_map]. rewrite app_nil_r.
    destruct (filter _ _); reflexivity.
  - cbn [flat_map nonempty orb].
    destruct (starts_with (js "advertis") s) eqn:E'; [|reflexivity].
    apply (starts_with_app_l (js "ad") (js "vertis")) in E'. congruence.
Qed.

Lemma test_advertiser (s : jsstring) :
  test advertiser_re s = includes (js "ad") s.
Proof.
  induction s as [|c s IH]; rewrite test_unfold, matches_at_advertiser,
    includes_unfold; [reflexivity|now rewrite IH].
Qed.

(** [ads|ad|advertis] as three texts to look for is [ad] alone. *)
Lemma includes_ad (s : jsstring) :
  includes (js "ads") s || includes (js "ad") s || includes (js "advertis") s
  = includes (js "ad") s.
Proof.
  destruct (includes (js "ad") s) eqn:E.
  - now rewrite orb_true_r.
  - destruct (includes (js "ads") s) eqn:E1.
    + apply (includes_app_l (js "ad") (js "s")) in E1. congruence.
    + destruct (includes (js "advertis") s) eqn:E2; [|reflexivity].
      apply (includes_app_l (js "ad") (js "vertis")) in E2. congruence.
Qed.

(* ================================================================== *)
(** * Splitting on whitespace *)
(* ================================================================== *)

Lemma trimStart_length (s : jsstring) : length (trimStart s) <= length s.
Proof.
  induction s as [|c s IH]; simpl; [lia|].
  destruct (is_space c); simpl; lia.
Qed.

Lemma space_step (a : N) (s : jsstring) (caps : captures) :
  matcher false space (a :: s, caps)
  = if is_space a then [(s, caps)] else [].
Proof.
  unfold space. cbn [matcher fst snd class_mem existsb item_mem xorb].
  now rewrite orb_false_r.
Qed.

(** The greedy iteration of [\s] first tries the whole run of
    whitespace. *)
Lemma spaces_greedy (f : nat) (s : jsstring) (caps : captures) :
  length s <= f ->
  exists l, repeat_matcher (matcher false space) [] true f (s, caps)
            = (trimStart s, caps) :: l.
Proof.
  revert s. induction f as [|f IH]; intros s Hf.
  - destruct s; [|simpl in Hf; lia]. now exists [].
  - destruct s as [|a s].
    + now exists [].
    + cbn [repeat_matcher].
      change (clear_caps [] (a :: s, caps)) with (a :: s, caps).
      rewrite space_step. cbn [trimStart].
      destruct (is_space a).
      * cbn [flat_map]. unfold advances. cbn [fst length].
        rewrite (proj2 (Nat.ltb_lt _ _) (Nat.lt_succ_diag_r _)).
        destruct (IH s) as [l Hl]; [simpl in Hf; lia|].
        rewrite Hl. eexists. reflexivity.
      * now exists [].
Qed.

(** [\s+] at the start of a text takes the whole run of whitespace
    there, and needs one. *)
Lemma match_here_spaces (s : jsstring) :
  match_here spaces_re s
  = match s with
    | a :: s' =>
        if is_space a
        then Some {| m_before := [];
                     m_text := firstn (length s - length (trimStart s')) s;
                     m_caps := []; m_after := trimStart s' |}
        else None
    | [] => None
    end.
Proof.
  unfold match_here, spaces_re, csens.
  cbn [re_src re_ic matcher]. change (groups space) with (@nil nat).
  destruct s as [|a s]; [reflexivity|].
  change (clear_caps [] (a :: s, [])) with (a :: s, @nil (option jsstring)).
  rewrite space_step. destruct (is_space a); [|reflexivity].
  cbn [flat_map fst]. destruct (spaces_greedy (length s) s [] (le_n _)) as [l ->].
  reflexivity.
Qed.

Lemma tokens_from_trimStart (s : jsstring) :
  tokens_from [] (trimStart s) = tokens_from [] s.
Proof.
  induction s as [|c s IH]; simpl; [reflexivity|].
  destruct (is_space c) eqn:E; [exact IH|].
  simpl. now rewrite E.
Qed.

Lemma split_fuel_step (re : RegExp) (f : nat) (piece s : jsstring) :
  split_fuel (S f) re piece s
  = match s with
    | [] => [rev piece]
    | c :: s' =>
        match match_here re s with
        | None => split_fuel f re (c :: piece) s'
        | Some m =>
            match m_text m, piece with
            | [], [] => split_fuel f re [c] s'
            | [], _ :: _ => rev piece :: split_fuel f re [c] s'
            | _ :: _, _ => rev piece :: split_fuel f re [] (m_after m)
            end
        end
    end.
Proof. destruct s; reflexivity. Qed.

Lemma truthy_rev (p : jsstring) : truthy (rev p) = truthy p.
Proof.
  destruct p as [|c p]; [reflexivity|]. simpl.
  destruct (rev p ++ [c]) eqn:E; [|reflexivity].
  apply app_eq_nil in E as [_ E]. discriminate.
Qed.

(** Splitting on [\s+] and dropping the empty pieces leaves the
    tokens. *)
Lemma split_spaces_tokens (f : nat) (piece s : jsstring) :
  length s < f ->
  filter truthy (split_fuel f spaces_re piece s) = tokens_from piece s.
Proof.
  revert piece s. induction f as [|f IH]; intros piece s Hf; [lia|].
  rewrite split_fuel_step. destruct s as [|c s].
  - cbn [filter tokens_from]. rewrite truthy_rev. now destruct piece.
  - destruct (match_here spaces_re (c :: s)) as [m|] eqn:E.
    + pose proof (match_here_nonempty spaces_re (c :: s) m eq_refl E) as Hne.
      rewrite match_here_spaces in E.
      destruct (is_space c) eqn:Ec; [|discriminate].
      injection E as <-. cbn [m_text m_after] in *.
      destruct (firstn _ _) as [|t ts]; [congruence|].
      cbn [filter tokens_from]. rewrite Ec, truthy_rev.
      pose proof (trimStart_length s). simpl in Hf.
      rewrite IH by lia. rewrite tokens_from_trimStart.
      now destruct piece.
    + rewrite match_here_spaces in E.
      destruct (is_space c) eqn:Ec; [discriminate|].
      cbn [tokens_from]. rewrite Ec. apply IH. simpl in Hf. lia.
Qed.

(** [content.split(/\s+/).filter(Boolean)] is the list of the tokens. *)
Lemma words_of_tokens (text : jsstring) : words_of text = tokens text.
Proof.
  unfold words_of, split, tokens. destruct text as [|c s].
  - rewrite match_here_spaces. reflexivity.
  - apply split_spaces_tokens. lia.
Qed.

(** The ceiling of the quotient by 200. *)
Lemma reading_time_ceiling (n : nat) :
  n <= 200 * reading_time n /\ 200 * reading_time n < n + 200.
Proof.
  unfold reading_time.
  pose proof (Nat.div_mod_eq (n + 199) 200) as H.
  pose proof (Nat.mod_upper_bound (n + 199) 200) as Hm.
  lia.
Qed.

Lemma determineContentType_thresholds (n : nat) :
  (determineContentType n = ct_article <-> 500 < n)
  /\ (determineContentType n = ct_short_form <-> 100 < n <= 500)
  /\ (determineContentType n = ct_minimal <-> n <= 100).
Proof.
  unfold determineContentType.
  destruct (Nat.ltb_spec 500 n); [|destruct (Nat.ltb_spec 100 n)];
    repeat split; intros; try discriminate; try lia; reflexivity.
Qed.

(* ================================================================== *)
(** * Exceptions inside [parseHtml] *)
(* ================================================================== *)

Lemma null_read_message_nonempty (prop : string) :
  null_read_message prop <> [].
Proof. unfold null_read_message. discriminate. Qed.

Lemma get_prop_throw (prop : string) (v : jsvalue) (e : thrown) :
  get_prop prop v = Throw e -> null_read e.
Proof.
  destruct v; simpl; try discriminate.
  intros [= <-]. now exists prop.
Qed.

Lemma get_prop_truthy (prop : string) (v : jsvalue) :
  to_boolean (Some v) = true -> exists r, get_prop prop v = Normal r.
Proof. destruct v; simpl; try discriminate; eauto. Qed.

Lemma author_of_jsonld_throw (blocks : list jsvalue) (e : thrown) :
  author_of_jsonld blocks = Throw e -> null_read e.
Proof.
  induction blocks as [|j rest IH]; [discriminate|].
  cbn [author_of_jsonld].
  destruct (get_prop "author" j) as [a|e'] eqn:Ea; cbn [bind].
  - destruct (to_boolean a) eqn:Ta; [|exact IH].
    destruct a as [v|]; [|exact IH].
    destruct (get_prop_truthy "name" v Ta) as [n Hn].
    destruct v; try discriminate; rewrite Hn; cbn [bind];
      destruct (to_boolean n); try discriminate; exact IH.
  - intros [= <-]. eapply get_prop_throw; eauto.
Qed.

Lemma date_of_jsonld_throw (blocks : list jsvalue) (e : thrown) :
  date_of_jsonld blocks = Throw e -> null_read e.
Proof.
  induction blocks as [|j rest IH]; [discriminate|].
  cbn [date_of_jsonld].
  destruct (get_prop "datePublished" j) as [p|e'] eqn:Ep; cbn [bind].
  - destruct (to_boolean p) eqn:Tp; cbn [bind].
    + rewrite Tp. discriminate.
    + destruct (get_prop "dateCreated" j) as [c|e'] eqn:Ec; cbn [bind].
      * destruct (to_boolean c) eqn:Tc; cbn [bind].
        -- rewrite Tc. discriminate.
        -- destruct (get_prop "publishedAt" j) as [a|e'] eqn:Eq; cbn [bind].
           ++ destruct (to_boolean a); [discriminate|exact IH].
           ++ intros [= <-]. eapply get_prop_throw; eauto.
      * intros [= <-]. eapply get_prop_throw; eauto.
  - intros [= <-]. eapply get_prop_throw; eauto.
Qed.

Lemma extractAuthor_throw (doc : jsstring) (e : thrown) :
  extractAuthor doc = Throw e -> null_read e.
Proof.
  unfold extractAuthor, author_after_meta.
  destruct (truthy (or_else _ _)); [discriminate|].
  destruct (truthy _); [discriminate|].
  destruct (author_of_jsonld (extractJsonLD doc)) as [[v|]|e'] eqn:E;
    cbn [bind]; try discriminate.
  intros [= <-]. eapply author_of_jsonld_throw; eauto.
Qed.

Lemma extractPublishDate_throw (doc : jsstring) (e : thrown) :
  extractPublishDate doc = Throw e -> null_read e.
Proof.
  unfold extractPublishDate.
  destruct (truthy (or_else _ _)); [discriminate|].
  destruct (group_if_any 1 _); [discriminate|].
  destruct (date_of_jsonld (extractJsonLD doc)) as [[v|]|e'] eqn:E;
    cbn [bind]; try discriminate.
  intros [= <-]. eapply date_of_jsonld_throw; eauto.
Qed.

(** The three ways out of the [try] block. *)
Lemma parseHtml_try_cases (now doc : jsstring) (url : option jsstring) :
  (includes (js "<html") doc = false
   /\ parseHtml_try now doc url
      = Normal (failure now url (js "No valid HTML content found")))
  \/ (exists a p, extractAuthor doc = Normal a
                  /\ extractPublishDate doc = Normal p
                  /\ parseHtml_try now doc url
                     = Normal (assembled now doc url a p))
  \/ (exists e, null_read e /\ parseHtml_try now doc url = Throw e).
Proof.
  unfold parseHtml_try.
  destruct doc as [|c doc'] eqn:Ed.
  - left. split; reflexivity.
  - rewrite <- Ed. replace (truthy doc) with true by now subst.
    cbn [negb orb].
    destruct (indexOf (js "<html") doc) as [i|] eqn:Ei.
    + right.
      destruct (extractAuthor doc) as [a|e] eqn:Ea; cbn [bind].
      * destruct (extractPublishDate doc) as [p|e] eqn:Ep; cbn [bind].
        -- left. exists a, p. repeat split.
        -- right. exists e. split; [|reflexivity].
           eapply extractPublishDate_throw; eauto.
      * right. exists e. split; [|reflexivity].
        eapply extractAuthor_throw; eauto.
    + left. split; [|reflexivity]. now apply indexOf_none.
Qed.

(* ================================================================== *)
(** * The contract of [parseHtml] *)
(* ================================================================== *)

(** C2: when the document is empty or does not contain the text [<html],
    [parseHtml] leaves the [try] block at once, without a call of an
    extractor, and its result has [success = false], the error
    [No valid HTML content found], and every data field at its
    zero-value. *)
Theorem parseHtml_rejects_non_html (now doc : jsstring)
        (url : option jsstring) :
  doc = [] \/ ~ substring_of (js "<html") doc ->
  parseHtml_try now doc url
  = Normal (failure now url (js "No valid HTML content found"))
  /\ parseHtml now doc url
     = {| success := false; extractedAt := now;
          sourceUrl := url_or_empty url;
          data := {| title := []; author := VNull; publishDate := VNull;
                     summary := []; content := []; wordCount := 0;
                     readingTime := 0; language := js "unknown";
                     contentType := ct_minimal |};
          error := Some (js "No valid HTML content found") |}.
Proof.
  intros H.
  assert (parseHtml_try now doc url
          = Normal (failure now url (js "No valid HTML content found")))
    as Htry.
  { unfold parseHtml_try. destruct H as [-> | H]; [reflexivity|].
    apply includes_false, indexOf_none in H. rewrite H.
    now rewrite orb_true_r. }
  split; [exact Htry|]. unfold parseHtml. now rewrite Htry.
Qed.

Lemma parseHtml_rejects_non_html_witness :
  parseHtml (js "2025-08-10T09:00:00.000Z") doc_plain None
  = {| success := false; extractedAt := js "2025-08-10T09:00:00.000Z";
       sourceUrl := [];
       data := {| title := []; author := VNull; publishDate := VNull;
                  summary := []; content := []; wordCount := 0;
                  readingTime := 0; language := js "unknown";
                  contentType := ct_minimal |};
       error := Some (js "No valid HTML content found") |}.
Proof.
  apply (parseHtml_rejects_non_html (js "2025-08-10T09:00:00.000Z")
                                    doc_plain None).
  right. apply includes_false. reflexivity.
Defined.

(** C1: in every result of [parseHtml], [success = false] comes with
    every data field at its zero-value (empty title, summary and
    content, null author and date, zero counts, language [unknown],
    content type [minimal]) and with an error that is present and not
    empty; [success = true] comes without an error. *)
Theorem parseHtml_success_error (now doc : jsstring)
        (url : option jsstring) :
  (success (parseHtml now doc url) = false ->
   data (parseHtml now doc url)
   = {| title := []; author := VNull; publishDate := VNull;
        summary := []; content := []; wordCount := 0; readingTime := 0;
        language := js "unknown"; contentType := ct_minimal |}
   /\ exists message, error (parseHtml now doc url) = Some message
                      /\ message <> [])
  /\ (success (parseHtml now doc url) = true ->
      error (parseHtml now doc url) = None).
Proof.
  unfold parseHtml.
  destruct (parseHtml_try_cases now doc url)
    as [[_ ->] | [(a & p & _ & _ & ->) | (e & [prop ->] & ->)]].
  - split; [|discriminate]. intros _. split; [reflexivity|].
    eexists. split; [reflexivity|discriminate].
  - split; [discriminate|reflexivity].
  - split; [|discriminate]. intros _. split; [reflexivity|].
    eexists. split; [reflexivity|]. apply null_read_message_nonempty.
Qed.

Lemma parseHtml_success_error_witness :
  (exists message,
      error (parseHtml (js "2025-08-10T09:00:00.000Z") doc_null_jsonld None)
      = Some message /\ message <> [])
  /\ error (parseHtml (js "2025-08-10T09:00:00.000Z") doc_article None)
     = None.
Proof.
  split.
  - apply (parseHtml_success_error (js "2025-08-10T09:00:00.000Z")
                                   doc_null_jsonld None).
    vm_compute. reflexivity.
  - apply (parseHtml_success_error (js "2025-08-10T09:00:00.000Z")
                                   doc_article None).
    vm_compute. reflexivity.
Defined.

(** C3 on the code: a result of [parseHtml] is not always a well-formed
    [ParsedContent].  What the JSON-LD loops of [extractPublishDate] and
    [extractAuthor] return is tested for truth only, so a block whose
    [datePublished] is an array, or whose author has a number for a
    name, gives a successful result with that array as [publishDate], or
    that number as [author], where the interface declares
    [string | null].  Nothing is thrown on the way, and a result that
    reports a failure is well-formed. *)
Theorem parseHtml_result_not_well_formed :
  (forall now url,
      let r := parseHtml now doc_array_date url in
      parseHtml_try now doc_array_date url = Normal r
      /\ success r = true /\ error r = None
      /\ publishDate (data r) = VArray []
      /\ well_formed r = false)
  /\ (forall now url,
         let r := parseHtml now doc_number_name url in
         parseHtml_try now doc_number_name url = Normal r
         /\ success r = true /\ error r = None
         /\ author (data r)
            = VNumber {| d_neg := false; d_mant := 7; d_exp := 0 |}
         /\ well_formed r = false)
  /\ (forall now doc url,
         success (parseHtml now doc url) = false ->
         well_formed (parseHtml now doc url) = true).
Proof.
  split; [|split].
  - intros now url r. unfold r, parseHtml.
    assert (extractAuthor doc_array_date = Normal VNull) as Ea
        by (vm_compute; reflexivity).
    assert (extractPublishDate doc_array_date = Normal (VArray [])) as Ep
        by (vm_compute; reflexivity).
    unfold parseHtml_try.
    replace (truthy doc_array_date) with true by reflexivity.
    replace (indexOf (js "<html") doc_array_date) with (Some 0)
      by (vm_compute; reflexivity).
    cbn [negb orb]. rewrite Ea, Ep. cbn [bind].
    repeat split.
  - intros now url r. unfold r, parseHtml.
    assert (extractAuthor doc_number_name
            = Normal (VNumber {| d_neg := false; d_mant := 7; d_exp := 0 |}))
      as Ea by (vm_compute; reflexivity).
    assert (extractPublishDate doc_number_name = Normal VNull) as Ep
        by (vm_compute; reflexivity).
    unfold parseHtml_try.
    replace (truthy doc_number_name) with true by reflexivity.
    replace (indexOf (js "<html") doc_number_name) with (Some 0)
      by (vm_compute; reflexivity).
    cbn [negb orb]. rewrite Ea, Ep. cbn [bind].
    repeat split.
  - intros now doc url. unfold parseHtml.
    destruct (parseHtml_try_cases now doc url)
      as [[_ ->] | [(a & p & _ & _ & ->) | (e & _ & ->)]];
      [reflexivity|discriminate|reflexivity].
Qed.

Lemma parseHtml_success_assembled (now doc : jsstring)
      (url : option jsstring) :
  success (parseHtml now doc url) = true ->
  exists a p, parseHtml now doc url = assembled now doc url a p.
Proof.
  unfold parseHtml.
  destruct (parseHtml_try_cases now doc url)
    as [[_ ->] | [(a & p & _ & _ & ->) | (e & _ & ->)]]; try discriminate.
  intros _. now exists a, p.
Qed.

(** C5: in every successful result, [wordCount] is the number of
    whitespace-separated tokens of [content], [readingTime] is the
    ceiling of [wordCount / 200], and [contentType] is [article] exactly
    above 500 words, [short-form] exactly above 100 and up to 500, and
    [minimal] exactly up to 100. *)
Theorem parseHtml_metrics (now doc : jsstring) (url : option jsstring) :
  success (parseHtml now doc url) = true ->
  let d := data (parseHtml now doc url) in
  wordCount d = length (tokens (content d))
  /\ (wordCount d <= 200 * readingTime d
      /\ 200 * readingTime d < wordCount d + 200)
  /\ (contentType d = ct_article <-> 500 < wordCount d)
  /\ (contentType d = ct_short_form <-> 100 < wordCount d <= 500)
  /\ (contentType d = ct_minimal <-> wordCount d <= 100).
Proof.
  intros H. destruct (parseHtml_success_assembled now doc url H)
    as (a & p & ->).
  cbn [assembled data wordCount content readingTime contentType].
  split; [now rewrite words_of_tokens|].
  split; [apply reading_time_ceiling|].
  apply determineContentType_thresholds.
Qed.

Lemma parseHtml_metrics_witness :
  wordCount (data (parseHtml (js "2025-08-10T09:00:00.000Z") doc_article None))
  = length (tokens (content (data (parseHtml (js "2025-08-10T09:00:00.000Z")
                                             doc_article None)))).
Proof.
  apply (parseHtml_metrics (js "2025-08-10T09:00:00.000Z") doc_article None).
  vm_compute. reflexivity.
Defined.

Lemma determineContentType_boundaries :
  determineContentType 500 = ct_short_form
  /\ determineContentType 501 = ct_article
  /\ determineContentType 100 = ct_minimal
  /\ determineContentType 101 = ct_short_form.
Proof. repeat split. Qed.

(* ================================================================== *)
(** * What a result depends on *)
(* ================================================================== *)

(** The claim C9 as it is worded fails: two calls on one document at
    two readings of the clock differ in [extractedAt]. *)
Lemma parseHtml_reads_the_clock :
  parseHtml (js "2025-08-10T09:00:00.000Z") doc_article None
  <> parseHtml (js "2025-08-10T09:00:01.000Z") doc_article None.
Proof.
  intros H. apply (f_equal extractedAt) in H. vm_compute in H. discriminate.
Qed.

Lemma batchParseHtml_from_nth (clock : nat -> jsstring) (tick : nat)
      (docs : list (jsstring * option jsstring)) (i : nat) :
  nth_error (batchParseHtml_from clock tick docs) i
  = option_map (fun d => parseHtml (clock (tick + i)) (fst d) (snd d))
               (nth_error docs i).
Proof.
  revert tick i. induction docs as [|[doc url] rest IH]; intros tick i.
  - now destruct i.
  - destruct i as [|i]; simpl.
    + now rewrite Nat.add_0_r.
    + rewrite IH. now rewrite Nat.add_succ_r.
Qed.

Lemma parseHtml_try_time (now1 now2 doc : jsstring) (url : option jsstring) :
  match parseHtml_try now1 doc url, parseHtml_try now2 doc url with
  | Normal r1, Normal r2 => same_but_time r1 r2
  | Throw e1, Throw e2 => e1 = e2
  | _, _ => False
  end.
Proof.
  unfold parseHtml_try, same_but_time.
  destruct (_ || _); [repeat split|].
  destruct (extractAuthor doc); cbn [bind]; [|reflexivity].
  destruct (extractPublishDate doc); cbn [bind]; [|reflexivity].
  repeat split.
Qed.

(** C9, amended: apart from [extractedAt], which is the reading of the
    clock at the call, the result of [parseHtml] is a function of the
    document and the URL alone; and in a batch the i-th result is
    [parseHtml] of the i-th document, whatever the other documents
    are. *)
Theorem parseHtml_determined_by_input :
  (forall now1 now2 doc url,
      same_but_time (parseHtml now1 doc url) (parseHtml now2 doc url))
  /\ (forall now doc url, extractedAt (parseHtml now doc url) = now)
  /\ (forall clock docs i,
         nth_error (batchParseHtml clock docs) i
         = option_map (fun d => parseHtml (clock i) (fst d) (snd d))
                      (nth_error docs i)).
Proof.
  split; [|split].
  - intros now1 now2 doc url. unfold parseHtml.
    pose proof (parseHtml_try_time now1 now2 doc url) as H.
    destruct (parseHtml_try now1 doc url), (parseHtml_try now2 doc url);
      try contradiction; [exact H|].
    subst. repeat split.
  - intros now doc url. unfold parseHtml.
    destruct (parseHtml_try_cases now doc url)
      as [[_ ->] | [(a & p & _ & _ & ->) | (e & _ & ->)]]; reflexivity.
  - intros clock docs i. unfold batchParseHtml.
    now rewrite batchParseHtml_from_nth.
Qed.

(* ================================================================== *)
(** * The classifier *)
(* ================================================================== *)

(** [classify] is the first rule of [classifier_rules] that applies to
    the lower-cased URL. *)
Lemma classify_first_rule (url : jsstring) :
  classify url = first_rule classifier_rules (toLowerCase url).
Proof.
  unfold classify, classifier_rules, first_rule.
  rewrite test_job, test_advertiser, includes_ad. reflexivity.
Qed.

(** The claim C4 as it is worded fails: a URL that contains
    [reddit.com] and whose path has the extension [.pdf], followed by a
    query, is tagged reddit. *)
Lemma pdf_extension_before_query_is_reddit :
  includes (js "reddit.com")
           (toLowerCase
              (js "https://www.reddit.com/r/grilling/guide.pdf?download=1"))
  = true
  /\ includes (js ".pdf")
              (toLowerCase
                 (js "https://www.reddit.com/r/grilling/guide.pdf?download=1"))
     = true
  /\ classify (js "https://www.reddit.com/r/grilling/guide.pdf?download=1")
     = reddit
  /\ ~ (forall url, includes (js "reddit.com") (toLowerCase url) = true ->
                    includes (js ".pdf") (toLowerCase url) = true ->
                    classify url = pdf).
Proof.
  repeat split; try (vm_compute; reflexivity).
  intros H.
  specialize (H (js "https://www.reddit.com/r/grilling/guide.pdf?download=1")
                eq_refl eq_refl).
  vm_compute in H. discriminate.
Qed.

(** C4, amended: [classify] gives every URL one of the six tags, the one
    of the first rule, in the order pdf, x, reddit, job, advertiser, that
    applies to the lower-cased URL, and [article] when none does.  The
    pdf rule looks at the end of the URL and for the text [/pdf]: a URL
    that contains [reddit.com] is tagged pdf when it ends in [.pdf] or
    contains [/pdf], and x or reddit otherwise, also when [.pdf] stands
    before a query. *)
Theorem classify_priority_order :
  (forall url, classify url = first_rule classifier_rules (toLowerCase url))
  /\ (forall url, In (classify url) [pdf; x; reddit; job; advertiser; article])
  /\ (forall url,
         includes (js "reddit.com") (toLowerCase url) = true ->
         endsWith (js ".pdf") (toLowerCase url) = true ->
         classify url = pdf)
  /\ (forall url,
         includes (js "reddit.com") (toLowerCase url) = true ->
         includes (js "/pdf") (toLowerCase url) = true ->
         classify url = pdf)
  /\ (forall url,
         includes (js "reddit.com") (toLowerCase url) = true ->
         endsWith (js ".pdf") (toLowerCase url) = false ->
         includes (js "/pdf") (toLowerCase url) = false ->
         classify url
         = if includes (js "x.com") (toLowerCase url)
              || includes (js "twitter.com") (toLowerCase url)
           then x else reddit).
Proof.
  split; [exact classify_first_rule|]. split; [|split; [|split]].
  - intros url. destruct (classify url); simpl; tauto.
  - intros url _ H. unfold classify. now rewrite H.
  - intros url _ H. unfold classify. rewrite H. now rewrite orb_true_r.
  - intros url Hr He Hp. unfold classify. rewrite He, Hp, Hr. cbn [orb].
    now destruct (_ || _).
Qed.

Lemma classify_priority_order_witness :
  classify (js "https://www.reddit.com/r/grilling/guide.PDF") = pdf.
Proof.
  apply (proj1 (proj2 (proj2 classify_priority_order)));
    vm_compute; reflexivity.
Defined.

(** The claim C10 as it is worded fails: a URL that contains [x.com] is
    tagged pdf when it ends in [.pdf]. *)
Lemma x_com_not_always_x :
  ~ (forall url, includes (js "x.com") (toLowerCase url) = true ->
                 classify url = x).
Proof.
  intros H. specialize (H (js "https://x.com/menu.pdf") eq_refl).
  vm_compute in H. discriminate.
Qed.

(** C10, amended: the patterns are tested on the whole lower-cased URL,
    not on its host.  A URL that no earlier rule takes is tagged x when
    [x.com] or [twitter.com] occurs anywhere in it, reddit when
    [reddit.com] does, and advertiser when the two letters [ad] do; the
    earlier rules are the pdf rule for x, the pdf and x rules for reddit,
    and the pdf, x, reddit and job rules for advertiser. *)
Theorem classify_whole_string (url : jsstring) :
  let s := toLowerCase url in
  endsWith (js ".pdf") s || includes (js "/pdf") s = false ->
  (includes (js "x.com") s || includes (js "twitter.com") s = true ->
   classify url = x)
  /\ (includes (js "x.com") s || includes (js "twitter.com") s = false ->
      (includes (js "reddit.com") s = true -> classify url = reddit)
      /\ (includes (js "reddit.com") s = false ->
          test job_re s = false ->
          includes (js "ad") s = true -> classify url = advertiser)).
Proof.
  intros s Hpdf. unfold classify. fold s. rewrite Hpdf. split.
  - now intros ->.
  - intros ->. split.
    + now intros ->.
    + intros -> -> H. now rewrite test_advertiser, H.
Qed.

Lemma classify_whole_string_witness :
  classify (js "https://linux.com/news") = x
  /\ classify (js "https://example.com/r/reddit.com-mirror") = reddit
  /\ classify (js "https://example.com/roadmap?thread=7") = advertiser.
Proof.
  split; [|split].
  - apply (classify_whole_string (js "https://linux.com/news"));
      vm_compute; reflexivity.
  - apply (classify_whole_string
             (js "https://example.com/r/reddit.com-mirror"));
      vm_compute; reflexivity.
  - apply (classify_whole_string
             (js "https://example.com/roadmap?thread=7"));
      vm_compute; reflexivity.
Defined.

(* ================================================================== *)
(** * Iterated classes *)
(* ================================================================== *)

Lemma flat_map_fails {A B} (f : A -> list B) (l : list A) :
  (forall y, In y l -> f y = []) -> flat_map f l = [].
Proof.
  induction l as [|a l IH]; intros H; [reflexivity|]. simpl.
  rewrite (H a) by now left. apply IH. intros y Hy. apply H. now right.
Qed.

(** A text as a pattern, with either case rule. *)
Lemma matcher_text (ic : bool) (w s : jsstring) (caps : captures) :
  matcher ic (lit_units w) (s, caps)
  = if starts_with_ic ic w s then [(skipn (length w) s, caps)] else [].
Proof.
  revert s. induction w as [|a w IH]; intros s; [reflexivity|].
  destruct w as [|b w].
  - destruct s as [|c s]; [reflexivity|].
    cbn [lit_units matcher fst snd starts_with_ic length skipn].
    rewrite (N.eqb_sym (canon ic c)), andb_true_r.
    destruct (canon ic a =? canon ic c)%N; reflexivity.
  - change (lit_units (a :: b :: w)) with (Seq (Chr a) (lit_units (b :: w))).
    cbn [matcher]. destruct s as [|c s]; [reflexivity|].
    cbn [fst snd starts_with_ic].
    rewrite (N.eqb_sym (canon ic c)).
    destruct (canon ic a =? canon ic c)%N; [|reflexivity].
    cbn [flat_map andb]. rewrite IH, app_nil_r. reflexivity.
Qed.

Section ClassStar.
Variable ic : bool.
Variable neg : bool.
Variable items : list class_item.

Let member := class_mem ic neg items.
Let class := Cls neg items.

Lemma class_star_nil (g : bool) (caps : captures) :
  matcher ic (Star g class) ([], caps) = [([], caps)].
Proof. reflexivity. Qed.

Lemma class_star_cons (g : bool) (c : N) (s : jsstring) (caps : captures) :
  matcher ic (Star g class) (c :: s, caps)
  = if member c
    then if g
         then matcher ic (Star g class) (s, caps) ++ [(c :: s, caps)]
         else (c :: s, caps) :: matcher ic (Star g class) (s, caps)
    else [(c :: s, caps)].
Proof.
  rewrite star_unfold.
  change (clear_caps (groups class) (c :: s, caps)) with (c :: s, caps).
  unfold class at 2. cbn [matcher fst snd]. fold member.
  destruct (member c).
  - cbn [flat_map]. unfold advances. cbn [fst length].
    rewrite (proj2 (Nat.ltb_lt _ _) (Nat.lt_succ_diag_r _)).
    rewrite app_nil_r. reflexivity.
  - now destruct g.
Qed.

(** What the iteration reaches is what is left after a run of members
    of the class. *)
Lemma in_class_star (g : bool) (s : jsstring) (caps : captures)
      (y : mstate) :
  In y (matcher ic (Star g class) (s, caps)) ->
  exists a b, s = a ++ b /\ forallb member a = true /\ y = (b, caps).
Proof.
  revert y. induction s as [|c s IH]; intros y.
  - rewrite class_star_nil. intros [<-|[]]. now exists [], [].
  - rewrite class_star_cons. destruct (member c) eqn:E.
    + intros H.
      assert (In y (matcher ic (Star g class) (s, caps)) \/ y = (c :: s, caps))
        as [Hin| ->].
      { destruct g.
        - apply in_app_or in H as [H|[<-|[]]]; auto.
        - destruct H as [<-|H]; auto. }
      * destruct (IH y Hin) as (a & b & -> & Ha & ->).
        exists (c :: a), b. repeat split. simpl. now rewrite E.
      * now exists [], (c :: s).
    + intros [<-|[]]. now exists [], (c :: s).
Qed.

(** The greedy iteration hands over first the farthest point it
    reaches: when what follows fails at every point beyond [s2], its
    first results are those at [s2]. *)
Lemma greedy_star_first (f : mstate -> list mstate) (w s2 : jsstring)
      (caps : captures) :
  forallb member w = true ->
  (forall a b, s2 = a ++ b -> a <> [] -> forallb member a = true ->
               f (b, caps) = []) ->
  exists l, flat_map f (matcher ic (Star true class) (w ++ s2, caps))
            = f (s2, caps) ++ l.
Proof.
  intros Hw Hfail. induction w as [|c w IH].
  - cbn [app]. destruct s2 as [|c s].
    + rewrite class_star_nil. now exists [].
    + rewrite class_star_cons. destruct (member c) eqn:E.
      * rewrite flat_map_app, flat_map_fails.
        -- now exists [].
        -- intros y Hy. apply in_class_star in Hy as (a & b & -> & Ha & ->).
           apply (Hfail (c :: a)); [reflexivity|discriminate|].
           simpl. now rewrite E.
      * now exists [].
  - simpl in Hw. apply andb_true_iff in Hw as [Hc Hw].
    destruct (IH Hw) as [l Hl].
    cbn [app]. rewrite class_star_cons, Hc, flat_map_app.
    exists (l ++ flat_map f [(c :: w ++ s2, caps)]).
    rewrite app_assoc. f_equal. exact Hl.
Qed.

(** The lazy iteration hands over first the nearest point. *)
Lemma lazy_star_first (f : mstate -> list mstate) (w s2 : jsstring)
      (caps : captures) :
  forallb member w = true ->
  (forall a b, w = a ++ b -> b <> [] -> f (b ++ s2, caps) = []) ->
  exists l, flat_map f (matcher ic (Star false class) (w ++ s2, caps))
            = f (s2, caps) ++ l.
Proof.
  intros Hw Hfail. induction w as [|c w IH].
  - cbn [app]. destruct s2 as [|c s].
    + rewrite class_star_nil. now exists [].
    + rewrite class_star_cons. destruct (member c); simpl; eexists; reflexivity.
  - simpl in Hw. apply andb_true_iff in Hw as [Hc Hw].
    destruct IH as [l Hl]; [exact Hw| |].
    + intros a b -> Hb. apply (Hfail (c :: a)); [reflexivity|exact Hb].
    + cbn [app]. rewrite class_star_cons, Hc. cbn [flat_map].
      exists l. rewrite <- Hl.
      change (f (c :: w ++ s2, caps)) with (f ((c :: w) ++ s2, caps)).
      now rewrite (Hfail [] (c :: w)).
Qed.

(** [class+], greedy, on a text that starts with a member. *)
Lemma class_plus_cons (c : N) (s : jsstring) (caps : captures) :
  matcher ic (Plus true class) (c :: s, caps)
  = if member c then matcher ic (Star true class) (s, caps) else [].
Proof.
  unfold class. cbn [matcher groups].
  change (clear_caps [] (c :: s, caps)) with (c :: s, caps).
  cbn [fst snd]. fold member.
  destruct (member c); [|reflexivity].
  cbn [flat_map fst]. now rewrite app_nil_r.
Qed.
End ClassStar.

(* ================================================================== *)
(** * Stepping through a pattern *)
(* ================================================================== *)

Lemma matcher_seq_text (ic : bool) (w : jsstring) (r : regex) (s : jsstring)
      (caps : captures) :
  matcher ic (Seq (lit_units w) r) (s, caps)
  = if starts_with_ic ic w s
    then matcher ic r (skipn (length w) s, caps) else [].
Proof.
  cbn [matcher]. rewrite matcher_text.
  destruct (starts_with_ic ic w s); [|reflexivity].
  cbn [flat_map]. apply app_nil_r.
Qed.

Lemma match_here_none (re : RegExp) (s : jsstring) :
  matcher (re_ic re) (re_src re) (s, []) = [] -> match_here re s = None.
Proof. unfold match_here. now intros ->. Qed.

Lemma match_here_first (re : RegExp) (s s' : jsstring) (caps : captures)
      (l : list mstate) :
  matcher (re_ic re) (re_src re) (s, []) = (s', caps) :: l ->
  match_here re s
  = Some {| m_before := []; m_text := firstn (length s - length s') s;
            m_caps := caps; m_after := s' |}.
Proof. unfold match_here. now intros ->. Qed.

(** A pattern that starts with a text fails where the text is not. *)
Lemma match_here_text_fails (re : RegExp) (w : jsstring) (r : regex)
      (s : jsstring) :
  re_src re = Seq (lit_units w) r ->
  starts_with_ic (re_ic re) w s = false ->
  match_here re s = None.
Proof.
  intros Hre Hw. apply match_here_none.
  now rewrite Hre, matcher_seq_text, Hw.
Qed.

Lemma regexp_exec_skip (re : RegExp) (c : N) (s : jsstring) :
  match_here re (c :: s) = None ->
  regexp_exec re (c :: s) = option_map (shift c) (regexp_exec re s).
Proof.
  intros H. cbn [regexp_exec]. rewrite H.
  now destruct (regexp_exec re s).
Qed.

Lemma regexp_exec_here (re : RegExp) (s : jsstring) (m : match_result) :
  match_here re s = Some m -> regexp_exec re s = Some m.
Proof. intros H. destruct s; cbn [regexp_exec]; now rewrite H. Qed.

(** Skipping a whole prefix at no point of which the pattern's first
    text is. *)
Lemma regexp_exec_skip_prefix (re : RegExp) (w : jsstring) (r : regex)
      (pre s : jsstring) :
  re_src re = Seq (lit_units w) r ->
  (forall a b, pre = a ++ b -> b <> [] ->
               starts_with_ic (re_ic re) w (b ++ s) = false) ->
  regexp_exec re (pre ++ s)
  = option_map (fun m => {| m_before := pre ++ m_before m;
                            m_text := m_text m; m_caps := m_caps m;
                            m_after := m_after m |})
               (regexp_exec re s).
Proof.
  intros Hre. induction pre as [|c pre IH]; intros H.
  - cbn [app]. destruct (regexp_exec re s) as [[]|]; reflexivity.
  - cbn [app]. rewrite regexp_exec_skip.
    + rewrite IH.
      * destruct (regexp_exec re s) as [[]|]; reflexivity.
      * intros a b -> Hb. apply (H (c :: a)); [reflexivity|exact Hb].
    + apply (match_here_text_fails re w r _ Hre).
      apply (H [] (c :: pre)); [reflexivity|discriminate].
Qed.

Lemma canon_fixed (ic : bool) (c : N) :
  is_lower c = false -> canon ic c = c.
Proof. unfold canon. intros ->. now rewrite andb_false_r. Qed.

(** A character that is not a letter is matched by itself alone. *)
Lemma canon_eq_sign (ic : bool) (a c : N) :
  is_lower a = false -> is_upper a = false ->
  (canon ic a =? canon ic c)%N = (a =? c)%N.
Proof.
  intros Hl Hu. rewrite (canon_fixed ic a Hl). unfold canon.
  destruct (ic && is_lower c) eqn:E; [|reflexivity].
  apply andb_true_iff in E as [_ E]. unfold is_lower, is_upper in *.
  apply andb_true_iff in E as [E1 E2].
  apply N.leb_le in E1. apply N.leb_le in E2.
  destruct (N.eqb_spec a (c - 32)) as [->|_].
  - exfalso. apply andb_false_iff in Hu as [Hu|Hu];
      apply N.leb_gt in Hu; lia.
  - symmetry. apply N.eqb_neq. intros ->.
    apply andb_false_iff in Hl as [Hl|Hl]; apply N.leb_gt in Hl; lia.
Qed.

Lemma any_member (ic : bool) (c : N) :
  class_mem ic false [CSpace; CNonSpace] c = true.
Proof.
  unfold class_mem. cbn [existsb item_mem xorb].
  now destruct (is_space c).
Qed.

Lemma forallb_any (ic : bool) (t : jsstring) :
  forallb (class_mem ic false [CSpace; CNonSpace]) t = true.
Proof.
  induction t as [|c t IH]; [reflexivity|].
  cbn [forallb]. now rewrite any_member, IH.
Qed.

Lemma free_of_app (c : N) (a b : jsstring) :
  free_of c (a ++ b) = free_of c a && free_of c b.
Proof. apply forallb_app. Qed.

Lemma starts_with_ic_app (ic : bool) (w s : jsstring) :
  starts_with_ic ic w (w ++ s) = true.
Proof.
  induction w as [|a w IH]; [reflexivity|].
  cbn [app starts_with_ic]. now rewrite N.eqb_refl, IH.
Qed.

Lemma skipn_length_app (w s : jsstring) : skipn (length w) (w ++ s) = s.
Proof. induction w; [reflexivity|exact IHw]. Qed.

Lemma matcher_seq_text_app (ic : bool) (w : jsstring) (r : regex)
      (s : jsstring) (caps : captures) :
  matcher ic (Seq (lit_units w) r) (w ++ s, caps) = matcher ic r (s, caps).
Proof.
  now rewrite matcher_seq_text, starts_with_ic_app, skipn_length_app.
Qed.

Lemma matcher_text_app (ic : bool) (w s : jsstring) (caps : captures) :
  matcher ic (lit_units w) (w ++ s, caps) = [(s, caps)].
Proof.
  now rewrite matcher_text, starts_with_ic_app, skipn_length_app.
Qed.

Lemma matcher_seq (ic : bool) (r1 r2 : regex) (x : mstate) :
  matcher ic (Seq r1 r2) x = flat_map (matcher ic r2) (matcher ic r1 x).
Proof. reflexivity. Qed.

Lemma matcher_grp (ic : bool) (i : nat) (r : regex) (x : mstate) :
  matcher ic (Grp i r) x
  = map (fun y => (fst y,
                   set_cap i (Some (firstn (length (fst x) - length (fst y))
                                           (fst x)))
                           (snd y)))
        (matcher ic r x).
Proof. reflexivity. Qed.

Lemma flat_map_of_map {A B C} (f : B -> list C) (g : A -> B) (l : list A) :
  flat_map f (map g l) = flat_map (fun y => f (g y)) l.
Proof. induction l; simpl; [reflexivity|]. now rewrite IHl. Qed.

(** A text that starts with a sign is not where a text starts with
    another character. *)
Lemma starts_with_ic_sign (ic : bool) (a : N) (w : jsstring) (c : N)
      (s : jsstring) :
  is_lower a = false -> is_upper a = false -> (a =? c)%N = false ->
  starts_with_ic ic (a :: w) (c :: s) = false.
Proof.
  intros Hl Hu Hc. cbn [starts_with_ic].
  now rewrite (canon_eq_sign ic a c Hl Hu), Hc.
Qed.

(** The first paragraph pattern at a paragraph of text [t]: the match
    is that paragraph and group 1 is [t], whatever comes after. *)
Lemma first_p_here (t rest : jsstring) :
  free_of 60 t = true ->
  match_here first_p_re (js "<p>" ++ t ++ js "</p>" ++ rest)
  = Some {| m_before := []; m_text := js "<p>" ++ t ++ js "</p>";
            m_caps := [None; Some t]; m_after := rest |}.
Proof.
  intros Ht.
  assert (exists l,
             matcher true (re_src first_p_re)
                     (js "<p>" ++ t ++ js "</p>" ++ rest, [])
             = (rest, [None; Some t]) :: l) as [l Hl].
  { unfold first_p_re, icase. cbn [re_src seqs]. unfold lit at 1.
    change (js "<p>" ++ t ++ js "</p>" ++ rest)
      with (js "<p" ++ (62 :: t ++ js "</p>" ++ rest))%N.
    rewrite matcher_seq_text_app, matcher_seq.
    unfold not_gt. rewrite class_star_cons.
    replace (class_mem true true [CChar (ch ">")] 62) with false
      by reflexivity.
    cbn [flat_map]. rewrite app_nil_r. unfold lit at 1.
    change (62 :: t ++ js "</p>" ++ rest)%N
      with (js ">" ++ (t ++ js "</p>" ++ rest)).
    rewrite matcher_seq_text_app, matcher_seq, matcher_grp.
    rewrite flat_map_of_map. unfold any.
    destruct (lazy_star_first true false [CSpace; CNonSpace]
                (fun y =>
                   matcher true (lit "</p>")
                     (fst y,
                      set_cap 1
                        (Some (firstn
                                 (length (fst (t ++ js "</p>" ++ rest,
                                               @nil (option jsstring)))
                                  - length (fst y))
                                 (fst (t ++ js "</p>" ++ rest,
                                       @nil (option jsstring)))))
                        (snd y)))
                t (js "</p>" ++ rest) [] (forallb_any _ _)) as [l Hl].
    - intros a b -> Hb. destruct b as [|c b]; [congruence|].
      unfold free_of in Ht. rewrite forallb_app in Ht.
      apply andb_true_iff in Ht as [_ Ht]. cbn [forallb] in Ht.
      apply andb_true_iff in Ht as [Hc _]. apply negb_true_iff in Hc.
      cbn [fst]. unfold lit. rewrite matcher_text.
      change (js "</p>") with (60 :: js "/p>")%N. cbn [app].
      rewrite starts_with_ic_sign; [reflexivity|reflexivity|reflexivity|].
      now rewrite N.eqb_sym.
    - exists l. etransitivity; [exact Hl|].
      cbn [fst snd]. rewrite firstn_prefix.
      unfold lit. now rewrite matcher_text_app. }
  rewrite (match_here_first first_p_re _ _ _ _ Hl). f_equal. f_equal.
  replace (js "<p>" ++ t ++ js "</p>" ++ rest)
    with ((js "<p>" ++ t ++ js "</p>") ++ rest)
    by now rewrite <- !app_assoc.
  apply firstn_prefix.
Qed.

Lemma split_cons (c : N) (s a b : jsstring) :
  c :: s = a ++ b ->
  (a = [] /\ b = c :: s) \/ exists a', a = c :: a' /\ s = a' ++ b.
Proof.
  destruct a as [|c' a']; cbn [app].
  - intros <-. now left.
  - intros [= <- ->]. right. now exists a'.
Qed.

(** The ways to cut a text that is given in full. *)
Ltac cut_cases H :=
  lazymatch type of H with
  | _ :: _ = _ ++ _ =>
      let a' := fresh "a" in
      apply split_cons in H as [[-> ->] | (a' & -> & H)];
      [ | cut_cases H ]
  | [] = _ ++ _ =>
      symmetry in H; apply app_eq_nil in H as [-> ->]
  end.

Ltac spell H :=
  lazymatch type of H with
  | ?x = _ => let l := eval vm_compute in x in change x with l in H
  end.

(** On a page that opens with a paragraph of text [t], the first match
    of the paragraph pattern is that paragraph. *)
Lemma first_p_match (t rest : jsstring) :
  free_of 60 t = true ->
  regexp_exec first_p_re (js "<html><body><p>" ++ t ++ js "</p>" ++ rest)
  = Some {| m_before := js "<html><body>";
            m_text := js "<p>" ++ t ++ js "</p>";
            m_caps := [None; Some t]; m_after := rest |}.
Proof.
  intros Ht.
  change (js "<html><body><p>" ++ t ++ js "</p>" ++ rest)
    with (js "<html><body>" ++ (js "<p>" ++ t ++ js "</p>" ++ rest)).
  rewrite (regexp_exec_skip_prefix first_p_re (js "<p")
             (seqs [Star true not_gt; lit ">"; Grp 1 (Star false any);
                    lit "</p>"])).
  - rewrite (regexp_exec_here first_p_re _ _ (first_p_here t rest Ht)).
    cbn [option_map m_before m_text m_caps m_after]. now rewrite app_nil_r.
  - reflexivity.
  - intros a b Hab Hb. spell Hab.
    cut_cases Hab; try reflexivity. congruence.
Qed.

Lemma class_step (ic neg : bool) (items : list class_item) (c : N)
      (s : jsstring) (caps : captures) :
  matcher ic (Cls neg items) (c :: s, caps)
  = if class_mem ic neg items c then [(s, caps)] else [].
Proof. reflexivity. Qed.

Lemma matcher_seq_class (ic neg : bool) (items : list class_item)
      (r : regex) (c : N) (s : jsstring) (caps : captures) :
  matcher ic (Seq (Cls neg items) r) (c :: s, caps)
  = if class_mem ic neg items c then matcher ic r (s, caps) else [].
Proof.
  rewrite matcher_seq, class_step.
  destruct (class_mem ic neg items c); [|reflexivity].
  cbn [flat_map]. apply app_nil_r.
Qed.

Lemma matcher_alt (ic : bool) (r1 r2 : regex) (x : mstate) :
  matcher ic (Alt r1 r2) x = matcher ic r1 x ++ matcher ic r2 x.
Proof. reflexivity. Qed.

Lemma starts_with_ic_split (ic : bool) (w1 w2 s : jsstring) :
  starts_with_ic ic (w1 ++ w2) s
  = starts_with_ic ic w1 s && starts_with_ic ic w2 (skipn (length w1) s).
Proof.
  revert s. induction w1 as [|a w1 IH]; intros s; [reflexivity|].
  destruct s as [|c s]; cbn [app starts_with_ic length skipn].
  - now destruct w2.
  - rewrite IH. now rewrite andb_assoc.
Qed.

(** A text that ends with the sign [e] is not at the start of
    [u ++ c :: rest] when [e] is not in [u] and [c] is not in the
    text. *)
Lemma text_blocked (ic : bool) (e c : N) (rest : jsstring)
      (w u : jsstring) :
  is_lower e = false -> is_upper e = false ->
  w <> [] -> last w e = e ->
  forallb (fun a => negb (canon ic a =? canon ic c)%N) w = true ->
  free_of e u = true ->
  starts_with_ic ic w (u ++ c :: rest) = false.
Proof.
  intros Hl Hu. revert w. induction u as [|d u IH]; intros w Hw He Hc Hf.
  - destruct w as [|a w]; [congruence|].
    cbn [forallb] in Hc. apply andb_true_iff in Hc as [Hc _].
    apply negb_true_iff in Hc. cbn [app starts_with_ic]. now rewrite Hc.
  - destruct w as [|a w]; [congruence|].
    cbn [app starts_with_ic].
    unfold free_of in Hf. cbn [forallb] in Hf.
    apply andb_true_iff in Hf as [Hd Hf]. apply negb_true_iff in Hd.
    destruct w as [|b w].
    + cbn [last] in He. subst a.
      rewrite (canon_eq_sign ic e d Hl Hu), N.eqb_sym, Hd. reflexivity.
    + rewrite IH; [apply andb_false_r|discriminate|exact He| |exact Hf].
      cbn [forallb] in Hc. apply andb_true_iff in Hc as [_ Hc]. exact Hc.
Qed.

(** A run of members of a class cut out of [x ++ c :: rest], where [c]
    is not a member, ends inside [x]. *)
Lemma split_run (member : N -> bool) (c : N) (rest x a b : jsstring) :
  x ++ c :: rest = a ++ b -> forallb member a = true -> member c = false ->
  exists u, x = a ++ u /\ b = u ++ c :: rest.
Proof.
  revert a. induction x as [|d x IH]; intros a H Ha Hc.
  - destruct a as [|a0 a]; [now exists []|].
    cbn [app] in H. injection H as <- _. cbn [forallb] in Ha.
    rewrite Hc in Ha. discriminate.
  - destruct a as [|a0 a].
    + cbn [app] in H. subst b. now exists (d :: x).
    + cbn [app] in H. injection H as <- H. cbn [forallb] in Ha.
      apply andb_true_iff in Ha as [_ Ha].
      destruct (IH a H Ha Hc) as (u & -> & ->). now exists u.
Qed.

Lemma free_of_suffix (e : N) (a u : jsstring) :
  free_of e (a ++ u) = true -> free_of e u = true.
Proof. rewrite free_of_app. intros H. now apply andb_true_iff in H. Qed.

(** [(?:name|property)=] fails where neither text is. *)
Lemma name_or_property_fails (r : regex) (b : jsstring) (caps : captures) :
  starts_with_ic true (js "name=") b = false ->
  starts_with_ic true (js "property=") b = false ->
  matcher true (Seq (Alt (lit "name") (lit "property"))
                    (Seq (lit "=") r)) (b, caps) = [].
Proof.
  intros Hn Hp.
  change (js "name=") with (js "name" ++ js "=") in Hn.
  change (js "property=") with (js "property" ++ js "=") in Hp.
  rewrite starts_with_ic_split in Hn, Hp.
  rewrite matcher_seq, matcher_alt, flat_map_app. unfold lit.
  rewrite !matcher_text.
  destruct (starts_with_ic true (js "name") b);
    destruct (starts_with_ic true (js "property") b);
    cbn [andb flat_map app] in *;
    rewrite ?matcher_seq_text, ?Hn, ?Hp; reflexivity.
Qed.

Lemma not_sign_member (ic : bool) (e c : N) :
  is_lower e = false -> is_upper e = false ->
  class_mem ic true [CChar e] c = negb (c =? e)%N.
Proof.
  intros Hl Hu. unfold class_mem. cbn [existsb item_mem].
  now rewrite orb_false_r, (canon_eq_sign ic e c Hl Hu), N.eqb_sym.
Qed.

Lemma not_signs_member (ic : bool) (e1 e2 c : N) :
  is_lower e1 = false -> is_upper e1 = false ->
  is_lower e2 = false -> is_upper e2 = false ->
  class_mem ic true [CChar e1; CChar e2] c
  = negb (c =? e1)%N && negb (c =? e2)%N.
Proof.
  intros Hl1 Hu1 Hl2 Hu2. unfold class_mem. cbn [existsb item_mem].
  rewrite orb_false_r, (canon_eq_sign ic e1 c Hl1 Hu1),
    (canon_eq_sign ic e2 c Hl2 Hu2), (N.eqb_sym e1), (N.eqb_sym e2).
  now destruct (c =? e1)%N, (c =? e2)%N.
Qed.

Lemma plain_not_gt (v : jsstring) :
  plain v = true -> forallb (class_mem true true [CChar (ch ">")]) v = true.
Proof.
  unfold plain. intros H. apply andb_true_iff in H as [H _].
  apply andb_true_iff in H as [_ H]. unfold free_of in H.
  induction v as [|c v IH]; [reflexivity|]. cbn [forallb] in *.
  apply andb_true_iff in H as [Hc H]. rewrite (IH H), andb_true_r.
  change (ch ">") with 62%N.
  rewrite (not_sign_member true 62 c); [exact Hc|reflexivity|reflexivity].
Qed.

Lemma plain_not_quote (v : jsstring) :
  plain v = true ->
  forallb (class_mem true true [CChar DQ; CChar SQ]) v = true.
Proof.
  unfold plain. intros H. apply andb_true_iff in H as [H _].
  apply andb_true_iff in H as [H _]. apply andb_true_iff in H as [H1 H2].
  unfold free_of in H1, H2.
  induction v as [|c v IH]; [reflexivity|]. cbn [forallb] in *.
  apply andb_true_iff in H1 as [Hc1 H1]. apply andb_true_iff in H2 as [Hc2 H2].
  rewrite (IH H1 H2), andb_true_r.
  rewrite (not_signs_member true DQ SQ c); try reflexivity.
  unfold DQ, SQ. now rewrite Hc1, Hc2.
Qed.

Lemma plain_no_eq (v : jsstring) : plain v = true -> free_of 61 v = true.
Proof. unfold plain. intros H. now apply andb_true_iff in H as [_ H]. Qed.

(** The end of the meta patterns, at the value [v] between quotes:
    group 1 is [v]. *)
Lemma meta_value_match (v rest : jsstring) (caps : captures) :
  plain v = true -> v <> [] ->
  exists l,
    matcher true
      (seqs [quote; Grp 1 (Plus true not_quote); quote; Star true not_gt;
             lit ">"])
      (DQ :: v ++ DQ :: 62 :: rest, caps)%N
    = (rest, set_cap 1 (Some v) caps) :: l.
Proof.
  intros Hv Hne. cbn [seqs]. unfold quote at 1.
  rewrite matcher_seq_class.
  replace (class_mem true false [CChar DQ; CChar SQ] DQ) with true
    by reflexivity.
  rewrite matcher_seq, matcher_grp, flat_map_of_map.
  destruct v as [|c v]; [congruence|].
  pose proof (plain_not_quote _ Hv) as Hq. cbn [forallb] in Hq.
  apply andb_true_iff in Hq as [Hc Hq].
  cbn [app]. unfold not_quote. rewrite class_plus_cons, Hc.
  match goal with
  | |- context [flat_map ?f _] =>
      destruct (greedy_star_first true true [CChar DQ; CChar SQ] f v
                  (DQ :: 62 :: rest)%N caps Hq) as [l Hl]
  end.
  - intros a b Hab Ha Hm. exfalso.
    destruct a as [|a0 a]; [congruence|].
    cbn [app] in Hab. injection Hab as <- _.
    cbn [forallb] in Hm. apply andb_true_iff in Hm as [Hm _].
    discriminate Hm.
  - exists l. etransitivity; [exact Hl|]. f_equal.
    cbn [fst snd].
    change (c :: v ++ DQ :: 62 :: rest)%N
      with ((c :: v) ++ DQ :: 62 :: rest)%N.
    rewrite firstn_prefix. unfold quote. rewrite matcher_seq_class.
    replace (class_mem true false [CChar DQ; CChar SQ] DQ) with true
      by reflexivity.
    rewrite matcher_seq. unfold not_gt. rewrite class_star_cons.
    replace (class_mem true true [CChar (ch ">")] 62) with false
      by reflexivity.
    cbn [flat_map]. rewrite app_nil_r. unfold lit.
    change (62 :: rest)%N with (js ">" ++ rest).
    now rewrite matcher_text_app.
Qed.

Ltac cut_known H :=
  lazymatch type of H with
  | _ :: _ = _ ++ _ =>
      let a' := fresh "a" in
      apply split_cons in H as [[-> ->] | (a' & -> & H)];
      [ | cut_known H ]
  | _ => idtac
  end.

Lemma free_of_value (v : jsstring) (a u : jsstring) :
  plain v = true -> v ++ [DQ] = a ++ u -> free_of 61 u = true.
Proof.
  intros Hv H. apply (free_of_suffix 61 a). rewrite <- H, free_of_app.
  now rewrite (plain_no_eq v Hv).
Qed.

(** Inside the value and up to the end of the tag, no text that ends
    with the sign [=] is found. *)
Lemma no_attribute_in_value (w v rest a b : jsstring) :
  plain v = true ->
  w <> [] -> last w 61%N = 61%N ->
  forallb (fun c => negb (canon true c =? canon true 62)%N) w = true ->
  v ++ DQ :: 62%N :: rest = a ++ b ->
  forallb (class_mem true true [CChar (ch ">")]) a = true ->
  starts_with_ic true w b = false.
Proof.
  intros Hv Hw Hl Hc Hab Ha.
  change (v ++ DQ :: 62 :: rest)%N with (v ++ [DQ] ++ 62 :: rest)%N in Hab.
  rewrite app_assoc in Hab.
  destruct (split_run _ _ _ _ _ _ Hab Ha eq_refl) as (u & Hu & ->).
  apply (text_blocked true 61 62 rest w u); try reflexivity; auto.
  now apply (free_of_value v a u).
Qed.

(** The second half of the first meta pattern, from the blank before
    [content=]. *)
Lemma meta_content_match (v rest : jsstring) (caps : captures) :
  plain v = true -> v <> [] ->
  exists l,
    matcher true
      (seqs [Star true not_gt; lit "content="; quote;
             Grp 1 (Plus true not_quote); quote; Star true not_gt; lit ">"])
      (js " " ++ html "content=`" ++ v ++ DQ :: 62 :: rest, caps)%N
    = (rest, set_cap 1 (Some v) caps) :: l.
Proof.
  intros Hv Hne. cbn [seqs]. rewrite matcher_seq. unfold not_gt.
  match goal with
  | |- context [flat_map ?f _] =>
      destruct (greedy_star_first true true [CChar (ch ">")] f (js " ")
                  (html "content=`" ++ v ++ DQ :: 62 :: rest)%N caps eq_refl)
        as [l Hl]
  end.
  - intros a b Hab Ha Hm. unfold lit. rewrite matcher_seq_text.
    replace (starts_with_ic true (js "content=") b) with false; [reflexivity|].
    symmetry.
    let l := eval vm_compute in (html "content=`") in
      change (html "content=`") with l in Hab.
    cbn [app] in Hab. cut_known Hab; try reflexivity; try congruence.
    cbn [forallb] in Hm. repeat (apply andb_true_iff in Hm as [_ Hm]).
    lazymatch type of Hab with
    | _ = ?a' ++ _ =>
        apply (no_attribute_in_value (js "content=") v rest a' b Hv);
          auto; try reflexivity; discriminate
    end.
  - destruct (meta_value_match v rest caps Hv Hne) as [l' Hl'].
    exists (l' ++ l). etransitivity; [exact Hl|].
    change (html "content=`" ++ v ++ DQ :: 62 :: rest)%N
      with (js "content=" ++ (DQ :: v ++ DQ :: 62 :: rest))%N.
    unfold lit at 1. rewrite matcher_seq_text_app.
    apply (f_equal (fun z => z ++ l)) in Hl'. exact Hl'.
Qed.

Lemma matcher_lit_ic (ic : bool) (w : string) (s : jsstring)
      (caps : captures) :
  matcher ic (lit w) (s, caps)
  = if starts_with_ic ic (js w) s
    then [(skipn (length (js w)) s, caps)] else [].
Proof. apply matcher_text. Qed.

Lemma matcher_lit_app (ic : bool) (w : string) (s : jsstring)
      (caps : captures) :
  matcher ic (lit w) (js w ++ s, caps) = [(s, caps)].
Proof. apply matcher_text_app. Qed.

Lemma matcher_seq_lit_app (ic : bool) (w : string) (r : regex)
      (s : jsstring) (caps : captures) :
  matcher ic (Seq (lit w) r) (js w ++ s, caps) = matcher ic r (s, caps).
Proof. apply matcher_seq_text_app. Qed.

(** The first og:title pattern at a tag whose content is the plain text
    [v]: the match is the tag and group 1 is [v]. *)
Lemma og_title_here (v rest : jsstring) :
  plain v = true -> v <> [] ->
  match_here (meta_regexA "og:title") (og_title_tag v ++ rest)
  = Some {| m_before := []; m_text := og_title_tag v;
            m_caps := [None; Some v]; m_after := rest |}.
Proof.
  intros Hv Hne.
  assert (exists l,
             matcher true (re_src (meta_regexA "og:title"))
                     (og_title_tag v ++ rest, [])
             = (rest, [None; Some v]) :: l) as [l Hl].
  { unfold meta_regexA, icase. cbn [re_src seqs]. unfold lit at 1.
    replace (og_title_tag v ++ rest)
      with (js "<meta"
            ++ (js " " ++ (html "property=`og:title` content=`"
                           ++ v ++ DQ :: 62 :: rest)))%N
      by (unfold og_title_tag; now rewrite <- !app_assoc).
    rewrite matcher_seq_text_app, matcher_seq. unfold not_gt at 1.
    match goal with
    | |- context [flat_map ?f _] =>
        destruct (greedy_star_first true true [CChar (ch ">")] f (js " ")
                    (html "property=`og:title` content=`"
                     ++ v ++ DQ :: 62 :: rest)%N [] eq_refl)
          as [l Hl]
    end.
    - intros a b Hab Ha Hm.
      let l := eval vm_compute in (html "property=`og:title` content=`") in
        change (html "property=`og:title` content=`") with l in Hab.
      cbn [app] in Hab.
      apply name_or_property_fails;
        cut_known Hab; try reflexivity; try congruence;
        cbn [forallb] in Hm; repeat (apply andb_true_iff in Hm as [_ Hm]);
        lazymatch type of Hab with
        | _ = ?a' ++ _ =>
            first
              [ apply (no_attribute_in_value (js "name=") v rest a' b Hv)
              | apply (no_attribute_in_value (js "property=") v rest a' b Hv) ];
              auto; try reflexivity; discriminate
        end.
    - destruct (meta_content_match v rest [] Hv Hne) as [l' Hl'].
      exists (l' ++ l). etransitivity; [exact Hl|].
      change (html "property=`og:title` content=`" ++ v ++ DQ :: 62 :: rest)%N
        with (js "property"
              ++ (js "="
                  ++ (DQ :: (js "og:title"
                             ++ (DQ :: (js " " ++ html "content=`" ++ v
                                        ++ DQ :: 62 :: rest))))))%N.
      rewrite matcher_seq, matcher_alt.
      rewrite (matcher_lit_ic true "name"), matcher_lit_app.
      replace (starts_with_ic true (js "name") _) with false by reflexivity.
      cbn [app flat_map]. rewrite app_nil_r.
      rewrite matcher_seq_lit_app.
      unfold quote at 1. rewrite matcher_seq_class.
      replace (class_mem true false [CChar DQ; CChar SQ] DQ) with true
        by reflexivity.
      rewrite matcher_seq_lit_app.
      unfold quote at 1. rewrite matcher_seq_class.
      replace (class_mem true false [CChar DQ; CChar SQ] DQ) with true
        by reflexivity.
      apply (f_equal (fun z => z ++ l)) in Hl'. exact Hl'. }
  rewrite (match_here_first (meta_regexA "og:title") _ _ _ _ Hl).
  now rewrite firstn_prefix.
Qed.

(** On a page whose head opens with that tag, the og:title candidate is
    the cleaned text of [v], whatever follows the tag. *)
Lemma extractMetaTag_og_title (v rest : jsstring) :
  plain v = true -> v <> [] ->
  extractMetaTag "og:title" (js "<html><head>" ++ og_title_tag v ++ rest)
  = cleanText v.
Proof.
  intros Hv Hne. unfold extractMetaTag.
  rewrite (regexp_exec_skip_prefix (meta_regexA "og:title") (js "<meta")
             (seqs [Star true not_gt; Alt (lit "name") (lit "property");
                    lit "="; quote; lit "og:title"; quote; Star true not_gt;
                    lit "content="; quote; Grp 1 (Plus true not_quote);
                    quote; Star true not_gt; lit ">"])).
  - rewrite (regexp_exec_here _ _ _ (og_title_here v rest Hv Hne)).
    reflexivity.
  - reflexivity.
  - intros a b Hab Hb. spell Hab.
    cut_cases Hab; try reflexivity. congruence.
Qed.

(* ================================================================== *)
(** * Captures *)
(* ================================================================== *)

Lemma get_set_cap_same (i : nat) (v : option jsstring) (caps : captures) :
  get_cap i (set_cap i v caps) = v.
Proof.
  unfold get_cap. revert caps. induction i as [|i IH]; intros [|h t];
    simpl; auto.
Qed.

Lemma nth_nil_none (i : nat) : nth i (@nil (option jsstring)) None = None.
Proof. now destruct i. Qed.

Lemma get_set_cap_other (i j : nat) (v : option jsstring) (caps : captures) :
  i <> j -> get_cap i (set_cap j v caps) = get_cap i caps.
Proof.
  unfold get_cap. revert i caps. induction j as [|j IH].
  - intros [|i] [|h t] Hij; cbn [set_cap nth]; try congruence;
      try reflexivity. now destruct i.
  - intros [|i] [|h t] Hij; cbn [set_cap nth]; try reflexivity.
    + rewrite IH by congruence. now destruct i.
    + apply IH. congruence.
Qed.

Lemma get_cap_clear (i : nat) (gs : list nat) (x : mstate) :
  ~ In i gs -> get_cap i (snd (clear_caps gs x)) = get_cap i (snd x).
Proof.
  unfold clear_caps. cbn [snd]. induction gs as [|g gs IH]; intros H.
  - reflexivity.
  - cbn [fold_right]. rewrite get_set_cap_other.
    + apply IH. intros Hin. apply H. now right.
    + intros ->. apply H. now left.
Qed.

(** A pattern leaves alone the captures of the groups that are not in
    it. *)
Lemma matcher_keeps_cap (ic : bool) (i : nat) (r : regex) (x y : mstate) :
  ~ In i (groups r) -> In y (matcher ic r x) ->
  get_cap i (snd y) = get_cap i (snd x).
Proof.
  revert x y. induction r; intros x y Hi H; cbn [groups] in Hi;
    cbn [matcher] in H.
  - destruct H as [<-|[]]. reflexivity.
  - destruct (fst x); [destruct H|].
    destruct (_ =? _)%N; [|destruct H]. destruct H as [<-|[]]. reflexivity.
  - destruct (fst x); [destruct H|].
    destruct (class_mem _ _ _ _); [|destruct H].
    destruct H as [<-|[]]. reflexivity.
  - apply in_flat_map in H as (z & Hz & Hy).
    rewrite (IHr2 z y), (IHr1 x z); auto; intros Hin; apply Hi;
      apply in_or_app; auto.
  - apply in_app_or in H as [H|H]; [apply IHr1|apply IHr2]; auto;
      intros Hin; apply Hi; apply in_or_app; auto.
  - remember (length (fst x)) as fuel eqn:Ef. clear Ef.
    revert x y H. induction fuel as [|f IHf]; intros x y H.
    + destruct H as [<-|[]]. reflexivity.
    + apply in_repeat_matcher in H as [-> |(z & Hz & _ & f' & [= <-] & Hy)];
        [reflexivity|].
      transitivity (get_cap i (snd z)); [exact (IHf z y Hy)|].
      transitivity (get_cap i (snd (clear_caps (groups r) x)));
        [exact (IHr _ _ Hi Hz)|now apply get_cap_clear].
  - apply in_flat_map in H as (z & Hz & Hy).
    transitivity (get_cap i (snd z)).
    + remember (length (fst z)) as fuel eqn:Ef. clear Ef Hz.
      revert z y Hy. induction fuel as [|f IHf]; intros z y H.
      * destruct H as [<-|[]]. reflexivity.
      * apply in_repeat_matcher in H
          as [-> |(z' & Hz' & _ & f' & [= <-] & Hy)]; [reflexivity|].
        transitivity (get_cap i (snd z')); [exact (IHf z' y Hy)|].
        transitivity (get_cap i (snd (clear_caps (groups r) z)));
          [exact (IHr _ _ Hi Hz')|now apply get_cap_clear].
    + transitivity (get_cap i (snd (clear_caps (groups r) x)));
        [exact (IHr _ _ Hi Hz)|now apply get_cap_clear].
  - assert (In y (filter (advances x)
                         (matcher ic r (clear_caps (groups r) x))) \/ y = x)
      as [Hin| ->]; [|apply filter_In in Hin as [Hin _]|reflexivity].
    { destruct greedy.
      - apply in_app_or in H as [H|[<-|[]]]; auto.
      - destruct H as [<-|H]; auto. }
    transitivity (get_cap i (snd (clear_caps (groups r) x)));
      [exact (IHr _ _ Hi Hin)|now apply get_cap_clear].
  - apply in_map_iff in H as (z & <- & Hz). cbn [snd].
    rewrite get_set_cap_other.
    + apply IHr; [intros Hin; apply Hi; now right|exact Hz].
    + intros ->. apply Hi. now left.
  - destruct (get_cap i0 (snd x)).
    + destruct (starts_with_ic _ _ _); [|destruct H].
      destruct H as [<-|[]]. reflexivity.
    + destruct H as [<-|[]]. reflexivity.
  - destruct (fst x); [|destruct H]. destruct H as [<-|[]]. reflexivity.
Qed.

Lemma in_matcher_seq (ic : bool) (r1 r2 : regex) (x y : mstate) :
  In y (matcher ic (Seq r1 r2) x) ->
  exists z, In z (matcher ic r1 x) /\ In y (matcher ic r2 z).
Proof. intros H. now apply in_flat_map in H. Qed.

(** The text a group of plain words captures is no longer than the
    longest of them. *)
Lemma words_group_length (ic : bool) (i : nat) (ws : list string) (n : nat)
      (x y : mstate) :
  Forall (fun w => length (js w) <= n) ws ->
  In y (matcher ic (Grp i (alts (map lit ws))) x) ->
  exists k, get_cap i (snd y) = Some k /\ length k <= n.
Proof.
  intros Hn H. rewrite matcher_grp in H.
  apply in_map_iff in H as (z & <- & Hz). cbn [fst snd].
  rewrite get_set_cap_same. eexists. split; [reflexivity|].
  rewrite length_firstn.
  apply Nat.le_trans with (length (fst x) - length (fst z));
    [apply Nat.le_min_l|].
  clear i. revert Hz. induction Hn as [|w ws Hw Hws IH]; intros Hz.
  - destruct Hz as [<-|[]]. rewrite Nat.sub_diag. apply Nat.le_0_l.
  - cbn [map alts] in Hz. destruct (map lit ws) as [|r rs] eqn:E.
    + destruct x as [s caps]. rewrite matcher_lit_ic in Hz.
      destruct (starts_with_ic ic (js w) s) eqn:Es; [|destruct Hz].
      destruct Hz as [<-|[]]. cbn [fst].
      rewrite length_skipn. lia.
    + rewrite matcher_alt in Hz. apply in_app_or in Hz as [Hz|Hz].
      * destruct x as [s caps]. rewrite matcher_lit_ic in Hz.
        destruct (starts_with_ic ic (js w) s) eqn:Es; [|destruct Hz].
        destruct Hz as [<-|[]]. cbn [fst].
        rewrite length_skipn. lia.
      * apply IH. exact Hz.
Qed.

(** The captures of a match come from the matcher, run at the place of
    the match. *)
Lemma regexp_exec_from_matcher (re : RegExp) (s : jsstring)
      (m : match_result) :
  regexp_exec re s = Some m ->
  exists s', In (m_after m, m_caps m)
                (matcher (re_ic re) (re_src re) (s', [])).
Proof.
  assert (forall s m, match_here re s = Some m ->
                      In (m_after m, m_caps m)
                         (matcher (re_ic re) (re_src re) (s, []))) as Hhere.
  { intros s0 m0. unfold match_here.
    destruct (matcher (re_ic re) (re_src re) (s0, [])) as [|[s' caps] l];
      [discriminate|].
    intros [= <-]. now left. }
  revert m. induction s as [|c s IH]; intros m; cbn [regexp_exec].
  - destruct (match_here re []) as [m'|] eqn:E; [|discriminate].
    intros [= <-]. exists []. now apply Hhere.
  - destruct (match_here re (c :: s)) as [m'|] eqn:E.
    + intros [= <-]. exists (c :: s). now apply Hhere.
    + destruct (regexp_exec re s) as [m'|]; [|discriminate].
      intros [= <-]. cbn [m_after m_caps]. exact (IH m' eq_refl).
Qed.

(** Going through a sequence up to its first group. *)
Ltac to_first_group H :=
  lazymatch type of H with
  | In _ (matcher _ (Seq (Grp _ _) _) _) => idtac
  | In _ (matcher _ (Seq _ _) _) =>
      let z := fresh "z" in
      apply in_matcher_seq in H as (z & _ & H); to_first_group H
  end.

(** Group 1 of the two patterns for a class is the word of the class
    that was found, not the inner HTML: it has at most 21 and 7
    characters. *)
Lemma class_patterns_group_1 (s : jsstring) (m : match_result) :
  (regexp_exec post_class_re s = Some m ->
   exists k, group 1 m = Some k /\ length k <= 21)
  /\ (regexp_exec div_class_re s = Some m ->
      exists k, group 1 m = Some k /\ length k <= 7).
Proof.
  split; intros H; apply regexp_exec_from_matcher in H as [s' H];
    unfold post_class_re, div_class_re, icase in H;
    cbn [re_ic re_src seqs] in H; to_first_group H.
  - apply in_matcher_seq in H as (z' & Hg & H).
    apply (words_group_length true 1
             ["wp-block-post-content"; "entry-content"; "post-content";
              "article-content"]%string 21) in Hg as (k & Hk & Hlen).
    + exists k. split; [|exact Hlen]. unfold group. cbn [m_caps].
      rewrite <- Hk.
      apply (matcher_keeps_cap true 1 _ _ _) in H; [exact H|].
      vm_compute. intros [H1|[]]. discriminate.
    + repeat constructor; vm_compute; lia.
  - apply in_matcher_seq in H as (z' & Hg & H).
    apply (words_group_length true 1
             ["content"; "post"; "article"]%string 7) in Hg
      as (k & Hk & Hlen).
    + exists k. split; [|exact Hlen]. unfold group. cbn [m_caps].
      rewrite <- Hk.
      apply (matcher_keeps_cap true 1 _ _ _) in H; [exact H|].
      vm_compute. intros [H1|[]]. discriminate.
    + repeat constructor; vm_compute; lia.
Qed.

(* ================================================================== *)
(** * The extractors *)
(* ================================================================== *)

(** The claim C6 as it is worded fails: with an og:title of [Q&amp;A]
    and an h1 of [Weekly notes] the title is [Q A], the cleaned text,
    not the value of the tag; and an og:title that cleans to nothing
    leaves the title to the h1. *)
Lemma og_title_is_cleaned :
  extractTitle doc_og_entity = js "Q A"
  /\ extractTitle doc_og_entity <> js "Q&amp;A"
  /\ extractTitle doc_og_entity <> js "Q&A"
  /\ extractTitle doc_og_blank = js "Weekly notes".
Proof.
  assert (extractTitle doc_og_entity = js "Q A") as H
      by (vm_compute; reflexivity).
  split; [exact H|]. rewrite H.
  split; [vm_compute; discriminate|].
  split; [vm_compute; discriminate|].
  vm_compute. reflexivity.
Qed.

(** C6, amended: the title is the first candidate that is not empty
    among the cleaned og:title, the cleaned twitter:title, the cleaned
    first h1 and the cleaned title tag without its site name; so when
    the cleaned og:title is not empty it is the title, whatever the h1
    is.  On every page whose head opens with an og:title tag of plain
    content [v], the title is the cleaned text of [v] when that is not
    empty, whatever follows the tag. *)
Theorem extractTitle_priority :
  (forall doc,
      extractTitle doc
      = first_nonempty [extractMetaTag "og:title" doc;
                        extractMetaTag "twitter:title" doc;
                        h1_candidate doc; title_tag_candidate doc])
  /\ (forall doc,
         extractMetaTag "og:title" doc <> [] ->
         extractTitle doc = extractMetaTag "og:title" doc)
  /\ (forall v rest,
         plain v = true -> cleanText v <> [] ->
         extractTitle (js "<html><head>" ++ og_title_tag v ++ rest)
         = cleanText v).
Proof.
  assert (forall doc,
             extractMetaTag "og:title" doc <> [] ->
             extractTitle doc = extractMetaTag "og:title" doc) as Hog.
  { intros doc H. unfold extractTitle. apply truthy_true in H.
    now rewrite H. }
  split; [|split; [exact Hog|]].
  - intros doc. unfold extractTitle, first_nonempty.
    destruct (truthy (extractMetaTag "og:title" doc)); [reflexivity|].
    destruct (truthy (extractMetaTag "twitter:title" doc)); [reflexivity|].
    destruct (truthy (h1_candidate doc)); reflexivity.
  - intros v rest Hv Hc.
    assert (v <> []) as Hne by (intros ->; now apply Hc).
    rewrite Hog; rewrite (extractMetaTag_og_title v rest Hv Hne);
      [reflexivity|exact Hc].
Qed.

Lemma extractTitle_priority_witness :
  extractTitle doc_og_plain = js "Smash burgers"
  /\ h1_candidate doc_og_plain = js "Weekly notes".
Proof.
  split; [|vm_compute; reflexivity].
  change doc_og_plain
    with (js "<html><head>" ++ og_title_tag (js "Smash burgers")
          ++ js "</head><body><h1>Weekly notes</h1></body></html>").
  change (js "Smash burgers") with (cleanText (js "Smash burgers")) at 2.
  apply (proj2 (proj2 extractTitle_priority)).
  - vm_compute. reflexivity.
  - vm_compute. discriminate.
Defined.

(** C7 on the code: the loop over the container patterns compares
    group 1 of each match, which for the two patterns on a class is the
    word of the class (at most 21 and 7 characters) and not the inner
    HTML, which is group 2.  So in [doc_two_containers], where the
    article pattern and the pattern for a div of class [content] both
    match and the div is the longer one, the container is the article
    and the extracted content is the paragraph of the article; and in
    [doc_div_only] the container is the word [content] and the content
    is empty. *)
Theorem container_is_not_the_longest :
  (forall s g, group_if_any 1 (regexp_exec post_class_re s) = Some g ->
               length g <= 21)
  /\ (forall s g, group_if_any 1 (regexp_exec div_class_re s) = Some g ->
                  length g <= 7)
  /\ content_container doc_two_containers
     = js "<p>A short note of a little more than forty characters.</p>"
  /\ container_by_spec doc_two_containers
     = js "<p>The first long paragraph of the real story, well over forty characters.</p><p>The second long paragraph of the real story, also well over forty characters.</p>"
  /\ extractMainContent doc_two_containers
     = js "A short note of a little more than forty characters."
  /\ content_container doc_div_only = js "content"
  /\ extractMainContent doc_div_only = [].
Proof.
  split; [|split; [|repeat split; vm_compute; reflexivity]].
  - intros s g. unfold group_if_any.
    destruct (regexp_exec post_class_re s) as [m|] eqn:E; [|discriminate].
    destruct (proj1 (class_patterns_group_1 s m) E) as (k & -> & Hk).
    destruct k; [discriminate|]. now intros [= <-].
  - intros s g. unfold group_if_any.
    destruct (regexp_exec div_class_re s) as [m|] eqn:E; [|discriminate].
    destruct (proj2 (class_patterns_group_1 s m) E) as (k & -> & Hk).
    destruct k; [discriminate|]. now intros [= <-].
Qed.

Lemma container_is_not_the_longest_witness :
  length (js "content") <= 7.
Proof.
  apply (proj1 (proj2 container_is_not_the_longest) doc_div_only).
  vm_compute. reflexivity.
Defined.

(** The claim C8 as it is worded fails: [doc_short_first_p] has no
    description in a meta tag and no summary element, its first
    paragraph is too short and its second one is of summary length, and
    the summary is empty. *)
Lemma summary_ignores_later_paragraphs :
  meta_summary doc_short_first_p = []
  /\ test summary_element_re doc_short_first_p = false
  /\ first_qualifying_paragraph doc_short_first_p
     = js "This second paragraph is long enough to serve as a summary of the page."
  /\ extractSummary doc_short_first_p = []
  /\ extractSummary doc_short_first_p
     <> first_qualifying_paragraph doc_short_first_p.
Proof.
  repeat split; try (vm_compute; reflexivity).
  vm_compute. discriminate.
Qed.

(* ================================================================== *)
(** * Whitespace in cleaned text *)
(* ================================================================== *)

Lemma regexp_exec_spaces_cons (c : N) (s : jsstring) :
  regexp_exec spaces_re (c :: s)
  = if is_space c
    then Some {| m_before := [];
                 m_text := firstn (length (c :: s) - length (trimStart s))
                                  (c :: s);
                 m_caps := []; m_after := trimStart s |}
    else option_map (shift c) (regexp_exec spaces_re s).
Proof.
  pose proof (match_here_spaces (c :: s)) as H. cbv beta iota in H.
  destruct (is_space c).
  - now apply regexp_exec_here.
  - now apply regexp_exec_skip.
Qed.

Lemma replace_spaces_cons (c : N) (s : jsstring) :
  replace_all spaces_re (js " ") (c :: s)
  = if is_space c
    then 32%N :: replace_all spaces_re (js " ") (trimStart s)
    else c :: replace_all spaces_re (js " ") s.
Proof.
  rewrite replace_all_unfold, regexp_exec_spaces_cons.
  destruct (is_space c).
  - cbn [m_text m_after m_before length].
    pose proof (trimStart_length s).
    rewrite Nat.sub_succ_l by assumption. reflexivity.
  - rewrite (replace_all_unfold spaces_re (js " ") s).
    destruct (regexp_exec spaces_re s) as [m|] eqn:E; [|reflexivity].
    pose proof (regexp_exec_nonempty spaces_re s m eq_refl E) as Hn.
    cbn [option_map shift m_text m_after m_before].
    destruct (m_text m); [contradiction|]. reflexivity.
Qed.

Lemma collapse_true_trimStart (s : jsstring) :
  collapse_from true s = collapse_from false (trimStart s).
Proof.
  induction s as [|c s IH]; [reflexivity|].
  cbn [collapse_from trimStart].
  destruct (is_space c) eqn:E; [exact IH|].
  cbn [collapse_from]. now rewrite E.
Qed.

(** [replace(/\s+/g, ' ')] turns each run of whitespace into one space. *)
Lemma replace_spaces_collapse (s : jsstring) :
  replace_all spaces_re (js " ") s = collapse_from false s.
Proof.
  remember (length s) as n eqn:Hn.
  assert (Hle : length s <= n) by lia. clear Hn. revert s Hle.
  induction n as [|n IH]; intros s Hle.
  - destruct s; [reflexivity|simpl in Hle; lia].
  - destruct s as [|c s]; [reflexivity|].
    rewrite replace_spaces_cons. cbn [collapse_from].
    simpl in Hle.
    destruct (is_space c).
    + rewrite collapse_true_trimStart. f_equal. apply IH.
      pose proof (trimStart_length s). lia.
    + f_equal. apply IH. lia.
Qed.

Lemma join_cons (sep p : jsstring) (ps : list jsstring) :
  ps <> [] -> join sep (p :: ps) = p ++ sep ++ join sep ps.
Proof. destruct ps; [contradiction|reflexivity]. Qed.

Lemma tokens_from_nonempty (cur s : jsstring) :
  cur <> [] -> tokens_from cur s <> [].
Proof.
  revert cur. induction s as [|c s IH]; intros cur H; simpl.
  - destruct cur; [contradiction|discriminate].
  - destruct (is_space c).
    + destruct cur; [contradiction|discriminate].
    + apply IH. discriminate.
Qed.

Lemma tokens_nil_spaces (s : jsstring) :
  tokens_from [] s = [] -> forallb is_space s = true.
Proof.
  induction s as [|c s IH]; [reflexivity|]. simpl.
  destruct (is_space c); [exact IH|].
  intros H. now apply tokens_from_nonempty in H.
Qed.

Lemma ends_space_cons (c : N) (s : jsstring) :
  s <> [] -> ends_space (c :: s) = ends_space s.
Proof. destruct s; [contradiction|reflexivity]. Qed.

Lemma ends_space_all (s : jsstring) :
  s <> [] -> forallb is_space s = true -> ends_space s = true.
Proof.
  induction s as [|c s IH]; [contradiction|]. intros _ H.
  simpl in H. apply andb_true_iff in H as [Hc Hs].
  destruct s as [|d s]; [exact Hc|].
  rewrite ends_space_cons by discriminate. apply IH; [discriminate|exact Hs].
Qed.

Lemma trailing_cons (c : N) (s : jsstring) :
  s <> [] \/ is_space c = false -> trailing (c :: s) = trailing s.
Proof.
  unfold trailing. destruct s as [|d s].
  - intros [H|H]; [contradiction|]. simpl. now rewrite H.
  - intros _. now rewrite ends_space_cons by discriminate.
Qed.

(** The collapsed text is the tokens joined by single spaces, and one
    more space when the text ends in whitespace. *)
Lemma collapse_tokens (s : jsstring) :
  collapse_from true s
  = match tokens_from [] s with
    | [] => []
    | ts => join (js " ") ts ++ trailing s
    end
  /\ forall cur, cur <> [] ->
       rev cur ++ collapse_from false s
       = join (js " ") (tokens_from cur s) ++ trailing s.
Proof.
  induction s as [|c s [T F]].
  - split; [reflexivity|]. intros cur H.
    destruct cur as [|a cur]; [contradiction|].
    cbn [tokens_from collapse_from join trailing ends_space].
    reflexivity.
  - destruct (is_space c) eqn:Hc.
    + split.
      * cbn [collapse_from tokens_from]. rewrite Hc, T.
        destruct (tokens_from [] s) as [|t ts] eqn:E; [reflexivity|].
        rewrite trailing_cons; [reflexivity|].
        left. intros Hs. subst s. discriminate E.
      * intros cur Hcur. destruct cur as [|a cur]; [contradiction|].
        cbn [collapse_from tokens_from]. rewrite Hc, T.
        destruct (tokens_from [] s) as [|t ts] eqn:E.
        -- cbn [join]. f_equal. unfold trailing.
           rewrite ends_space_all; [reflexivity|discriminate|].
           simpl. rewrite Hc. now apply tokens_nil_spaces.
        -- rewrite trailing_cons
             by (left; intros Hs; subst s; discriminate E).
           change (rev (a :: cur) ++ 32%N :: join (js " ") (t :: ts)
                     ++ trailing s
                   = (rev (a :: cur) ++ js " " ++ join (js " ") (t :: ts))
                       ++ trailing s).
           rewrite <- !app_assoc. reflexivity.
    + assert (Ht : trailing (c :: s) = trailing s)
        by (apply trailing_cons; now right).
      split.
      * cbn [collapse_from tokens_from]. rewrite Hc, Ht.
        specialize (F [c] ltac:(discriminate)).
        destruct (tokens_from [c] s) as [|t ts] eqn:E.
        -- now apply tokens_from_nonempty in E.
        -- exact F.
      * intros cur Hcur.
        cbn [collapse_from tokens_from]. rewrite Hc, Ht.
        rewrite <- (F (c :: cur)) by discriminate.
        cbn [rev]. now rewrite <- app_assoc.
Qed.

Lemma collapse_true_head (s : jsstring) :
  trimStart (collapse_from true s) = collapse_from true s.
Proof.
  induction s as [|c s IH]; [reflexivity|].
  cbn [collapse_from]. destruct (is_space c) eqn:E; [exact IH|].
  cbn [trimStart]. now rewrite E.
Qed.

Lemma trimStart_collapse (s : jsstring) :
  trimStart (collapse_from false s) = collapse_from true s.
Proof.
  destruct s as [|c s]; [reflexivity|].
  cbn [collapse_from]. destruct (is_space c) eqn:E.
  - cbn [trimStart]. change (is_space 32) with true. cbv iota.
    apply collapse_true_head.
  - cbn [trimStart]. now rewrite E.
Qed.

Lemma forallb_reversed {A} (f : A -> bool) (l : list A) :
  forallb f (rev l) = forallb f l.
Proof.
  induction l as [|a l IH]; [reflexivity|]. simpl.
  rewrite forallb_app, IH. simpl. rewrite andb_true_r. apply andb_comm.
Qed.

Lemma word_cons_tokens (cur s : jsstring) :
  forallb (fun c => negb (is_space c)) cur = true ->
  Forall (fun t => word t = true) (tokens_from cur s).
Proof.
  revert cur. induction s as [|c s IH]; intros cur Hcur.
  - simpl. destruct cur as [|a cur]; constructor; [|constructor].
    unfold word. rewrite truthy_rev. cbn [truthy andb].
    rewrite forallb_reversed. exact Hcur.
  - simpl. destruct (is_space c) eqn:E.
    + destruct cur as [|a cur]; [now apply IH|].
      constructor; [|now apply IH].
      unfold word. rewrite truthy_rev. cbn [truthy andb].
      rewrite forallb_reversed. exact Hcur.
    + apply IH. simpl. now rewrite E.
Qed.

Lemma tokens_words (s : jsstring) :
  Forall (fun t => word t = true) (tokens s).
Proof. now apply word_cons_tokens. Qed.

(** The joined words end in a code unit that is not whitespace. *)
Lemma join_words_last (ts : list jsstring) :
  ts <> [] -> Forall (fun t => word t = true) ts ->
  exists y c, join (js " ") ts = y ++ [c] /\ is_space c = false.
Proof.
  induction ts as [|t ts IH]; [contradiction|]. intros _ H.
  inversion H as [|? ? Ht Hts]; subst.
  destruct ts as [|t' ts].
  - cbn [join]. unfold word in Ht. apply andb_true_iff in Ht as [Hn Hf].
    destruct (exists_last (proj1 (truthy_true t) Hn)) as (y & c & ->).
    exists y, c. split; [reflexivity|].
    rewrite forallb_app in Hf. apply andb_true_iff in Hf as [_ Hf].
    simpl in Hf. now destruct (is_space c).
  - destruct (IH ltac:(discriminate) Hts) as (y & c & E & Hc).
    rewrite join_cons by easy. rewrite E.
    exists (t ++ js " " ++ y), c. split; [|exact Hc].
    now rewrite <- !app_assoc.
Qed.

Lemma trimEnd_words (ts : list jsstring) (tail : jsstring) :
  Forall (fun t => word t = true) ts -> ts <> [] ->
  tail = [] \/ tail = [32%N] ->
  rev (trimStart (rev (join (js " ") ts ++ tail))) = join (js " ") ts.
Proof.
  intros Hw Hn Ht.
  destruct (join_words_last ts Hn Hw) as (y & c & E & Hc).
  assert (H : trimStart (rev (join (js " ") ts ++ tail))
              = rev (join (js " ") ts)).
  { rewrite E. destruct Ht as [-> | ->].
    - rewrite app_nil_r, rev_app_distr. cbn [rev app trimStart].
      now rewrite Hc.
    - rewrite rev_app_distr. cbn [rev app trimStart].
      change (is_space 32) with true. cbv iota.
      rewrite rev_app_distr. cbn [rev app trimStart]. now rewrite Hc. }
  rewrite H. apply rev_involutive.
Qed.

(** [replace(/\s+/g, ' ').trim()] leaves the tokens joined by single
    spaces. *)
Lemma trim_collapse (s : jsstring) :
  trim (replace_all spaces_re (js " ") s) = join (js " ") (tokens s).
Proof.
  rewrite replace_spaces_collapse. unfold trim.
  rewrite trimStart_collapse.
  rewrite (proj1 (collapse_tokens s)). unfold tokens.
  pose proof (tokens_words s) as Hw. unfold tokens in Hw.
  destruct (tokens_from [] s) as [|t ts] eqn:E; [reflexivity|].
  apply trimEnd_words; [exact Hw|discriminate|].
  unfold trailing. destruct (ends_space s); auto.
Qed.

Lemma tokens_from_word (t cur s : jsstring) :
  forallb (fun c => negb (is_space c)) t = true ->
  tokens_from cur (t ++ s) = tokens_from (rev t ++ cur) s.
Proof.
  revert cur. induction t as [|a t IH]; intros cur H; [reflexivity|].
  simpl in H. apply andb_true_iff in H as [Ha Ht].
  cbn [app tokens_from]. destruct (is_space a); [discriminate|].
  rewrite IH by exact Ht. cbn [rev]. now rewrite <- app_assoc.
Qed.

(** Words joined by single spaces are read back as the same words. *)
Lemma tokens_join (ts : list jsstring) :
  Forall (fun t => word t = true) ts -> tokens (join (js " ") ts) = ts.
Proof.
  unfold tokens. induction ts as [|t ts IH]; [reflexivity|]. intros H.
  inversion H as [|? ? Ht Hts]; subst.
  unfold word in Ht. apply andb_true_iff in Ht as [Hn Hf].
  destruct ts as [|t' ts].
  - cbn [join]. rewrite <- (app_nil_r t), tokens_from_word by exact Hf.
    rewrite app_nil_r. cbn [tokens_from].
    destruct (rev t) eqn:E.
    + rewrite <- truthy_rev, E in Hn. discriminate.
    + now rewrite <- E, rev_involutive, app_nil_r.
  - rewrite join_cons by easy.
    rewrite tokens_from_word by exact Hf. rewrite app_nil_r.
    change (js " " ++ join (js " ") (t' :: ts))
      with (32%N :: join (js " ") (t' :: ts)).
    cbn [tokens_from]. change (is_space 32) with true. cbv iota.
    destruct (rev t) eqn:E.
    + rewrite <- truthy_rev, E in Hn. discriminate.
    + rewrite <- E, rev_involutive. f_equal. now apply IH.
Qed.

Lemma in_join (sep : jsstring) (ts : list jsstring) (c : N) :
  In c (join sep ts) -> In c sep \/ exists t, In t ts /\ In c t.
Proof.
  induction ts as [|t ts IH]; [intros []|].
  destruct ts as [|t' ts].
  - cbn [join]. intros H. right. exists t. split; [now left|exact H].
  - rewrite join_cons by easy. intros H.
    apply in_app_or in H as [H|H].
    + right. exists t. split; [now left|exact H].
    + apply in_app_or in H as [H|H]; [now left|].
      destruct (IH H) as [H'|(u & Hu & Hc)]; [now left|].
      right. exists u. split; [now right|exact Hc].
Qed.

Lemma cleanText_tokens (text : jsstring) :
  cleanText text = join (js " ") (tokens (strip_markup text)).
Proof.
  unfold cleanText. destruct text as [|a text]; [now vm_compute|].
  cbn [truthy negb]. apply trim_collapse.
Qed.

Lemma join_words_head (ts : list jsstring) :
  ts <> [] -> Forall (fun t => word t = true) ts ->
  exists c y, join (js " ") ts = c :: y /\ is_space c = false.
Proof.
  destruct ts as [|t ts]; [contradiction|]. intros _ H.
  inversion H as [|? ? Ht Hts]; subst.
  unfold word in Ht. apply andb_true_iff in Ht as [Hn Hf].
  destruct t as [|c t]; [discriminate|].
  simpl in Hf. apply andb_true_iff in Hf as [Hc _].
  exists c. destruct ts as [|t' ts].
  - exists t. split; [reflexivity|]. now destruct (is_space c).
  - exists (t ++ js " " ++ join (js " ") (t' :: ts)).
    split; [reflexivity|]. now destruct (is_space c).
Qed.

Lemma trim_words (ts : list jsstring) :
  Forall (fun t => word t = true) ts ->
  trim (join (js " ") ts) = join (js " ") ts.
Proof.
  intros Hw. destruct ts as [|t ts]; [reflexivity|].
  destruct (join_words_head (t :: ts) ltac:(discriminate) Hw)
    as (c & y & E & Hc).
  unfold trim.
  assert (H : trimStart (join (js " ") (t :: ts)) = join (js " ") (t :: ts)).
  { rewrite E. cbn [trimStart]. now rewrite Hc. }
  rewrite H. rewrite <- (app_nil_r (join (js " ") (t :: ts))) at 1.
  apply trimEnd_words; [exact Hw|discriminate|now left].
Qed.

(** X1: what [cleanText] returns is the whitespace-separated tokens of
    the text, once tags and entities are replaced, joined by single
    spaces.  So the result is its own tokens joined by single spaces,
    trimming it again changes nothing, and the only whitespace in it is
    the plain space. *)
Theorem cleanText_normal_form (text : jsstring) :
  cleanText text = join (js " ") (tokens (strip_markup text))
  /\ join (js " ") (tokens (cleanText text)) = cleanText text
  /\ trim (cleanText text) = cleanText text
  /\ forall c, In c (cleanText text) -> is_space c = true -> c = 32%N.
Proof.
  pose proof (tokens_words (strip_markup text)) as Hw.
  split; [apply cleanText_tokens|]. rewrite (cleanText_tokens text).
  split; [|split].
  - now rewrite tokens_join.
  - now apply trim_words.
  - intros c Hin Hc.
    apply in_join in Hin as [Hin|(t & Ht & Hin)].
    + destruct Hin as [<-|[]]. reflexivity.
    + rewrite Forall_forall in Hw. specialize (Hw t Ht).
      unfold word in Hw. apply andb_true_iff in Hw as [_ Hf].
      rewrite forallb_forall in Hf. specialize (Hf c Hin).
      rewrite Hc in Hf. discriminate.
Qed.

(* ================================================================== *)
(** * What a match is made of *)
(* ================================================================== *)

Section RepeatAccepts.
Variable step : mstate -> list mstate.
Variable gs : list nat.
Variable greedy : bool.
Variable P : N -> bool.

Hypothesis step_accepts :
  forall x y, In y (step x) ->
              exists w, fst x = w ++ fst y /\ forallb P w = true.

Lemma repeat_matcher_accepts (fuel : nat) (x y : mstate) :
  In y (repeat_matcher step gs greedy fuel x) ->
  exists w, fst x = w ++ fst y /\ forallb P w = true.
Proof.
  revert x. induction fuel as [|f IH]; intros x H.
  - destruct H as [<-|[]]. now exists [].
  - apply in_repeat_matcher in H as [-> |(z & Hz & _ & f' & [= <-] & Hy)].
    + now exists [].
    + apply step_accepts in Hz as (w1 & E1 & H1).
      apply IH in Hy as (w2 & E2 & H2).
      exists (w1 ++ w2). split.
      * change (fst (clear_caps gs x)) with (fst x) in E1.
        now rewrite E1, E2, app_assoc.
      * now rewrite forallb_app, H1, H2.
Qed.
End RepeatAccepts.

Lemma forallb_weaken {A} (P Q : A -> bool) (l : list A) :
  (forall a, P a = true -> Q a = true) ->
  forallb P l = true -> forallb Q l = true.
Proof.
  intros H. induction l as [|a l IH]; [reflexivity|]. simpl.
  intros E. apply andb_true_iff in E as [Ea El].
  now rewrite (H a Ea), IH.
Qed.

(** Every code unit a match reads is accepted by the pattern. *)
Lemma matcher_accepts (ic : bool) (r : regex) (x y : mstate) :
  In y (matcher ic r x) ->
  exists w, fst x = w ++ fst y /\ forallb (accepts ic r) w = true.
Proof.
  revert x y. induction r; intros x y H; simpl in H.
  - destruct H as [<-|[]]. now exists [].
  - destruct x as [[|a s] caps]; simpl in H; [destruct H|].
    destruct (canon ic a =? canon ic c)%N eqn:E; [|destruct H].
    destruct H as [<-|[]]. exists [a]. split; [reflexivity|].
    simpl. now rewrite E.
  - destruct x as [[|a s] caps]; simpl in H; [destruct H|].
    destruct (class_mem ic negated items a) eqn:E; [|destruct H].
    destruct H as [<-|[]]. exists [a]. split; [reflexivity|].
    simpl. now rewrite E.
  - apply in_flat_map in H as (z & Hz & Hy).
    apply IHr1 in Hz as (w1 & E1 & H1). apply IHr2 in Hy as (w2 & E2 & H2).
    exists (w1 ++ w2). split; [now rewrite E1, E2, app_assoc|].
    rewrite forallb_app. apply andb_true_iff. split.
    + apply forallb_weaken with (2 := H1). simpl. intros a ->. reflexivity.
    + apply forallb_weaken with (2 := H2). simpl. intros a ->.
      apply orb_true_r.
  - apply in_app_or in H as [H|H].
    + apply IHr1 in H as (w & E & Hw). exists w. split; [exact E|].
      apply forallb_weaken with (2 := Hw). simpl. intros a ->. reflexivity.
    + apply IHr2 in H as (w & E & Hw). exists w. split; [exact E|].
      apply forallb_weaken with (2 := Hw). simpl. intros a ->.
      apply orb_true_r.
  - apply repeat_matcher_accepts with (P := accepts ic r) in H;
      [exact H|exact IHr].
  - apply in_flat_map in H as (z & Hz & Hy).
    apply IHr in Hz as (w1 & E1 & H1).
    apply repeat_matcher_accepts with (P := accepts ic r) in Hy;
      [|exact IHr].
    destruct Hy as (w2 & E2 & H2).
    exists (w1 ++ w2). split.
    + change (fst (clear_caps (groups r) x)) with (fst x) in E1.
      now rewrite E1, E2, app_assoc.
    + change (forallb (accepts ic r) (w1 ++ w2) = true).
      now rewrite forallb_app, H1, H2.
  - assert (In y (filter (advances x)
                         (matcher ic r (clear_caps (groups r) x))) \/ y = x)
      as [Hin| ->].
    { destruct greedy.
      - apply in_app_or in H as [H|[<-|[]]]; auto.
      - destruct H as [<-|H]; auto. }
    + apply filter_In in Hin as [Hin _].
      apply IHr in Hin as (w & E & Hw). exists w. split; [exact E|exact Hw].
    + now exists [].
  - apply in_map_iff in H as (z & <- & Hz).
    apply IHr in Hz as (w & E & Hw). exists w. split; [exact E|exact Hw].
  - destruct (get_cap i (snd x)) as [w|].
    + destruct (starts_with_ic ic w (fst x)) eqn:E; [|destruct H].
      destruct H as [<-|[]]. exists (firstn (length w) (fst x)).
      split; [symmetry; apply firstn_skipn|].
      apply forallb_forall. reflexivity.
    + destruct H as [<-|[]]. now exists [].
  - destruct (fst x) eqn:E; [|destruct H]. destruct H as [<-|[]].
    exists []. rewrite E. split; reflexivity.
Qed.

Lemma match_here_accepts (re : RegExp) (s : jsstring) (m : match_result) :
  match_here re s = Some m ->
  forallb (accepts (re_ic re) (re_src re)) (m_text m) = true.
Proof.
  unfold match_here.
  destruct (matcher (re_ic re) (re_src re) (s, [])) as [|[s' caps] l] eqn:E;
    [discriminate|].
  intros [= <-]. cbn [m_text].
  assert (Hin : In (s', caps) (matcher (re_ic re) (re_src re) (s, [])))
    by (rewrite E; now left).
  apply matcher_accepts in Hin as (w & Ew & Hw). simpl in Ew. subst s.
  now rewrite firstn_prefix.
Qed.

Lemma regexp_exec_accepts (re : RegExp) (s : jsstring) (m : match_result) :
  regexp_exec re s = Some m ->
  forallb (accepts (re_ic re) (re_src re)) (m_text m) = true.
Proof.
  revert m. induction s as [|c s IH]; intros m; simpl.
  - destruct (match_here re []) as [m'|] eqn:E; [|discriminate].
    intros [= <-]. now apply match_here_accepts in E.
  - destruct (match_here re (c :: s)) as [m'|] eqn:E.
    + intros [= <-]. now apply match_here_accepts in E.
    + destruct (regexp_exec re s) as [m'|]; [|discriminate].
      intros [= <-]. cbn [m_text]. now apply IH.
Qed.

(* ================================================================== *)
(** * Tags in cleaned text *)
(* ================================================================== *)

Lemma free_of_cons (c a : N) (s : jsstring) :
  free_of c (a :: s) = negb (a =? c)%N && free_of c s.
Proof. reflexivity. Qed.

(** After [<], the rest of the tag pattern matches when a [>] follows. *)
Lemma tag_rest_matches (s : jsstring) (caps : captures) :
  nonempty (matcher false (Seq (Star true not_gt) (lit ">")) (s, caps))
  = negb (free_of 62 s).
Proof.
  rewrite matcher_seq. change not_gt with (Cls true [CChar 62%N]).
  induction s as [|c s IH].
  - rewrite class_star_nil. reflexivity.
  - rewrite class_star_cons.
    rewrite (not_sign_member false 62 c eq_refl eq_refl).
    rewrite free_of_cons.
    destruct (c =? 62)%N eqn:E.
    + apply N.eqb_eq in E. subst c. reflexivity.
    + cbn [negb andb]. rewrite flat_map_app, nonempty_app, IH.
      cbn [flat_map]. rewrite app_nil_r.
      rewrite (matcher_lit ">"). cbn [js list_ascii_of_string map starts_with].
      change (N_of_ascii ">") with 62%N.
      rewrite N.eqb_sym, E. cbn [andb nonempty]. apply orb_false_r.
Qed.

Lemma matches_at_tag (s : jsstring) :
  matches_at tag_re s
  = match s with
    | c :: s' => (c =? 60)%N && negb (free_of 62 s')
    | [] => false
    end.
Proof.
  rewrite matches_at_nonempty.
  change (re_src tag_re)
    with (Seq (lit_units [60%N]) (Seq (Star true not_gt) (lit ">"))).
  change (re_ic tag_re) with false.
  rewrite matcher_seq_text.
  destruct s as [|c s]; [reflexivity|].
  cbn [starts_with_ic canon andb is_lower length skipn].
  rewrite andb_true_r, N.eqb_sym.
  destruct (c =? 60)%N; [|reflexivity].
  apply tag_rest_matches.
Qed.

(** The tag pattern finds a match exactly in the texts with a [<] before
    a [>]. *)
Lemma test_tag (s : jsstring) : test tag_re s = angle_pair s.
Proof.
  induction s as [|c s IH]; rewrite test_unfold, matches_at_tag.
  - reflexivity.
  - now rewrite IH.
Qed.

Lemma angle_pair_has_gt (s : jsstring) :
  angle_pair s = true -> free_of 62 s = false.
Proof.
  induction s as [|c s IH]; [discriminate|]. cbn [angle_pair].
  rewrite free_of_cons. intros H. apply orb_true_iff in H as [H|H].
  - apply andb_true_iff in H as [_ H].
    destruct (free_of 62 s); [discriminate|]. apply andb_false_r.
  - rewrite (IH H). apply andb_false_r.
Qed.

Lemma angle_pair_app_free (a b : jsstring) :
  free_of 60 a = true -> angle_pair (a ++ b) = angle_pair b.
Proof.
  induction a as [|c a IH]; [reflexivity|]. rewrite free_of_cons.
  intros H. apply andb_true_iff in H as [Hc Ha].
  cbn [app angle_pair]. rewrite (IH Ha).
  destruct (c =? 60)%N; [discriminate|reflexivity].
Qed.

(** The leftmost tag starts at the first [<]. *)
Lemma regexp_exec_tag_before (s : jsstring) (m : match_result) :
  regexp_exec tag_re s = Some m -> free_of 60 (m_before m) = true.
Proof.
  revert m. induction s as [|c s IH]; intros m H.
  - vm_compute in H. discriminate.
  - destruct (match_here tag_re (c :: s)) as [m'|] eqn:E.
    + rewrite (regexp_exec_here _ _ _ E) in H. injection H as <-.
      now rewrite (proj1 (match_here_parts _ _ _ E)).
    + rewrite (regexp_exec_skip _ _ _ E) in H.
      destruct (regexp_exec tag_re s) as [m'|] eqn:E'; [|discriminate].
      injection H as <-. cbn [shift m_before]. rewrite free_of_cons.
      rewrite (IH m' eq_refl), andb_true_r.
      destruct (c =? 60)%N eqn:Ec; [|reflexivity].
      pose proof (matches_at_tag (c :: s)) as Hm.
      unfold matches_at in Hm. rewrite E, Ec in Hm. cbn [andb] in Hm.
      assert (Ht : test tag_re s = true) by (unfold test; now rewrite E').
      rewrite test_tag in Ht. apply angle_pair_has_gt in Ht.
      rewrite Ht in Hm. discriminate.
Qed.

(** [replace(/<[^>]*>/g, '')] leaves no tag. *)
Lemma replace_tags_no_pair (s : jsstring) :
  angle_pair (replace_all tag_re [] s) = false.
Proof.
  remember (length s) as n eqn:Hn.
  assert (Hle : length s <= n) by lia. clear Hn. revert s Hle.
  induction n as [|n IH]; intros s Hle; rewrite replace_all_unfold.
  - destruct s; [|simpl in Hle; lia]. reflexivity.
  - destruct (regexp_exec tag_re s) as [m|] eqn:E.
    + pose proof (regexp_exec_nonempty tag_re s m eq_refl E) as Hne.
      pose proof (regexp_exec_after _ _ _ E) as Hl.
      pose proof (regexp_exec_tag_before _ _ E) as Hb.
      destruct (m_text m) as [|t ts]; [contradiction|].
      cbn [app]. rewrite angle_pair_app_free by exact Hb.
      apply IH. simpl in Hl. lia.
    + rewrite <- test_tag. unfold test. now rewrite E.
Qed.

Lemma angles_app (a b : jsstring) : angles (a ++ b) = angles a ++ angles b.
Proof. apply filter_app. Qed.

Lemma free_of_angles (s : jsstring) :
  free_of 62 (angles s) = free_of 62 s.
Proof.
  induction s as [|c s IH]; [reflexivity|].
  unfold angles in *. cbn [filter]. rewrite free_of_cons.
  unfold is_angle at 1.
  destruct (c =? 60)%N eqn:E1; [|destruct (c =? 62)%N eqn:E2]; cbn [orb].
  - rewrite free_of_cons, IH. reflexivity.
  - rewrite free_of_cons, IH, E2. reflexivity.
  - cbn [negb andb]. exact IH.
Qed.

(** Whether a text holds a tag is a matter of its angle brackets. *)
Lemma angle_pair_angles (s : jsstring) :
  angle_pair (angles s) = angle_pair s.
Proof.
  induction s as [|c s IH]; [reflexivity|].
  unfold angles in *. cbn [filter angle_pair]. unfold is_angle at 1.
  destruct (c =? 60)%N eqn:E1; [|destruct (c =? 62)%N eqn:E2]; cbn [orb].
  - cbn [angle_pair]. rewrite E1, IH.
    fold (angles s). now rewrite free_of_angles.
  - cbn [angle_pair]. rewrite E1, IH. reflexivity.
  - cbn [andb orb]. exact IH.
Qed.

Lemma accepted_no_angles (P : N -> bool) (w : jsstring) :
  (forall a, is_angle a = true -> P a = false) ->
  forallb P w = true -> angles w = [].
Proof.
  intros H. induction w as [|a w IH]; [reflexivity|]. simpl.
  intros E. apply andb_true_iff in E as [Ea Ew].
  destruct (is_angle a) eqn:Ha.
  - rewrite (H a Ha) in Ea. discriminate.
  - now apply IH.
Qed.

(** Replacing the matches of a pattern that reads no angle bracket by a
    text without one keeps the angle brackets. *)
Lemma replace_all_angles (re : RegExp) (by_ s : jsstring) :
  (forall a, is_angle a = true -> accepts (re_ic re) (re_src re) a = false) ->
  angles by_ = [] ->
  angles (replace_all re by_ s) = angles s.
Proof.
  intros Hre Hby.
  remember (length s) as n eqn:Hn.
  assert (Hle : length s <= n) by lia. clear Hn. revert s Hle.
  induction n as [|n IH]; intros s Hle; rewrite replace_all_unfold;
    destruct (regexp_exec re s) as [m|] eqn:E; try reflexivity.
  - destruct s; [|simpl in Hle; lia].
    apply regexp_exec_parts in E. symmetry in E.
    apply app_eq_nil in E as [Eb E]. apply app_eq_nil in E as [Et Ea].
    rewrite Eb, Et, Ea. cbn [app]. exact Hby.
  - pose proof (regexp_exec_accepts _ _ _ E) as Hacc.
    apply accepted_no_angles in Hacc; [|exact Hre].
    pose proof (regexp_exec_after _ _ _ E) as Hl.
    pose proof (regexp_exec_parts _ _ _ E) as Hs.
    rewrite Hs. rewrite !angles_app, Hacc. cbn [app].
    destruct (m_text m) as [|t ts], (m_after m) as [|c rest].
    + now rewrite angles_app, Hby.
    + rewrite !angles_app, Hby. cbn [app]. f_equal.
      unfold angles. cbn [filter]. destruct (is_angle c).
      * f_equal. apply IH. simpl in Hl. lia.
      * apply IH. simpl in Hl. lia.
    + rewrite !angles_app, Hby. cbn [app]. f_equal.
      apply IH. simpl. lia.
    + rewrite !angles_app, Hby. cbn [app]. f_equal.
      apply IH. simpl in Hl. simpl. lia.
Qed.

Lemma space_not_angle (c : N) : is_space c = true -> is_angle c = false.
Proof.
  intros H. unfold is_angle.
  destruct (c =? 60)%N eqn:E1.
  - apply N.eqb_eq in E1. subst c. discriminate.
  - destruct (c =? 62)%N eqn:E2; [|reflexivity].
    apply N.eqb_eq in E2. subst c. discriminate.
Qed.

Lemma angles_trimStart (s : jsstring) : angles (trimStart s) = angles s.
Proof.
  induction s as [|c s IH]; [reflexivity|]. cbn [trimStart].
  destruct (is_space c) eqn:E; [|reflexivity].
  rewrite IH. unfold angles. cbn [filter].
  now rewrite (space_not_angle c E).
Qed.

Lemma angles_rev (s : jsstring) : angles (rev s) = rev (angles s).
Proof.
  induction s as [|c s IH]; [reflexivity|].
  cbn [rev]. rewrite angles_app, IH. unfold angles. cbn [filter].
  destruct (is_angle c); cbn [rev]; [reflexivity|apply app_nil_r].
Qed.

Lemma angles_trim (s : jsstring) : angles (trim s) = angles s.
Proof.
  unfold trim.
  now rewrite angles_rev, angles_trimStart, angles_rev, rev_involutive,
    angles_trimStart.
Qed.

Lemma angle_cases (P : N -> bool) :
  P 60%N = false -> P 62%N = false ->
  forall a, is_angle a = true -> P a = false.
Proof.
  intros H1 H2 a Ha. unfold is_angle in Ha.
  apply orb_true_iff in Ha as [Ha|Ha]; apply N.eqb_eq in Ha; now subst a.
Qed.

Lemma angles_cleanText (text : jsstring) :
  angles (cleanText text) = angles (replace_all tag_re [] text).
Proof.
  unfold cleanText. destruct text as [|a text]; [reflexivity|].
  cbn [truthy negb]. rewrite angles_trim.
  rewrite (replace_all_angles spaces_re), (replace_all_angles entity_re),
    (replace_all_angles nbsp_re);
    try reflexivity; now apply angle_cases.
Qed.

Lemma cleanText_no_pair (text : jsstring) :
  angle_pair (cleanText text) = false.
Proof.
  rewrite <- angle_pair_angles, angles_cleanText, angle_pair_angles.
  apply replace_tags_no_pair.
Qed.

Lemma angle_pair_found (a b c : jsstring) :
  angle_pair (a ++ 60%N :: b ++ 62%N :: c) = true.
Proof.
  induction a as [|x a IH].
  - cbn [app angle_pair]. rewrite N.eqb_refl, free_of_app.
    rewrite free_of_cons, N.eqb_refl. cbn [negb andb].
    now rewrite andb_false_r.
  - cbn [app angle_pair]. rewrite IH. apply orb_true_r.
Qed.

(** X2: no tag is left in what [cleanText] returns: the tag pattern finds
    no match in it, that is, no [<] in it is followed by a [>]. *)
Theorem cleanText_leaves_no_tag (text : jsstring) :
  test tag_re (cleanText text) = false
  /\ forall a b c, cleanText text <> a ++ 60%N :: b ++ 62%N :: c.
Proof.
  split.
  - rewrite test_tag. apply cleanText_no_pair.
  - intros a b c E. pose proof (cleanText_no_pair text) as H.
    rewrite E, angle_pair_found in H. discriminate.
Qed.

(* ================================================================== *)
(** * The length of cleaned text *)
(* ================================================================== *)

Lemma replace_all_length (re : RegExp) (by_ s : jsstring) :
  consumes (re_src re) = true -> length by_ <= 1 ->
  length (replace_all re by_ s) <= length s.
Proof.
  intros Hre Hby.
  assert (H : forall n s, length s <= n ->
                          length (replace_all re by_ s) <= length s);
    [|now apply (H (length s))].
  clear s. induction n as [|n IH]; intros s Hle; rewrite replace_all_unfold;
    destruct (regexp_exec re s) as [m|] eqn:E; try (now apply Nat.le_refl).
  - destruct s; [|simpl in Hle; lia].
    apply regexp_exec_nonempty in E as Hne; [|exact Hre].
    apply regexp_exec_after in E. simpl in E.
    destruct (m_text m); [contradiction|simpl in E; lia].
  - pose proof (regexp_exec_nonempty _ _ _ Hre E) as Hne.
    pose proof (regexp_exec_after _ _ _ E) as Hl.
    destruct (m_text m) as [|t ts]; [contradiction|].
    rewrite !length_app. simpl in Hl.
    assert (length (replace_all re by_ (m_after m)) <= length (m_after m))
      by (apply IH; lia).
    lia.
Qed.

Lemma trim_length (s : jsstring) : length (trim s) <= length s.
Proof.
  unfold trim. rewrite length_rev.
  pose proof (trimStart_length (rev (trimStart s))) as H1.
  pose proof (trimStart_length s) as H2.
  rewrite length_rev in H1. lia.
Qed.

(** X3: [cleanText] never returns more code units than it is given. *)
Theorem cleanText_not_longer (text : jsstring) :
  length (cleanText text) <= length text.
Proof.
  unfold cleanText. destruct text as [|a text]; [apply Nat.le_refl|].
  cbn [truthy negb].
  eapply Nat.le_trans; [apply trim_length|].
  eapply Nat.le_trans; [apply replace_all_length; [reflexivity|simpl; lia]|].
  eapply Nat.le_trans; [apply replace_all_length; [reflexivity|simpl; lia]|].
  eapply Nat.le_trans; [apply replace_all_length; [reflexivity|simpl; lia]|].
  apply replace_all_length; [reflexivity|simpl; lia].
Qed.

(* ================================================================== *)
(** * What every result of [parseHtml] is like *)
(* ================================================================== *)

(** A result is the failure record or the assembled one. *)
Lemma parseHtml_cases (now doc : jsstring) (url : option jsstring) :
  (exists message, parseHtml now doc url = failure now url message)
  \/ (exists a p, extractAuthor doc = Normal a
                  /\ extractPublishDate doc = Normal p
                  /\ parseHtml now doc url = assembled now doc url a p).
Proof.
  unfold parseHtml.
  destruct (parseHtml_try_cases now doc url)
    as [[_ ->] | [(a & p & Ha & Hp & ->) | (e & _ & ->)]].
  - left. now eexists.
  - right. now exists a, p.
  - left. unfold parseHtml_catch. now eexists.
Qed.

Lemma cleanText_opt_no_pair (g : option jsstring) :
  angle_pair (cleanText_opt g) = false.
Proof. destruct g; [apply cleanText_no_pair|reflexivity]. Qed.

Lemma extractMetaTag_no_pair (name : string) (doc : jsstring) :
  angle_pair (extractMetaTag name doc) = false.
Proof.
  unfold extractMetaTag. destruct (or_match _ _); [|reflexivity].
  apply cleanText_opt_no_pair.
Qed.

Lemma or_else_no_pair (a b : jsstring) :
  angle_pair a = false -> angle_pair b = false ->
  angle_pair (or_else a b) = false.
Proof. unfold or_else. now destruct (truthy a). Qed.

Lemma angle_pair_suffix (t b : jsstring) :
  angle_pair (t ++ b) = false -> angle_pair b = false.
Proof.
  induction t as [|c t IH]; [auto|]. cbn [app angle_pair].
  intros H. apply orb_false_iff in H as [_ H]. auto.
Qed.

(** Taking a piece out of a text brings no tag into it. *)
Lemma angle_pair_remove (a t b : jsstring) :
  angle_pair (a ++ t ++ b) = false -> angle_pair (a ++ b) = false.
Proof.
  induction a as [|c a IH]; [cbn [app]; apply angle_pair_suffix|].
  cbn [app angle_pair]. intros H. apply orb_false_iff in H as [H1 H2].
  rewrite (IH H2), orb_false_r.
  destruct (c =? 60)%N; [|reflexivity]. cbn [andb] in *.
  rewrite !free_of_app in H1. rewrite free_of_app.
  destruct (free_of 62 a), (free_of 62 b), (free_of 62 t);
    try reflexivity; discriminate.
Qed.

Lemma replace_first_no_pair (re : RegExp) (s : jsstring) :
  angle_pair s = false -> angle_pair (replace_first re [] s) = false.
Proof.
  unfold replace_first. intros H.
  destruct (regexp_exec re s) as [m|] eqn:E; [|exact H].
  rewrite (regexp_exec_parts _ _ _ E) in H. cbn [app].
  now apply angle_pair_remove in H.
Qed.

Lemma trim_no_pair (s : jsstring) :
  angle_pair s = false -> angle_pair (trim s) = false.
Proof.
  intros H. now rewrite <- angle_pair_angles, angles_trim, angle_pair_angles.
Qed.

Lemma extractTitle_no_pair (doc : jsstring) :
  angle_pair (extractTitle doc) = false.
Proof.
  unfold extractTitle.
  destruct (truthy (extractMetaTag "og:title" doc));
    [apply extractMetaTag_no_pair|].
  destruct (truthy (extractMetaTag "twitter:title" doc));
    [apply extractMetaTag_no_pair|].
  destruct (truthy (h1_candidate doc)) eqn:E1.
  - unfold h1_candidate. destruct (group_if_any 1 _); [|reflexivity].
    apply cleanText_no_pair.
  - destruct (truthy (title_tag_candidate doc)); [|reflexivity].
    unfold title_tag_candidate. destruct (group_if_any 1 _); [|reflexivity].
    apply trim_no_pair, replace_first_no_pair, cleanText_no_pair.
Qed.

Lemma extractSummary_no_pair (doc : jsstring) :
  angle_pair (extractSummary doc) = false.
Proof.
  unfold extractSummary.
  destruct (truthy (meta_summary doc)).
  { unfold meta_summary.
    repeat apply or_else_no_pair; apply extractMetaTag_no_pair. }
  destruct (truthy (summary_element doc)).
  { unfold summary_element. destruct (group_if_any 2 _); [|reflexivity].
    apply cleanText_no_pair. }
  unfold first_paragraph_summary. destruct (group_if_any 1 _); [|reflexivity].
  destruct (_ && _); [apply cleanText_no_pair|reflexivity].
Qed.

(** X4: neither the title nor the summary of a result holds an HTML tag,
    whatever the document: the tag pattern of [cleanText] finds no match
    in them. *)
Theorem title_and_summary_hold_no_tag (now doc : jsstring)
        (url : option jsstring) :
  test tag_re (extractTitle doc) = false
  /\ test tag_re (extractSummary doc) = false
  /\ test tag_re (title (data (parseHtml now doc url))) = false
  /\ test tag_re (summary (data (parseHtml now doc url))) = false.
Proof.
  rewrite !test_tag.
  pose proof (extractTitle_no_pair doc) as Ht.
  pose proof (extractSummary_no_pair doc) as Hs.
  repeat split; try assumption;
    destruct (parseHtml_cases now doc url)
      as [[message ->] | (a & p & _ & _ & ->)];
    try reflexivity; assumption.
Qed.

(* ------------------------------------------------------------------ *)

Lemma group_if_any_nonempty (i : nat) (m : option match_result)
      (g : jsstring) :
  group_if_any i m = Some g -> g <> [].
Proof.
  unfold group_if_any. destruct m as [r|]; [|discriminate].
  destruct (group i r) as [[|c t]|]; try discriminate.
  intros [= <-]. discriminate.
Qed.

Lemma author_of_jsonld_truthy (blocks : list jsvalue) (v : jsvalue) :
  author_of_jsonld blocks = Normal (Some v) -> to_boolean (Some v) = true.
Proof.
  induction blocks as [|j rest IH]; [discriminate|].
  cbn [author_of_jsonld].
  destruct (get_prop "author" j) as [a|e'] eqn:Ea; cbn [bind];
    [|discriminate].
  destruct (to_boolean a) eqn:Ta; [|exact IH].
  destruct a as [w|]; [|exact IH].
  destruct (get_prop_truthy "name" w Ta) as [n Hn].
  destruct w; try discriminate;
    try (rewrite Hn; cbn [bind]; destruct (to_boolean n) eqn:Tn;
         [intros [= ->]; exact Tn|exact IH]).
  intros [= <-]. exact Ta.
Qed.

Lemma date_of_jsonld_truthy (blocks : list jsvalue) (v : jsvalue) :
  date_of_jsonld blocks = Normal (Some v) -> to_boolean (Some v) = true.
Proof.
  induction blocks as [|j rest IH]; [discriminate|].
  cbn [date_of_jsonld].
  destruct (get_prop "datePublished" j) as [p|e'] eqn:Ep; cbn [bind];
    [|discriminate].
  destruct (to_boolean p) eqn:Tp; cbn [bind].
  - rewrite Tp. intros [= ->]. exact Tp.
  - destruct (get_prop "dateCreated" j) as [c|e'] eqn:Ec; cbn [bind];
      [|discriminate].
    destruct (to_boolean c) eqn:Tc; cbn [bind].
    + rewrite Tc. intros [= ->]. exact Tc.
    + destruct (get_prop "publishedAt" j) as [a|e'] eqn:Eq; cbn [bind];
        [|discriminate].
      destruct (to_boolean a) eqn:Ta; [|exact IH].
      intros [= ->]. exact Ta.
Qed.

Lemma extractAuthor_null_or_truthy (doc : jsstring) (v : jsvalue) :
  extractAuthor doc = Normal v -> null_or_truthy v.
Proof.
  unfold extractAuthor, author_after_meta, null_or_truthy.
  destruct (truthy (or_else _ _)) eqn:E1; [intros [= <-]; now right|].
  clear E1.
  destruct (truthy _) eqn:E2; [intros [= <-]; now right|].
  clear E2.
  destruct (author_of_jsonld (extractJsonLD doc)) as [[w|]|e'] eqn:E;
    cbn [bind]; try discriminate.
  - intros [= <-]. right. eapply author_of_jsonld_truthy; eauto.
  - intros [= <-]. unfold author_class_candidate.
    destruct (group_if_any 2 _); [|now left].
    destruct (truthy (cleanText j) && _) eqn:E3; [|now left].
    right. apply andb_true_iff in E3 as [E3 _]. exact E3.
Qed.

Lemma extractPublishDate_null_or_truthy (doc : jsstring) (v : jsvalue) :
  extractPublishDate doc = Normal v -> null_or_truthy v.
Proof.
  unfold extractPublishDate, null_or_truthy.
  destruct (truthy (or_else _ _)) eqn:E1; [intros [= <-]; now right|].
  clear E1.
  destruct (group_if_any 1 _) as [g|] eqn:E2.
  - intros [= <-]. right. apply group_if_any_nonempty in E2.
    now apply truthy_true.
  - destruct (date_of_jsonld (extractJsonLD doc)) as [[w|]|e'] eqn:E;
      cbn [bind]; try discriminate.
    + intros [= <-]. right. eapply date_of_jsonld_truthy; eauto.
    + intros [= <-]. now left.
Qed.

(** X5: the author and the publication date of a result are [null] or a
    truthy value, never an empty text: a caller can test them against
    [null] alone. *)
Theorem author_and_date_null_or_truthy (now doc : jsstring)
        (url : option jsstring) :
  null_or_truthy (author (data (parseHtml now doc url)))
  /\ null_or_truthy (publishDate (data (parseHtml now doc url))).
Proof.
  destruct (parseHtml_cases now doc url)
    as [[message ->] | (a & p & Ha & Hp & ->)].
  - split; now left.
  - split; cbn [data assembled author publishDate].
    + eapply extractAuthor_null_or_truthy; eauto.
    + eapply extractPublishDate_null_or_truthy; eauto.
Qed.

(* ------------------------------------------------------------------ *)

Lemma join_length_first (sep p : jsstring) (ps : list jsstring) :
  length p <= length (join sep (p :: ps)).
Proof.
  destruct ps as [|q ps]; [apply Nat.le_refl|].
  rewrite join_cons by discriminate. rewrite length_app. lia.
Qed.

Lemma cleanText_opt_head (g : option jsstring) :
  cleanText_opt g <> [] ->
  exists c y, cleanText_opt g = c :: y /\ is_space c = false.
Proof.
  destruct g as [t|]; [|contradiction]. cbn [cleanText_opt].
  rewrite cleanText_tokens. intros H.
  apply join_words_head; [|apply tokens_words].
  intros E. now rewrite E in H.
Qed.

Lemma tokens_cons_nonspace (c : N) (s : jsstring) :
  is_space c = false -> tokens (c :: s) <> [].
Proof.
  intros H. unfold tokens. cbn [tokens_from]. rewrite H.
  now apply tokens_from_nonempty.
Qed.

(** The content is empty, or begins with a paragraph of more than 40
    code units and so holds a word. *)
Lemma extractMainContent_shape (doc : jsstring) :
  extractMainContent doc = []
  \/ (40 < length (extractMainContent doc)
      /\ tokens (extractMainContent doc) <> []).
Proof.
  unfold extractMainContent, content_parts.
  set (all := map _ _).
  assert (H : Forall (fun t => exists g, t = cleanText_opt g) all).
  { unfold all. apply Forall_forall. intros t Ht.
    apply in_map_iff in Ht as (m & <- & _). now eexists. }
  clearbody all.
  induction all as [|t all IH]; [now left|].
  inversion H as [|? ? [g Hg] Hall]; subst. cbn [filter].
  destruct (40 <? length (cleanText_opt g)) eqn:E; [|now apply IH].
  right. apply Nat.ltb_lt in E.
  match goal with
  | |- context [filter ?f all] => set (rest := filter f all)
  end.
  pose proof (join_length_first (js (String "010" (String "010" EmptyString)))
                                (cleanText_opt g) rest) as Hl.
  split; [eapply Nat.lt_le_trans; [exact E|exact Hl]|].
  destruct (cleanText_opt_head g) as (c & y & Ec & Hc).
  { intros E0. rewrite E0 in E. simpl in E. lia. }
  assert (Hj : exists z,
             join (js (String "010" (String "010" EmptyString)))
                  (cleanText_opt g :: rest) = c :: z).
  { rewrite Ec. destruct rest as [|q rest']; [now exists y|].
    rewrite join_cons by discriminate. now eexists. }
  destruct Hj as [z Hz]. intros Ht.
  apply (tokens_cons_nonspace c z Hc). rewrite <- Hz. exact Ht.
Qed.

Lemma reading_time_zero (n : nat) : reading_time n = 0 <-> n = 0.
Proof.
  unfold reading_time. split.
  - intros H. apply Nat.div_small_iff in H; lia.
  - intros ->. reflexivity.
Qed.

(** X6: the content of a result is empty or longer than 40 code units,
    and it is empty exactly when the word count is zero, and exactly when
    the reading time is zero. *)
Theorem content_empty_or_long (now doc : jsstring) (url : option jsstring) :
  let d := data (parseHtml now doc url) in
  (content d = [] \/ 40 < length (content d))
  /\ (wordCount d = 0 <-> content d = [])
  /\ (readingTime d = 0 <-> content d = []).
Proof.
  destruct (parseHtml_cases now doc url)
    as [[message ->] | (a & p & _ & _ & ->)]; cbv zeta.
  - cbn. repeat split; auto.
  - cbn [data assembled content wordCount readingTime].
    rewrite reading_time_zero, words_of_tokens, length_zero_iff_nil.
    destruct (extractMainContent_shape doc) as [E|[Hl Ht]].
    + rewrite E. repeat split; auto.
    + assert (Hn : extractMainContent doc <> [])
        by (intros E; rewrite E in Hl; simpl in Hl; lia).
      repeat split; auto; intros E; contradiction.
Qed.

(* ------------------------------------------------------------------ *)

(** X7: a URL the caller provides is the [sourceUrl] of the result,
    whether the parse succeeds or fails; nothing in the document
    overrides it. *)
Theorem provided_url_is_kept (now doc u : jsstring) :
  u <> [] -> sourceUrl (parseHtml now doc (Some u)) = u.
Proof.
  intros Hu.
  destruct (parseHtml_cases now doc (Some u))
    as [[message ->] | (a & p & _ & _ & ->)].
  - reflexivity.
  - cbn [sourceUrl assembled]. unfold extractSourceUrl.
    cbn [url_or_empty]. now destruct u.
Qed.

Lemma provided_url_is_kept_witness :
  sourceUrl (parseHtml (js "2025-08-10T09:00:00.000Z") doc_og_plain
                       (Some (js "https://example.com/a")))
  = js "https://example.com/a".
Proof. apply provided_url_is_kept. discriminate. Defined.

(* ------------------------------------------------------------------ *)

Lemma get_prop_throw_null (prop : string) (v : jsvalue) (e : thrown) :
  get_prop prop v = Throw e ->
  v = VNull /\ e = ThrownError (null_read_message prop).
Proof.
  destruct v; simpl; try discriminate. intros [= <-]. now split.
Qed.

Lemma author_of_jsonld_throw_null (blocks : list jsvalue) (e : thrown) :
  author_of_jsonld blocks = Throw e ->
  In VNull blocks /\ e = ThrownError (null_read_message "author").
Proof.
  induction blocks as [|j rest IH]; [discriminate|].
  assert (IH' : author_of_jsonld rest = Throw e ->
                In VNull (j :: rest)
                /\ e = ThrownError (null_read_message "author")).
  { intros H. destruct (IH H). split; [now right|assumption]. }
  cbn [author_of_jsonld].
  destruct (get_prop "author" j) as [a|e'] eqn:Ea; cbn [bind].
  - destruct (to_boolean a) eqn:Ta; [|exact IH'].
    destruct a as [v|]; [|exact IH'].
    destruct (get_prop_truthy "name" v Ta) as [n Hn].
    destruct v; try discriminate; rewrite Hn; cbn [bind];
      destruct (to_boolean n); try discriminate; exact IH'.
  - intros [= <-]. apply get_prop_throw_null in Ea as [-> ->].
    split; [now left|reflexivity].
Qed.

Lemma get_prop_not_null (prop : string) (v : jsvalue) :
  v <> VNull -> exists r, get_prop prop v = Normal r.
Proof. destruct v; simpl; eauto. contradiction. Qed.

Lemma date_of_jsonld_throw_null (blocks : list jsvalue) (e : thrown) :
  date_of_jsonld blocks = Throw e ->
  In VNull blocks /\ e = ThrownError (null_read_message "datePublished").
Proof.
  induction blocks as [|j rest IH]; [discriminate|].
  assert (IH' : date_of_jsonld rest = Throw e ->
                In VNull (j :: rest)
                /\ e = ThrownError (null_read_message "datePublished")).
  { intros H. destruct (IH H). split; [now right|assumption]. }
  cbn [date_of_jsonld].
  destruct (get_prop "datePublished" j) as [p|e'] eqn:Ep; cbn [bind].
  - assert (Hj : j <> VNull) by (intros ->; discriminate).
    destruct (get_prop_not_null "dateCreated" j Hj) as [c ->].
    destruct (get_prop_not_null "publishedAt" j Hj) as [a ->].
    cbn [bind].
    destruct (to_boolean p) eqn:Tp; cbn [bind].
    + rewrite Tp. discriminate.
    + destruct (to_boolean c) eqn:Tc; cbn [bind].
      * rewrite Tc. discriminate.
      * destruct (to_boolean a); [discriminate|exact IH'].
  - intros [= <-]. apply get_prop_throw_null in Ep as [-> ->].
    split; [now left|reflexivity].
Qed.

Lemma extractAuthor_throw_null (doc : jsstring) (e : thrown) :
  extractAuthor doc = Throw e ->
  In VNull (extractJsonLD doc)
  /\ e = ThrownError (null_read_message "author").
Proof.
  unfold extractAuthor, author_after_meta.
  destruct (truthy (or_else _ _)); [discriminate|].
  destruct (truthy _); [discriminate|].
  destruct (author_of_jsonld (extractJsonLD doc)) as [[v|]|e'] eqn:E;
    cbn [bind]; try discriminate.
  intros [= <-]. now apply author_of_jsonld_throw_null.
Qed.

Lemma extractPublishDate_throw_null (doc : jsstring) (e : thrown) :
  extractPublishDate doc = Throw e ->
  In VNull (extractJsonLD doc)
  /\ e = ThrownError (null_read_message "datePublished").
Proof.
  unfold extractPublishDate.
  destruct (truthy (or_else _ _)); [discriminate|].
  destruct (group_if_any 1 _); [discriminate|].
  destruct (date_of_jsonld (extractJsonLD doc)) as [[v|]|e'] eqn:E;
    cbn [bind]; try discriminate.
  intros [= <-]. now apply date_of_jsonld_throw_null.
Qed.

(** X8: a result that reports a failure carries one of three messages:
    the one of the entry test, for a document without the text [<html],
    or the message of the read of [author] or of [datePublished] on a
    JSON-LD block that is [null]; the message [Unknown parsing error] of
    the [catch] block is never produced.  So a document that holds
    [<html] and no JSON-LD block that is [null] always parses with
    success. *)
Theorem parseHtml_failure_reasons (now doc : jsstring)
        (url : option jsstring) :
  (success (parseHtml now doc url) = false ->
   (includes (js "<html") doc = false
    /\ error (parseHtml now doc url)
       = Some (js "No valid HTML content found"))
   \/ (includes (js "<html") doc = true
       /\ In VNull (extractJsonLD doc)
       /\ exists message, In message null_read_errors
                          /\ error (parseHtml now doc url) = Some message))
  /\ (includes (js "<html") doc = true -> ~ In VNull (extractJsonLD doc) ->
      success (parseHtml now doc url) = true).
Proof.
  assert (H : success (parseHtml now doc url) = false ->
   (includes (js "<html") doc = false
    /\ error (parseHtml now doc url)
       = Some (js "No valid HTML content found"))
   \/ (includes (js "<html") doc = true
       /\ In VNull (extractJsonLD doc)
       /\ exists message, In message null_read_errors
                          /\ error (parseHtml now doc url) = Some message)).
  { unfold parseHtml, parseHtml_try.
    destruct doc as [|c doc'] eqn:Ed; [intros _; left; now split|].
    rewrite <- Ed. replace (truthy doc) with true by now subst.
    cbn [negb orb].
    destruct (indexOf (js "<html") doc) as [i|] eqn:Ei.
    - assert (Hi : includes (js "<html") doc = true).
      { destruct (includes (js "<html") doc) eqn:E; [reflexivity|].
        apply indexOf_none in E. rewrite E in Ei. discriminate. }
      destruct (extractAuthor doc) as [a|e] eqn:Ea; cbn [bind].
      + destruct (extractPublishDate doc) as [p|e] eqn:Ep; cbn [bind];
          [discriminate|].
        intros _. right.
        apply extractPublishDate_throw_null in Ep as [Hn ->].
        split; [exact Hi|]. split; [exact Hn|].
        eexists. split; [|reflexivity]. right. now left.
      + intros _. right. apply extractAuthor_throw_null in Ea as [Hn ->].
        split; [exact Hi|]. split; [exact Hn|].
        eexists. split; [|reflexivity]. now left.
    - intros _. left. split; [now apply indexOf_none|reflexivity]. }
  split; [exact H|].
  intros Hi Hn. destruct (success (parseHtml now doc url)) eqn:E;
    [reflexivity|].
  destruct (H eq_refl) as [[Hf _]|(_ & Hv & _)].
  - rewrite Hf in Hi. discriminate.
  - contradiction.
Qed.

Lemma parseHtml_failure_reasons_witness :
  In VNull (extractJsonLD doc_null_jsonld)
  /\ error (parseHtml (js "2025-08-10T09:00:00.000Z") doc_null_jsonld None)
     = Some (js "Cannot read properties of null (reading 'author')").
Proof.
  destruct (proj1 (parseHtml_failure_reasons (js "2025-08-10T09:00:00.000Z")
                     doc_null_jsonld None) eq_refl)
    as [[H _] | (_ & Hn & _)].
  - vm_compute in H. discriminate.
  - split; [exact Hn|]. vm_compute. reflexivity.
Defined.

(* ================================================================== *)
(** * The quality score *)
(* ================================================================== *)

Lemma validate_title_fields (parsed : ParsedContent) (v : Validation) :
  score (validate_title parsed v) = score v + title_points parsed
  /\ issues (validate_title parsed v) = issues v ++ title_issue parsed
  /\ length (suggestions (validate_title parsed v))
     = length (suggestions v) + length (title_issue parsed).
Proof.
  unfold validate_title, title_points, title_issue.
  destruct (title (data parsed)) as [|c t]; cbn [truthy].
  - cbn. rewrite length_app. repeat split; lia.
  - destruct (10 <? length (c :: t)); cbn [add_score push_issue score issues
                                           suggestions length];
      rewrite ?length_app, ?app_nil_r; cbn [length]; repeat split; lia.
Qed.

Lemma validate_content_fields (parsed : ParsedContent) (v : Validation) :
  score (validate_content parsed v) = score v + content_points parsed
  /\ issues (validate_content parsed v) = issues v ++ content_issue parsed
  /\ length (suggestions (validate_content parsed v))
     = length (suggestions v) + length (content_issue parsed).
Proof.
  unfold validate_content, content_points, content_issue.
  destruct (truthy (content (data parsed)));
    [destruct (100 <? wordCount (data parsed));
     [|destruct (20 <? wordCount (data parsed))]|];
    cbn [add_score push_issue score issues suggestions length];
    rewrite ?length_app, ?app_nil_r; cbn [length]; repeat split; lia.
Qed.

Lemma validate_metadata_fields (parsed : ParsedContent) (v : Validation) :
  score (validate_metadata parsed v) = score v + metadata_points parsed
  /\ issues (validate_metadata parsed v) = issues v
  /\ suggestions (validate_metadata parsed v) = suggestions v.
Proof.
  unfold validate_metadata, metadata_points.
  destruct (to_boolean (Some (author (data parsed))));
    destruct (to_boolean (Some (publishDate (data parsed))));
    destruct (truthy (summary (data parsed)));
    cbn [add_score score issues suggestions]; repeat split; lia.
Qed.

Lemma validate_structure_fields (parsed : ParsedContent) (v : Validation) :
  score (validate_structure parsed v) = score v + structure_points parsed
  /\ issues (validate_structure parsed v) = issues v
  /\ suggestions (validate_structure parsed v) = suggestions v.
Proof.
  unfold validate_structure, structure_points.
  destruct (truthy (sourceUrl parsed));
    destruct (jseqb (language (data parsed)) (js "unknown"));
    cbn [negb add_score score issues suggestions]; repeat split; lia.
Qed.

(** The score is the sum of the points of the four groups; the issues
    are those of the title and of the content, in this order. *)
Lemma validate_fields (parsed : ParsedContent) :
  score (validateParsedContent parsed)
  = title_points parsed + content_points parsed + metadata_points parsed
    + structure_points parsed
  /\ issues (validateParsedContent parsed)
     = title_issue parsed ++ content_issue parsed
  /\ length (suggestions (validateParsedContent parsed))
     = length (title_issue parsed) + length (content_issue parsed).
Proof.
  unfold validateParsedContent.
  set (v0 := {| score := 0; issues := []; suggestions := [] |}).
  destruct (validate_title_fields parsed v0) as (S1 & I1 & L1).
  destruct (validate_content_fields parsed (validate_title parsed v0))
    as (S2 & I2 & L2).
  destruct (validate_metadata_fields parsed
              (validate_content parsed (validate_title parsed v0)))
    as (S3 & I3 & L3).
  destruct (validate_structure_fields parsed
              (validate_metadata parsed
                 (validate_content parsed (validate_title parsed v0))))
    as (S4 & I4 & L4).
  rewrite S4, S3, S2, S1, I4, I3, I2, I1, L4, L3, L2, L1.
  cbn [v0 score issues suggestions length app]. repeat split.
Qed.

Lemma title_points_cases (parsed : ParsedContent) :
  (title_points parsed = 30 /\ title_issue parsed = []
   /\ 10 < length (title (data parsed)))
  \/ (title_points parsed = 0 /\ length (title_issue parsed) = 1
      /\ length (title (data parsed)) <= 10).
Proof.
  unfold title_points, title_issue.
  destruct (Nat.ltb_spec 10 (length (title (data parsed)))) as [H|H].
  - left. destruct (title (data parsed)); [simpl in H; lia|].
    repeat split. exact H.
  - right. destruct (truthy (title (data parsed))); repeat split; exact H.
Qed.

Lemma content_points_cases (parsed : ParsedContent) :
  (content_points parsed = 40 /\ content_issue parsed = []
   /\ content (data parsed) <> [] /\ 100 < wordCount (data parsed))
  \/ ((content_points parsed = 20 \/ content_points parsed = 0)
      /\ length (content_issue parsed) = 1
      /\ (content (data parsed) = [] \/ wordCount (data parsed) <= 100)).
Proof.
  unfold content_points, content_issue.
  destruct (content (data parsed)) as [|c t]; cbn [truthy].
  - right. repeat split; auto.
  - destruct (Nat.ltb_spec 100 (wordCount (data parsed))) as [H|H].
    + left. repeat split; [discriminate|exact H].
    + right. destruct (20 <? wordCount (data parsed)); repeat split; auto.
Qed.

Lemma metadata_points_cases (parsed : ParsedContent) :
  (metadata_points parsed = 20
   /\ to_boolean (Some (author (data parsed))) = true
   /\ to_boolean (Some (publishDate (data parsed))) = true
   /\ summary (data parsed) <> [])
  \/ ((exists k, metadata_points parsed = 5 * k /\ k < 4)
      /\ (to_boolean (Some (author (data parsed))) = false
          \/ to_boolean (Some (publishDate (data parsed))) = false
          \/ summary (data parsed) = [])).
Proof.
  unfold metadata_points.
  destruct (to_boolean (Some (author (data parsed))));
    destruct (to_boolean (Some (publishDate (data parsed))));
    destruct (summary (data parsed)) as [|c t]; cbn [truthy];
    try (left; repeat split; discriminate);
    right; (split; [|auto]);
    first [ exists 3; split; [reflexivity|lia]
          | exists 2; split; [reflexivity|lia]
          | exists 1; split; [reflexivity|lia]
          | exists 0; split; [reflexivity|lia] ].
Qed.

Lemma structure_points_cases (parsed : ParsedContent) :
  (structure_points parsed = 10 /\ sourceUrl parsed <> []
   /\ language (data parsed) <> js "unknown")
  \/ ((structure_points parsed = 5 \/ structure_points parsed = 0)
      /\ (sourceUrl parsed = []
          \/ language (data parsed) = js "unknown")).
Proof.
  unfold structure_points.
  destruct (jseqb (language (data parsed)) (js "unknown")) eqn:E.
  - apply jseqb_true in E. right.
    destruct (truthy (sourceUrl parsed)); split; auto.
  - assert (Hl : language (data parsed) <> js "unknown").
    { intros H. apply jseqb_true in H. rewrite H in E. discriminate. }
    destruct (sourceUrl parsed) as [|c t]; cbn [truthy].
    + right. split; auto.
    + left. repeat split; [discriminate|exact Hl].
Qed.

Lemma validate_points (parsed : ParsedContent) :
  ((title_points parsed = 30 /\ length (title_issue parsed) = 0
    /\ 10 < length (title (data parsed)))
   \/ (title_points parsed = 0 /\ length (title_issue parsed) = 1
       /\ length (title (data parsed)) <= 10))
  /\ ((content_points parsed = 40 /\ length (content_issue parsed) = 0)
      \/ ((content_points parsed = 20 \/ content_points parsed = 0)
          /\ length (content_issue parsed) = 1))
  /\ (exists k, metadata_points parsed = 5 * k /\ k <= 4)
  /\ (structure_points parsed = 10 \/ structure_points parsed = 5
      \/ structure_points parsed = 0).
Proof.
  split; [|split; [|split]].
  - destruct (title_points_cases parsed) as [(T & Ti & Tl)|(T & Ti & Tl)];
      [left; rewrite Ti|right]; auto.
  - destruct (content_points_cases parsed) as [(C & Ci & _)|(C & Ci & _)];
      [left; rewrite Ci|right]; auto.
  - destruct (metadata_points_cases parsed) as [(M & _)|((k & M & Hk) & _)].
    + exists 4. split; [exact M|lia].
    + exists k. split; [exact M|lia].
  - destruct (structure_points_cases parsed) as [(S & _)|([S|S] & _)]; auto.
Qed.

(** X9: the score is a multiple of 5 between 0 and 100; every issue
    comes with one suggestion, and there are at most two; a result
    without issues scores at least 70, and a score above 70 means that
    the title passed. *)
Theorem validateParsedContent_bounds (parsed : ParsedContent) :
  let v := validateParsedContent parsed in
  score v <= 100
  /\ (exists k, score v = 5 * k)
  /\ length (suggestions v) = length (issues v)
  /\ length (issues v) <= 2
  /\ (issues v = [] -> 70 <= score v)
  /\ (70 < score v -> 10 < length (title (data parsed))).
Proof.
  cbv zeta. destruct (validate_fields parsed) as (-> & -> & ->).
  destruct (validate_points parsed) as (T & C & (k & M & Hk) & S).
  assert (E : title_issue parsed ++ content_issue parsed = [] ->
              length (title_issue parsed) = 0
              /\ length (content_issue parsed) = 0).
  { intros H. apply app_eq_nil in H as [-> ->]. now split. }
  rewrite length_app.
  revert T C M S E.
  generalize (title_points parsed) (content_points parsed)
    (metadata_points parsed) (structure_points parsed)
    (length (title_issue parsed)) (length (content_issue parsed))
    (length (title (data parsed))).
  intros tp cp mp sp ti ci tl T C M S E.
  split; [lia|]. split.
  { destruct T as [(-> & _)|(-> & _)], C as [(-> & _)|([-> | ->] & _)],
      S as [-> |[-> | ->]]; subst mp;
      match goal with
      | |- exists k', ?a + ?b + _ + ?c = _ =>
          let q := eval vm_compute in ((a + b + c) / 5) in
          exists (q + k); lia
      end. }
  split; [reflexivity|]. split; [lia|]. split; [|lia].
  intros H. apply E in H. lia.
Qed.

(** X10: the score is 100 exactly when every test passes: a title of
    more than 10 code units, a content with more than 100 words, a truthy
    author and publication date, a summary, a source URL and a language
    other than [unknown]. *)
Theorem validateParsedContent_full_score (parsed : ParsedContent) :
  score (validateParsedContent parsed) = 100
  <-> (10 < length (title (data parsed))
       /\ content (data parsed) <> []
       /\ 100 < wordCount (data parsed)
       /\ to_boolean (Some (author (data parsed))) = true
       /\ to_boolean (Some (publishDate (data parsed))) = true
       /\ summary (data parsed) <> []
       /\ sourceUrl parsed <> []
       /\ language (data parsed) <> js "unknown").
Proof.
  rewrite (proj1 (validate_fields parsed)).
  destruct (title_points_cases parsed) as [(T & _ & Tl)|(T & _ & Tl)];
    destruct (content_points_cases parsed)
      as [(C & _ & Cn & Cw)|(C & _ & Cf)];
    destruct (metadata_points_cases parsed)
      as [(M & Ma & Mp & Ms)|((k & M & Hk) & Mf)];
    destruct (structure_points_cases parsed)
      as [(S & Su & Sl)|(S & Sf)];
    rewrite T, M; try rewrite C; try rewrite S.
  1: { split; [intros _; repeat split; assumption|reflexivity]. }
  all: split;
    [ intros H; exfalso;
      try (destruct C as [C|C]; rewrite C in H);
      try (destruct S as [S|S]; rewrite S in H); lia
    | intros (H1 & H2 & H3 & H4 & H5 & H6 & H7 & H8); exfalso ].
  all: try (destruct Sf as [Sf|Sf]; contradiction).
  all: try (destruct Mf as [Mf|[Mf|Mf]];
            [rewrite H4 in Mf; discriminate
            |rewrite H5 in Mf; discriminate|contradiction]).
  all: try (destruct Cf as [Cf|Cf]; [contradiction|lia]).
  all: lia.
Qed.

(** X11: a result that reports a failure gets the score 0, or 5 when the
    caller has given a URL, with the two issues [No title found] and
    [No content found]. *)
Theorem failed_parse_scores_nothing (now doc : jsstring)
        (url : option jsstring) :
  success (parseHtml now doc url) = false ->
  validateParsedContent (parseHtml now doc url)
  = {| score := if truthy (url_or_empty url) then 5 else 0;
       issues := [js "No title found"; js "No content found"];
       suggestions := [js "Verify HTML structure and meta tags";
                       js "Check HTML structure and content selectors"] |}.
Proof.
  destruct (parseHtml_cases now doc url)
    as [[message ->] | (a & p & _ & _ & ->)]; [|discriminate].
  intros _.
  unfold validateParsedContent, validate_structure, validate_metadata,
    validate_content, validate_title.
  cbn [failure data sourceUrl empty_data title content author publishDate
       summary language truthy to_boolean].
  destruct (truthy (url_or_empty url)); reflexivity.
Qed.

Lemma failed_parse_scores_nothing_witness :
  score (validateParsedContent
           (parseHtml (js "2025-08-10T09:00:00.000Z") doc_plain
                      (Some (js "https://example.com/a")))) = 5.
Proof.
  rewrite (failed_parse_scores_nothing (js "2025-08-10T09:00:00.000Z")
             doc_plain (Some (js "https://example.com/a")) eq_refl).
  reflexivity.
Defined.

(** X12: on a result of [parseHtml], the content raises no issue exactly
    when the content type is not [minimal], and raises [No content found]
    exactly when the word count is zero. *)
Theorem content_issue_of_parse (now doc : jsstring) (url : option jsstring) :
  let r := parseHtml now doc url in
  issues (validateParsedContent r) = title_issue r ++ content_issue r
  /\ (content_issue r = [] <-> contentType (data r) <> ct_minimal)
  /\ (content_issue r = [js "No content found"]
      <-> wordCount (data r) = 0).
Proof.
  cbv zeta. split; [apply validate_fields|].
  destruct (parseHtml_cases now doc url)
    as [[message ->] | (a & p & _ & _ & ->)].
  - cbn. split; split; try reflexivity; try discriminate.
    intros H. now contradiction H.
  - unfold content_issue.
    cbn [data assembled content wordCount contentType].
    rewrite words_of_tokens.
    destruct (extractMainContent_shape doc) as [E|[Hl Ht]].
    + rewrite E. cbn. split; split; try reflexivity; try discriminate.
      intros H. now contradiction H.
    + assert (Hn : 0 < length (tokens (extractMainContent doc))).
      { destruct (tokens (extractMainContent doc)); [contradiction|].
        simpl. lia. }
      destruct (extractMainContent doc) as [|c t] eqn:E;
        [simpl in Hl; lia|].
      cbn [truthy]. unfold determineContentType.
      destruct (Nat.ltb_spec 100 (length (tokens (c :: t)))) as [H1|H1].
      * split; split; try reflexivity; try discriminate; try lia.
        destruct (500 <? length (tokens (c :: t))); discriminate.
      * replace (500 <? length (tokens (c :: t))) with false
          by (symmetry; apply Nat.ltb_ge; lia).
        destruct (20 <? length (tokens (c :: t)));
          split; split; try discriminate; try lia;
          intros H; now contradiction H.
Qed.

(* ================================================================== *)
(** * Splitting on whitespace, piece by piece *)
(* ================================================================== *)

Lemma split_from_nil (piece : jsstring) : split_from piece [] = [rev piece].
Proof. reflexivity. Qed.

Lemma split_from_cons (piece : jsstring) (c : N) (s : jsstring) :
  split_from piece (c :: s)
  = if is_space c then rev piece :: split_from [] (trimStart s)
    else split_from (c :: piece) s.
Proof.
  unfold split_from. rewrite split_fuel_step, match_here_spaces.
  destruct (is_space c).
  - cbn [m_text m_after length].
    pose proof (trimStart_length s) as Hl.
    rewrite Nat.sub_succ_l by assumption. cbn [firstn].
    f_equal. apply split_fuel_enough; simpl; lia.
  - reflexivity.
Qed.

Lemma split_is_split_from (s : jsstring) : split spaces_re s = split_from [] s.
Proof. destruct s; reflexivity. Qed.

Lemma split_from_nonempty (piece s : jsstring) : split_from piece s <> [].
Proof.
  revert piece. induction s as [|c s IH]; intros piece.
  - discriminate.
  - rewrite split_from_cons. destruct (is_space c); [discriminate|apply IH].
Qed.

Lemma join_app (sep : jsstring) (a b : list jsstring) :
  a <> [] -> b <> [] ->
  join sep (a ++ b) = join sep a ++ sep ++ join sep b.
Proof.
  intros Ha Hb. induction a as [|p a IH]; [contradiction|].
  destruct a as [|q a].
  - cbn [app]. now rewrite join_cons.
  - cbn [app]. rewrite (join_cons sep p (q :: a ++ b)) by discriminate.
    rewrite (join_cons sep p (q :: a)) by discriminate.
    cbn [app] in IH. rewrite IH by discriminate.
    now rewrite <- !app_assoc.
Qed.

(** The pieces joined by single spaces are not longer than the text. *)
Lemma split_from_length (piece s : jsstring) :
  length (join (js " ") (split_from piece s)) <= length piece + length s.
Proof.
  assert (G : forall n s piece, length s <= n ->
            length (join (js " ") (split_from piece s))
            <= length piece + length s);
    [|now apply (G (length s))].
  clear. induction n as [|n IH]; intros s piece Hle.
  - destruct s; [|simpl in Hle; lia].
    rewrite split_from_nil. cbn [join]. rewrite length_rev. lia.
  - destruct s as [|c s].
    + rewrite split_from_nil. cbn [join]. rewrite length_rev. lia.
    + rewrite split_from_cons. simpl in Hle. destruct (is_space c).
      * rewrite join_cons by apply split_from_nonempty.
        rewrite !length_app, length_rev.
        pose proof (trimStart_length s).
        specialize (IH (trimStart s) [] ltac:(lia)).
        simpl in *. lia.
      * specialize (IH s (c :: piece) ltac:(lia)). simpl in *. lia.
Qed.

Lemma firstn_join_shorter (k : nat) (l : list jsstring) :
  0 < k -> k < length l ->
  length (join (js " ") (firstn k l)) < length (join (js " ") l).
Proof.
  intros Hk Hl.
  rewrite <- (firstn_skipn k l) at 2.
  rewrite join_app.
  - rewrite !length_app. simpl. lia.
  - intros E. apply (f_equal (@length jsstring)) in E.
    rewrite length_firstn in E. simpl in E. lia.
  - intros E. apply (f_equal (@length jsstring)) in E.
    rewrite length_skipn in E. simpl in E. lia.
Qed.

Lemma firstn_join_not_longer (k : nat) (l : list jsstring) :
  length (join (js " ") (firstn k l)) <= length (join (js " ") l).
Proof.
  destruct k as [|k]; [simpl; lia|].
  destruct (Nat.lt_ge_cases (S k) (length l)) as [H|H].
  - apply Nat.lt_le_incl, firstn_join_shorter; lia.
  - rewrite firstn_all2 by assumption. apply Nat.le_refl.
Qed.

Lemma split_from_word (t piece s : jsstring) :
  forallb (fun c => negb (is_space c)) t = true ->
  split_from piece (t ++ s) = split_from (rev t ++ piece) s.
Proof.
  revert piece. induction t as [|a t IH]; intros piece H; [reflexivity|].
  simpl in H. apply andb_true_iff in H as [Ha Ht].
  cbn [app]. rewrite split_from_cons.
  destruct (is_space a); [discriminate|].
  rewrite IH by exact Ht. cbn [rev]. now rewrite <- app_assoc.
Qed.

(** Words joined by single spaces split into the same words. *)
Lemma split_from_join (ts : list jsstring) :
  ts <> [] -> Forall (fun t => word t = true) ts ->
  split_from [] (join (js " ") ts) = ts.
Proof.
  induction ts as [|t ts IH]; [contradiction|]. intros _ H.
  inversion H as [|? ? Ht Hts]; subst.
  unfold word in Ht. apply andb_true_iff in Ht as [Hn Hf].
  destruct ts as [|t' ts].
  - cbn [join]. rewrite <- (app_nil_r t) at 1.
    rewrite split_from_word by exact Hf.
    rewrite split_from_nil, app_nil_r. now rewrite rev_involutive.
  - rewrite join_cons by discriminate.
    rewrite split_from_word by exact Hf. rewrite app_nil_r.
    change (js " " ++ join (js " ") (t' :: ts))
      with (32%N :: join (js " ") (t' :: ts)).
    rewrite split_from_cons. change (is_space 32) with true. cbv iota.
    rewrite rev_involutive. f_equal.
    destruct (join_words_head (t' :: ts) ltac:(discriminate) Hts)
      as (c & y & E & Hc).
    assert (Hs : trimStart (join (js " ") (t' :: ts))
                 = join (js " ") (t' :: ts)).
    { rewrite E. cbn [trimStart]. now rewrite Hc. }
    rewrite Hs. apply IH; [discriminate|exact Hts].
Qed.

(* ================================================================== *)
(** * The summary of last resort *)
(* ================================================================== *)

(** X13: in [fallbackSummarization], the first 50 pieces joined by
    single spaces are never longer than the text; when the text has more
    than 50 pieces the summary ends in the three dots; and a text of at
    most 50 words separated by single spaces is returned as it is. *)
Theorem fallbackSummarization_truncation (input : Summarize.Input) :
  let text := Summarize.content_of input in
  let pieces := split spaces_re text in
  let words := join (js " ") (firstn 50 pieces) in
  let r := Summarize.fallbackSummarization input in
  length words <= length text
  /\ (50 < length pieces -> Summarize.summary r = words ++ js "...")
  /\ (forall ws, Forall (fun t => word t = true) ws -> length ws <= 50 ->
                 text = join (js " ") ws -> Summarize.summary r = text).
Proof.
  cbv zeta. unfold Summarize.fallbackSummarization.
  cbn [Summarize.summary].
  set (text := Summarize.content_of input). clearbody text.
  rewrite split_is_split_from.
  pose proof (split_from_length [] text) as Hl. simpl in Hl.
  pose proof (firstn_join_not_longer 50 (split_from [] text)) as Hf.
  split; [lia|]. split.
  - intros H.
    pose proof (firstn_join_shorter 50 (split_from [] text)
                  ltac:(lia) H) as Hs.
    replace (_ <? _) with true; [reflexivity|].
    symmetry. apply Nat.ltb_lt. lia.
  - intros ws Hw Hn ->.
    destruct ws as [|t ts].
    + reflexivity.
    + rewrite split_from_join by (try discriminate; exact Hw).
      rewrite firstn_all2 by exact Hn.
      rewrite Nat.ltb_irrefl. apply app_nil_r.
Qed.

Lemma fallbackSummarization_truncation_witness :
  Summarize.summary
    (Summarize.fallbackSummarization
       {| Summarize.input_title := Some (js "Grilling basics");
          Summarize.input_summary := None;
          Summarize.input_content := Some (js "rest the patty") |})
  = js "rest the patty".
Proof.
  apply (proj2 (proj2 (fallbackSummarization_truncation
                         {| Summarize.input_title := Some (js "Grilling basics");
                            Summarize.input_summary := None;
                            Summarize.input_content := Some (js "rest the patty") |}))
               [js "rest"; js "the"; js "patty"]).
  - repeat constructor.
  - simpl. lia.
  - reflexivity.
Defined.

(* ================================================================== *)
(** * Trimming *)
(* ================================================================== *)

Lemma trimStart_no_lead (s : jsstring) : no_lead (trimStart s) = true.
Proof.
  induction s as [|c s IH]; [reflexivity|]. cbn [trimStart].
  destruct (is_space c) eqn:E; [exact IH|]. cbn [no_lead]. now rewrite E.
Qed.

Lemma no_lead_fixed (s : jsstring) : no_lead s = true -> trimStart s = s.
Proof.
  destruct s as [|c s]; [reflexivity|]. cbn [no_lead trimStart].
  now destruct (is_space c).
Qed.

Lemma trimStart_suffix (s : jsstring) : exists w, s = w ++ trimStart s.
Proof.
  induction s as [|c s [w IH]]; [now exists []|]. cbn [trimStart].
  destruct (is_space c); [|now exists []].
  exists (c :: w). cbn [app]. now rewrite <- IH.
Qed.

(** Trimming the start keeps the end as it is. *)
Lemma trimStart_keeps_end (s : jsstring) :
  no_lead (rev s) = true -> no_lead (rev (trimStart s)) = true.
Proof.
  intros H. destruct (trimStart_suffix s) as [w E].
  destruct (trimStart s) as [|c t] eqn:Et; [reflexivity|].
  rewrite E, rev_app_distr in H.
  destruct (rev (c :: t)) as [|d u] eqn:Er.
  - apply (f_equal (@length N)) in Er. rewrite length_rev in Er.
    discriminate.
  - exact H.
Qed.

Lemma trim_shape (s : jsstring) :
  no_lead (trim s) = true /\ no_lead (rev (trim s)) = true.
Proof.
  unfold trim. rewrite rev_involutive. split.
  - apply trimStart_keeps_end. rewrite rev_involutive.
    apply trimStart_no_lead.
  - apply trimStart_no_lead.
Qed.

Lemma trim_fixed (s : jsstring) :
  no_lead s = true -> no_lead (rev s) = true -> trim s = s.
Proof.
  intros H1 H2. unfold trim.
  now rewrite (no_lead_fixed s H1), (no_lead_fixed (rev s) H2), rev_involutive.
Qed.

Lemma trim_idempotent (s : jsstring) : trim (trim s) = trim s.
Proof. destruct (trim_shape s). now apply trim_fixed. Qed.

Lemma in_trimStart (c : N) (s : jsstring) : In c (trimStart s) -> In c s.
Proof.
  destruct (trimStart_suffix s) as [w E]. intros H. rewrite E.
  apply in_or_app. now right.
Qed.

Lemma in_trim (c : N) (s : jsstring) : In c (trim s) -> In c s.
Proof.
  unfold trim. intros H. apply in_rev in H. apply in_trimStart in H.
  apply in_rev in H. now apply in_trimStart in H.
Qed.

(* ================================================================== *)
(** * The edge function *)
(* ================================================================== *)

Lemma groups_lit_units (w : jsstring) : groups (lit_units w) = [].
Proof.
  induction w as [|c w IH]; [reflexivity|].
  destruct w; [reflexivity|exact IH].
Qed.

(** The group of the title pattern holds no line terminator. *)
Lemma naive_title_group (html : jsstring) (m : match_result)
      (g : jsstring) :
  regexp_exec Edge.title_re html = Some m -> group 1 m = Some g ->
  forallb (class_mem true true [CChar 10; CChar 13; CChar 8232; CChar 8233])
          g = true.
Proof.
  intros E Hg. apply regexp_exec_from_matcher in E as [s' Hin].
  change (re_ic Edge.title_re) with true in Hin.
  change (re_src Edge.title_re)
    with (Seq (lit "<title>")
              (Seq (Grp 1 (Star false Edge.dot)) (lit "</title>"))) in Hin.
  apply in_matcher_seq in Hin as (z & _ & Hin).
  apply in_matcher_seq in Hin as (z2 & Hz2 & Hin).
  apply matcher_keeps_cap with (i := 1) in Hin;
    [|unfold lit; rewrite groups_lit_units; intros []].
  unfold group in Hg. cbn [snd] in Hin. rewrite Hin in Hg. clear Hin.
  rewrite matcher_grp in Hz2. apply in_map_iff in Hz2 as (y & <- & Hy).
  cbn [snd] in Hg. rewrite get_set_cap_same in Hg. injection Hg as <-.
  destruct z as [sz cz]. unfold Edge.dot in Hy.
  apply in_class_star in Hy as (a & b & -> & Ha & ->).
  cbn [fst]. now rewrite firstn_prefix.
Qed.

Lemma not_line_terminator (c : N) :
  class_mem true true [CChar 10; CChar 13; CChar 8232; CChar 8233] c = true ->
  c <> 10%N /\ c <> 13%N /\ c <> 8232%N /\ c <> 8233%N.
Proof.
  intros H. repeat split; intros ->; discriminate.
Qed.

(** X14: the title [naiveParse] returns holds no line terminator and no
    whitespace at its ends; the summary is empty exactly when the title
    is; the content is the first 5000 code units of the page. *)
Theorem naiveParse_result (html url : jsstring) :
  let r := Edge.naiveParse html url in
  (forall c, In c (Edge.title r) ->
             c <> 10%N /\ c <> 13%N /\ c <> 8232%N /\ c <> 8233%N)
  /\ trim (Edge.title r) = Edge.title r
  /\ (Edge.summary r = [] <-> Edge.title r = [])
  /\ Edge.content r = firstn 5000 html
  /\ length (Edge.content r) <= 5000.
Proof.
  cbv zeta. unfold Edge.naiveParse.
  cbn [Edge.title Edge.summary Edge.content].
  split; [|split; [|split; [|split]]].
  - intros c Hc. apply in_trim in Hc.
    unfold Edge.first_group_or_empty in Hc.
    destruct (regexp_exec Edge.title_re html) as [m|] eqn:E; [|destruct Hc].
    destruct (group 1 m) as [g|] eqn:Eg; [|destruct Hc].
    pose proof (naive_title_group html m g E Eg) as Hg.
    rewrite forallb_forall in Hg. now apply not_line_terminator, Hg.
  - apply trim_idempotent.
  - destruct (trim (Edge.first_group_or_empty Edge.title_re html));
      cbn [truthy]; split; try reflexivity; discriminate.
  - now destruct html.
  - destruct html; [simpl; lia|]. cbn [truthy]. apply firstn_le_length.
Qed.

(* ================================================================== *)
(** * The Gmail client *)
(* ================================================================== *)

Lemma includes_app_r (v w s : jsstring) :
  includes (v ++ w) s = true -> includes w s = true.
Proof.
  rewrite !includes_spec. intros (b & a & ->).
  exists (b ++ v), a. now rewrite <- !app_assoc.
Qed.

Lemma lower_kelvin (a b : jsstring) :
  Gmail.toLowerCase (a ++ 8490%N :: b) = Gmail.toLowerCase (a ++ js "K" ++ b).
Proof.
  unfold Gmail.toLowerCase. now rewrite !flat_map_app.
Qed.

(** X15: [identifyNewsletter] reads the sender only, in lower case, and
    is decided by the first of five rules that applies; the tests on
    [tldrnewsletter] and on [daily.therundown] add nothing to those on
    [tldr] and on [rundown].  In the sender the Kelvin sign counts as
    the letter K, as [toLowerCase] turns both into [k]. *)
Theorem identifyNewsletter_rules (from subject : jsstring) :
  Gmail.identifyNewsletter from subject
  = first_tag newsletter_rules Gmail.unknown (Gmail.toLowerCase from)
  /\ (forall other, Gmail.identifyNewsletter from other
                    = Gmail.identifyNewsletter from subject)
  /\ (includes (js "tldr") (Gmail.toLowerCase from) = true ->
      In (Gmail.identifyNewsletter from subject) [Gmail.TheNeuron; Gmail.TLDR])
  /\ (forall a b, from = a ++ 8490%N :: b ->
                  Gmail.identifyNewsletter from subject
                  = Gmail.identifyNewsletter (a ++ js "K" ++ b) subject).
Proof.
  assert (E : forall sender,
             Gmail.identifyNewsletter sender subject
             = first_tag newsletter_rules Gmail.unknown
                         (Gmail.toLowerCase sender)).
  { intros sender.
    unfold Gmail.identifyNewsletter. cbn [first_tag newsletter_rules].
    set (s := Gmail.toLowerCase sender).
    destruct (includes (js "theneuron") s || includes (js "neurondaily") s);
      [reflexivity|].
    assert (H1 : includes (js "tldr") s || includes (js "tldrnewsletter") s
                 = includes (js "tldr") s).
    { destruct (includes (js "tldr") s) eqn:Ea; [reflexivity|].
      destruct (includes (js "tldrnewsletter") s) eqn:Eb; [|reflexivity].
      apply (includes_app_l (js "tldr") (js "newsletter")) in Eb.
      rewrite Eb in Ea. discriminate. }
    assert (H2 : includes (js "rundown") s
                 || includes (js "daily.therundown") s
                 = includes (js "rundown") s).
    { destruct (includes (js "rundown") s) eqn:Ea; [reflexivity|].
      destruct (includes (js "daily.therundown") s) eqn:Eb; [|reflexivity].
      apply (includes_app_r (js "daily.the") (js "rundown")) in Eb.
      rewrite Eb in Ea. discriminate. }
    rewrite H1, H2. reflexivity. }
  split; [apply E|]. split; [reflexivity|]. split.
  - rewrite E. cbn [first_tag newsletter_rules]. intros ->.
    destruct (_ || _); cbn; auto.
  - intros a b ->. now rewrite !E, lower_kelvin.
Qed.

Lemma identifyNewsletter_rules_witness :
  In (Gmail.identifyNewsletter (js "TLDR <dan@tldrnewsletter.com>")
                               (js "Today in tech"))
     [Gmail.TheNeuron; Gmail.TLDR].
Proof.
  apply (proj1 (proj2 (proj2 (identifyNewsletter_rules
                                (js "TLDR <dan@tldrnewsletter.com>")
                                (js "Today in tech"))))).
  reflexivity.
Defined.

(* ------------------------------------------------------------------ *)

(** With the [i] flag a text without capitals matches what its lower
    case equals. *)
Lemma canon_eq_lower (a b : N) :
  is_upper a = false ->
  (canon true a =? canon true b)%N = (a =? lower_unit b)%N.
Proof.
  unfold canon, lower_unit, is_upper, is_lower. cbn [andb]. intros Ha.
  destruct (N.leb_spec 97 a), (N.leb_spec a 122), (N.leb_spec 97 b),
    (N.leb_spec b 122), (N.leb_spec 65 b), (N.leb_spec b 90),
    (N.leb_spec 65 a), (N.leb_spec a 90);
    cbn [andb] in *; try discriminate;
    match goal with
    | |- (?x =? ?y)%N = (?u =? ?v)%N =>
        destruct (N.eqb_spec x y), (N.eqb_spec u v); try reflexivity; lia
    end.
Qed.

Lemma starts_with_ic_lower (w t : jsstring) :
  forallb (fun c => negb (is_upper c)) w = true ->
  starts_with_ic true w t = starts_with w (toLowerCase t).
Proof.
  revert t. induction w as [|a w IH]; intros t H; [reflexivity|].
  simpl in H. apply andb_true_iff in H as [Ha Hw].
  destruct t as [|b t]; [reflexivity|].
  cbn [starts_with_ic starts_with toLowerCase map].
  rewrite canon_eq_lower by now destruct (is_upper a).
  f_equal. now apply IH.
Qed.

Lemma test_found (re : RegExp) (s : jsstring) :
  test re s = true <-> exists a t, s = a ++ t /\ matches_at re t = true.
Proof.
  induction s as [|c s IH]; rewrite test_unfold.
  - rewrite orb_false_r. split.
    + intros H. now exists [], [].
    + intros (a & t & E & H). symmetry in E.
      apply app_eq_nil in E as [-> ->]. exact H.
  - rewrite orb_true_iff, IH. split.
    + intros [H|(a & t & -> & H)].
      * now exists [], (c :: s).
      * now exists (c :: a), t.
    + intros (a & t & E & H). destruct a as [|d a].
      * left. cbn [app] in E. now subst t.
      * right. injection E as -> ->. now exists a, t.
Qed.

Lemma includes_at_suffix (w a t : jsstring) :
  starts_with w t = true -> includes w (a ++ t) = true.
Proof.
  intros H. apply starts_with_spec in H as [rest ->].
  apply includes_spec. now exists a, rest.
Qed.

(** A pattern that is a text without capitals, with the [i] flag, is the
    search of the text in the lower-cased input. *)
Lemma test_text_lower (w s : jsstring) :
  forallb (fun c => negb (is_upper c)) w = true ->
  test (icase (lit_units w)) s = includes w (toLowerCase s).
Proof.
  intros Hw. induction s as [|c s IH];
    rewrite test_unfold, includes_unfold, matches_at_nonempty;
    cbn [re_ic re_src icase]; rewrite matcher_text;
    rewrite (starts_with_ic_lower w _ Hw).
  - cbn [toLowerCase map].
    now destruct (starts_with w []).
  - rewrite IH. cbn [toLowerCase map].
    now destruct (starts_with w (lower_unit c :: map lower_unit s)).
Qed.

Lemma orb_quad (a b c d : bool) : a || b || (c || d) = a || c || (b || d).
Proof. now destruct a, b, c, d. Qed.

Lemma test_alt (ic : bool) (r1 r2 : regex) (s : jsstring) :
  test {| re_src := Alt r1 r2; re_ic := ic |} s
  = test {| re_src := r1; re_ic := ic |} s
    || test {| re_src := r2; re_ic := ic |} s.
Proof.
  induction s as [|c s IH];
    rewrite (test_unfold {| re_src := Alt r1 r2; re_ic := ic |}),
      (test_unfold {| re_src := r1; re_ic := ic |}),
      (test_unfold {| re_src := r2; re_ic := ic |}),
      !matches_at_nonempty; cbn [re_ic re_src];
    rewrite matcher_alt, nonempty_app.
  - now rewrite !orb_false_r.
  - rewrite IH. apply orb_quad.
Qed.

Lemma test_alt_icase (r1 r2 : regex) (s : jsstring) :
  test (icase (Alt r1 r2)) s = test (icase r1) s || test (icase r2) s.
Proof. exact (test_alt true r1 r2 s). Qed.

Lemma nonempty_flat_map {A B} (f : A -> list B) (l : list A) :
  nonempty (flat_map f l) = existsb (fun x => nonempty (f x)) l.
Proof.
  induction l as [|a l IH]; [reflexivity|].
  cbn [flat_map existsb]. now rewrite nonempty_app, IH.
Qed.

Lemma existsb_map {A B} (p : B -> bool) (g : A -> B) (l : list A) :
  existsb p (map g l) = existsb (fun x => p (g x)) l.
Proof.
  induction l as [|a l IH]; [reflexivity|]. cbn [map existsb].
  now rewrite IH.
Qed.

(** An alternation of plain words tries them in their order. *)
Lemma matcher_words (ic : bool) (ws : list string) (s : jsstring)
      (caps : captures) :
  ws <> [] ->
  matcher ic (alts (map lit ws)) (s, caps)
  = flat_map (fun w => if starts_with_ic ic (js w) s
                       then [(skipn (length (js w)) s, caps)] else [])
             ws.
Proof.
  induction ws as [|w ws IH]; [contradiction|]. intros _.
  destruct ws as [|w' ws].
  - cbn [map alts flat_map]. rewrite matcher_lit_ic. now rewrite app_nil_r.
  - change (alts (map lit (w :: w' :: ws)))
      with (Alt (lit w) (alts (map lit (w' :: ws)))).
    rewrite matcher_alt, matcher_lit_ic, IH by discriminate.
    reflexivity.
Qed.

Lemma nonempty_query_or_end (s : jsstring) (caps : captures) :
  nonempty (matcher true (Grp 2 (Alt (lit "?") Eos)) (s, caps))
  = query_or_end s.
Proof.
  rewrite matcher_grp, nonempty_map, matcher_alt, nonempty_app,
    matcher_lit_ic.
  destruct s as [|c s]; [reflexivity|].
  cbn [js list_ascii_of_string map starts_with_ic matcher fst query_or_end].
  change (N_of_ascii "?") with 63%N.
  rewrite (canon_eq_sign true 63 c eq_refl eq_refl), andb_true_r, N.eqb_sym.
  destruct (c =? 63)%N; reflexivity.
Qed.

(** The image pattern at the start of a text: a dot, one of the seven
    extensions, then the end of the text or a question mark. *)
Lemma matches_at_image (t : jsstring) :
  matches_at Gmail.image_re t
  = existsb (fun e => starts_with_ic true e t
                      && query_or_end (skipn (length e) t))
            image_suffixes.
Proof.
  rewrite matches_at_nonempty.
  change (re_ic Gmail.image_re) with true.
  change (re_src Gmail.image_re)
    with (Seq (lit_units [46%N])
              (Seq (Grp 1 (alts (map lit image_extensions)))
                   (Grp 2 (Alt (lit "?") Eos)))).
  rewrite matcher_seq_text.
  change image_suffixes
    with (map (fun e => 46%N :: js e) image_extensions).
  rewrite existsb_map.
  destruct (starts_with_ic true [46%N] t) eqn:E.
  - rewrite matcher_seq, matcher_grp, flat_map_of_map,
      matcher_words by discriminate.
    rewrite nonempty_flat_map.
    generalize image_extensions as exts.
    induction exts as [|e exts IH]; [reflexivity|].
    cbn [flat_map existsb]. rewrite existsb_app, IH. f_equal.
    change (46%N :: js e) with ([46%N] ++ js e).
    rewrite starts_with_ic_split, E. cbn [andb length app].
    destruct (starts_with_ic true (js e) (skipn 1 t)); [|reflexivity].
    cbn [existsb fst snd]. rewrite orb_false_r.
    rewrite nonempty_query_or_end. f_equal.
    change (S (length (js e))) with (1 + length (js e)).
    rewrite Nat.add_comm, <- skipn_skipn. reflexivity.
  - cbn [nonempty]. symmetry. apply not_true_is_false. intros H.
    apply existsb_exists in H as (e & _ & H).
    apply andb_true_iff in H as [H _].
    change (46%N :: js e) with ([46%N] ++ js e) in H.
    rewrite starts_with_ic_split, E in H. discriminate.
Qed.

Lemma nonempty_in {A} (l : list A) : nonempty l = true -> exists y, In y l.
Proof. destruct l as [|y l]; [discriminate|]. intros _. exists y. now left. Qed.

(** The two patterns of hosts need a dot and one of three extensions
    somewhere in the text. *)
Lemma hosted_needs_image (w : string) (t : jsstring) :
  matches_at (Gmail.hosted_re w) t = true ->
  exists e a t', In e hosted_extensions /\ t = a ++ t'
                 /\ starts_with_ic true (46%N :: js e) t' = true.
Proof.
  rewrite matches_at_nonempty. intros H.
  apply nonempty_in in H as [y Hy].
  change (re_ic (Gmail.hosted_re w)) with true in Hy.
  change (re_src (Gmail.hosted_re w))
    with (Seq (lit w)
              (Seq (Star true Edge.dot)
                   (Seq (lit ".")
                        (Grp 1 (alts (map lit hosted_extensions)))))) in Hy.
  apply in_matcher_seq in Hy as (z1 & Hz1 & Hy).
  apply in_matcher_seq in Hy as (z2 & Hz2 & Hy).
  apply in_matcher_seq in Hy as (z3 & Hz3 & Hy).
  apply matcher_reads in Hz1 as [w1 E1]. apply matcher_reads in Hz2 as [w2 E2].
  cbn [fst] in E1. destruct z2 as [s2 c2]. cbn [fst] in E2.
  rewrite matcher_lit_ic in Hz3.
  destruct (starts_with_ic true (js ".") s2) eqn:Ed; [|destruct Hz3].
  destruct Hz3 as [<-|[]].
  rewrite matcher_grp in Hy. apply in_map_iff in Hy as (y' & _ & Hy).
  rewrite matcher_words in Hy by discriminate.
  apply in_flat_map in Hy as (e & He & Hy).
  destruct (starts_with_ic true (js e) (skipn (length (js ".")) s2)) eqn:Ee;
    [|destruct Hy].
  exists e, (w1 ++ w2), s2. split; [exact He|]. split.
  - now rewrite E1, E2, app_assoc.
  - change (46%N :: js e) with (js "." ++ js e).
    now rewrite starts_with_ic_split, Ed, Ee.
Qed.

Lemma starts_with_refl (w : jsstring) : starts_with w w = true.
Proof. rewrite <- (app_nil_r w) at 2. apply starts_with_app. Qed.

Lemma lower_unit_question (c : N) : lower_unit c = 63%N -> c = 63%N.
Proof.
  unfold lower_unit, is_upper.
  destruct (N.leb_spec 65 c), (N.leb_spec c 90); cbn [andb]; lia.
Qed.

Lemma image_suffixes_lower (e : jsstring) :
  In e image_suffixes -> forallb (fun c => negb (is_upper c)) e = true.
Proof.
  assert (H : forallb (fun e => forallb (fun c => negb (is_upper c)) e)
                      image_suffixes = true) by reflexivity.
  rewrite forallb_forall in H. apply H.
Qed.

(** A URL whose lower case ends in an image extension, or holds one
    before a question mark, is found by the image pattern. *)
Lemma image_pattern_finds (e url : jsstring) :
  In e image_suffixes ->
  endsWith e (toLowerCase url) || includes (e ++ js "?") (toLowerCase url)
  = true ->
  test Gmail.image_re url = true.
Proof.
  intros He H. pose proof (image_suffixes_lower e He) as Hl.
  apply test_found. apply orb_true_iff in H as [H|H].
  - apply endsWith_spec in H as [before H].
    unfold toLowerCase in H. apply map_eq_app in H as (a & t & -> & _ & Ht).
    exists a, t. split; [reflexivity|].
    rewrite matches_at_image. apply existsb_exists. exists e.
    split; [exact He|].
    rewrite (starts_with_ic_lower e t Hl). unfold toLowerCase.
    rewrite Ht, starts_with_refl.
    rewrite skipn_all2; [reflexivity|].
    rewrite <- Ht, length_map. apply Nat.le_refl.
  - apply includes_spec in H as (before & after & H).
    unfold toLowerCase in H.
    apply map_eq_app in H as (a & t & -> & _ & Ht).
    apply map_eq_app in Ht as (t1 & t2 & -> & Ht1 & _).
    apply map_eq_app in Ht1 as (u & v & -> & Hu & Hv).
    destruct v as [|c [|d v]]; try discriminate.
    injection Hv as Hc. apply lower_unit_question in Hc. subst c.
    exists a, ((u ++ [63%N]) ++ t2). split; [reflexivity|].
    rewrite matches_at_image. apply existsb_exists. exists e.
    split; [exact He|].
    rewrite (starts_with_ic_lower e _ Hl). unfold toLowerCase.
    rewrite <- !app_assoc, map_app, Hu, starts_with_app.
    assert (El : length u = length e) by (rewrite <- Hu; now rewrite length_map).
    rewrite <- El, skipn_length_app. reflexivity.
Qed.

Lemma image_pattern_needs (s : jsstring) :
  test Gmail.image_re s = true ->
  existsb (fun e => includes e (toLowerCase s)) image_suffixes = true.
Proof.
  intros H. apply test_found in H as (a & t & -> & H).
  rewrite matches_at_image in H. apply existsb_exists in H as (e & He & H).
  apply andb_true_iff in H as [H _].
  rewrite (starts_with_ic_lower e t (image_suffixes_lower e He)) in H.
  apply existsb_exists. exists e. split; [exact He|].
  rewrite toLowerCase_app. now apply includes_at_suffix.
Qed.

Lemma hosted_pattern_needs (w : string) (s : jsstring) :
  test (Gmail.hosted_re w) s = true ->
  existsb (fun e => includes e (toLowerCase s)) image_suffixes = true.
Proof.
  intros H. apply test_found in H as (a & t & -> & H).
  apply hosted_needs_image in H as (e & b & t' & He & -> & H).
  assert (Hin : In (46%N :: js e) image_suffixes).
  { destruct He as [<-|[<-|[<-|[]]]]; cbn; auto 8. }
  rewrite (starts_with_ic_lower _ t' (image_suffixes_lower _ Hin)) in H.
  apply existsb_exists. exists (46%N :: js e). split; [exact Hin|].
  rewrite app_assoc, toLowerCase_app. now apply includes_at_suffix.
Qed.

(** The patterns of [shouldIncludeUrl] that are plain words, as searches
    in the lower-cased URL. *)
Lemma word_patterns (url : jsstring) :
  let s := toLowerCase url in
  test (icase (lit "unsubscribe")) url = includes (js "unsubscribe") s
  /\ test (icase (alts [lit "pixel"; lit "tracking"; lit "analytics"])) url
     = includes (js "pixel") s || (includes (js "tracking") s
                                   || includes (js "analytics") s)
  /\ test (icase (lit "facebook.com/tr")) url
     = includes (js "facebook.com/tr") s
  /\ test (icase (lit "google-analytics.com")) url
     = includes (js "google-analytics.com") s
  /\ test (icase (lit "doubleclick.net")) url
     = includes (js "doubleclick.net") s.
Proof.
  cbv zeta. unfold lit. repeat split; try (now apply test_text_lower).
  cbn [alts]. rewrite !test_alt_icase.
  now rewrite !(test_text_lower _ url) by reflexivity.
Qed.

(** X16: [shouldIncludeUrl] refuses a URL that holds, in any case, one
    of the words unsubscribe, pixel, tracking, analytics, facebook.com/tr
    or doubleclick.net, and a URL with an image extension at its end or
    before a question mark; it accepts every URL that holds none of these
    words and none of the image extensions. *)
Theorem shouldIncludeUrl_rules (url : jsstring) :
  let s := toLowerCase url in
  (existsb (fun w => includes w s) exclusion_words = true ->
   Gmail.shouldIncludeUrl url = false)
  /\ (existsb (fun e => endsWith e s || includes (e ++ js "?") s)
              image_suffixes = true ->
      Gmail.shouldIncludeUrl url = false)
  /\ (existsb (fun w => includes w s) exclusion_words = false ->
      existsb (fun e => includes e s) image_suffixes = false ->
      Gmail.shouldIncludeUrl url = true).
Proof.
  cbv zeta. destruct (word_patterns url) as (W1 & W3 & W4 & W5 & W6).
  unfold Gmail.shouldIncludeUrl.
  cbn [existsb Gmail.excludePatterns exclusion_words].
  rewrite W1, W3, W4, W5, W6. clear W1 W3 W4 W5 W6.
  set (s := toLowerCase url).
  split; [|split].
  - intros H.
    destruct (includes (js "unsubscribe") s); [reflexivity|].
    destruct (includes (js "pixel") s); [now rewrite !orb_true_r|].
    destruct (includes (js "tracking") s); [now rewrite !orb_true_r|].
    destruct (includes (js "analytics") s); [now rewrite !orb_true_r|].
    destruct (includes (js "facebook.com/tr") s); [now rewrite !orb_true_r|].
    destruct (includes (js "doubleclick.net") s); [now rewrite !orb_true_r|].
    discriminate.
  - intros H. apply existsb_exists in H as (e & He & H).
    rewrite (image_pattern_finds e url He H). now rewrite orb_true_r.
  - intros Hw Hi.
    destruct (includes (js "unsubscribe") s); [discriminate|].
    destruct (includes (js "pixel") s); [discriminate|].
    destruct (includes (js "tracking") s); [discriminate|].
    destruct (includes (js "analytics") s) eqn:Ea; [discriminate|].
    destruct (includes (js "facebook.com/tr") s); [discriminate|].
    destruct (includes (js "doubleclick.net") s); [discriminate|].
    assert (E5 : includes (js "google-analytics.com") s = false).
    { destruct (includes (js "google-analytics.com") s) eqn:E;
        [|reflexivity].
      apply (includes_app_r (js "google-") (js "analytics.com")) in E.
      apply (includes_app_l (js "analytics") (js ".com")) in E.
      rewrite E in Ea. discriminate. }
    rewrite E5.
    assert (E2 : test Gmail.image_re url = false).
    { destruct (test Gmail.image_re url) eqn:E; [|reflexivity].
      apply image_pattern_needs in E. fold s in E. rewrite E in Hi.
      discriminate. }
    rewrite E2.
    assert (E7 : forall w, test (Gmail.hosted_re w) url = false).
    { intros w. destruct (test (Gmail.hosted_re w) url) eqn:E; [|reflexivity].
      apply hosted_pattern_needs in E. fold s in E. rewrite E in Hi.
      discriminate. }
    rewrite !E7. reflexivity.
Qed.

Lemma shouldIncludeUrl_rules_witness :
  Gmail.shouldIncludeUrl (js "https://example.com/Unsubscribe?u=7") = false
  /\ Gmail.shouldIncludeUrl (js "https://example.com/logo.PNG") = false
  /\ Gmail.shouldIncludeUrl (js "https://example.com/story") = true.
Proof.
  split; [|split].
  - apply (proj1 (shouldIncludeUrl_rules _)). reflexivity.
  - apply (proj1 (proj2 (shouldIncludeUrl_rules _))). reflexivity.
  - apply (proj2 (proj2 (shouldIncludeUrl_rules _))); reflexivity.
Defined.

(* ================================================================== *)
(** * Hyphens in the title element *)
(* ================================================================== *)

(** The title pattern at a title element of text [t]. *)
Lemma title_here (t rest : jsstring) :
  free_of 60 t = true ->
  match_here title_re (js "<title>" ++ t ++ js "</title>" ++ rest)
  = Some {| m_before := []; m_text := js "<title>" ++ t ++ js "</title>";
            m_caps := [None; Some t]; m_after := rest |}.
Proof.
  intros Ht.
  assert (exists l,
             matcher true (re_src title_re)
                     (js "<title>" ++ t ++ js "</title>" ++ rest, [])
             = (rest, [None; Some t]) :: l) as [l Hl].
  { unfold title_re, icase. cbn [re_src seqs]. unfold lit at 1.
    change (js "<title>" ++ t ++ js "</title>" ++ rest)
      with (js "<title" ++ (62 :: t ++ js "</title>" ++ rest))%N.
    rewrite matcher_seq_text_app, matcher_seq.
    unfold not_gt. rewrite class_star_cons.
    replace (class_mem true true [CChar (ch ">")] 62) with false
      by reflexivity.
    cbn [flat_map]. rewrite app_nil_r. unfold lit at 1.
    change (62 :: t ++ js "</title>" ++ rest)%N
      with (js ">" ++ (t ++ js "</title>" ++ rest)).
    rewrite matcher_seq_text_app, matcher_seq, matcher_grp.
    rewrite flat_map_of_map. unfold any.
    destruct (lazy_star_first true false [CSpace; CNonSpace]
                (fun y =>
                   matcher true (lit "</title>")
                     (fst y,
                      set_cap 1
                        (Some (firstn
                                 (length (fst (t ++ js "</title>" ++ rest,
                                               @nil (option jsstring)))
                                  - length (fst y))
                                 (fst (t ++ js "</title>" ++ rest,
                                       @nil (option jsstring)))))
                        (snd y)))
                t (js "</title>" ++ rest) [] (forallb_any _ _)) as [l Hl].
    - intros a b -> Hb. destruct b as [|c b]; [congruence|].
      unfold free_of in Ht. rewrite forallb_app in Ht.
      apply andb_true_iff in Ht as [_ Ht]. cbn [forallb] in Ht.
      apply andb_true_iff in Ht as [Hc _]. apply negb_true_iff in Hc.
      cbn [fst]. unfold lit. rewrite matcher_text.
      change (js "</title>") with (60 :: js "/title>")%N. cbn [app].
      rewrite starts_with_ic_sign; [reflexivity|reflexivity|reflexivity|].
      now rewrite N.eqb_sym.
    - exists l. etransitivity; [exact Hl|].
      cbn [fst snd]. rewrite firstn_prefix.
      unfold lit. now rewrite matcher_text_app. }
  rewrite (match_here_first title_re _ _ _ _ Hl). f_equal. f_equal.
  replace (js "<title>" ++ t ++ js "</title>" ++ rest)
    with ((js "<title>" ++ t ++ js "</title>") ++ rest)
    by now rewrite <- !app_assoc.
  apply firstn_prefix.
Qed.

Lemma title_match (t rest : jsstring) :
  free_of 60 t = true ->
  regexp_exec title_re (page_titled t rest)
  = Some {| m_before := js "<html><head>";
            m_text := js "<title>" ++ t ++ js "</title>";
            m_caps := [None; Some t]; m_after := rest |}.
Proof.
  intros Ht. unfold page_titled.
  change (js "<html><head><title>" ++ t ++ js "</title>" ++ rest)
    with (js "<html><head>" ++ (js "<title>" ++ t ++ js "</title>" ++ rest)).
  rewrite (regexp_exec_skip_prefix title_re (js "<title")
             (seqs [Star true not_gt; lit ">"; Grp 1 (Star false any);
                    lit "</title>"])).
  - rewrite (regexp_exec_here title_re _ _ (title_here t rest Ht)).
    cbn [option_map m_before m_text m_caps m_after]. now rewrite app_nil_r.
  - reflexivity.
  - intros a b Hab Hb. spell Hab.
    cut_cases Hab; try reflexivity. congruence.
Qed.

(** A pattern that begins with a sign finds nothing in a text without
    that sign. *)
Lemma regexp_exec_absent (re : RegExp) (e : N) (r : regex) (s : jsstring) :
  re_src re = Seq (lit_units [e]) r ->
  is_lower e = false -> is_upper e = false ->
  free_of e s = true -> regexp_exec re s = None.
Proof.
  intros Hre Hl Hu. induction s as [|c s IH]; intros Hs.
  - cbn [regexp_exec].
    now rewrite (match_here_text_fails re [e] r [] Hre eq_refl).
  - rewrite free_of_cons in Hs. apply andb_true_iff in Hs as [Hc Hs].
    apply negb_true_iff in Hc.
    rewrite regexp_exec_skip.
    + now rewrite (IH Hs).
    + apply (match_here_text_fails re [e] r _ Hre).
      apply starts_with_ic_sign; [exact Hl|exact Hu|].
      now rewrite N.eqb_sym.
Qed.

Lemma replace_all_absent (re : RegExp) (by_ s : jsstring) :
  regexp_exec re s = None -> replace_all re by_ s = s.
Proof. intros H. now rewrite replace_all_unfold, H. Qed.

Lemma alnum_range (c : N) :
  alnum c || (c =? 45)%N = true -> (45 <= c <= 122)%N /\ c <> 60%N.
Proof.
  unfold alnum, is_digit, is_upper, is_lower.
  destruct (N.leb_spec 48 c), (N.leb_spec c 57), (N.leb_spec 65 c),
    (N.leb_spec c 90), (N.leb_spec 97 c), (N.leb_spec c 122),
    (N.eqb_spec c 45); cbn [andb orb]; intros Hyp; try discriminate; lia.
Qed.

Ltac decide_comparisons :=
  repeat match goal with
    | |- context [(?x <=? ?y)%N] =>
        destruct (N.leb_spec x y); try lia
    | |- context [(?x =? ?y)%N] =>
        destruct (N.eqb_spec x y); try lia
    end.

Lemma alnum_facts (c : N) :
  alnum c || (c =? 45)%N = true ->
  is_space c = false /\ (c =? 60)%N = false /\ (c =? 38)%N = false
  /\ (c =? 124)%N = false /\ (c =? 8212)%N = false.
Proof.
  intros H. apply alnum_range in H as [H1 H2].
  unfold is_space. repeat split; decide_comparisons; reflexivity.
Qed.

Lemma forallb_facts (P Q : N -> bool) (t : jsstring) :
  (forall c, P c = true -> Q c = true) ->
  forallb P t = true -> forallb Q t = true.
Proof. apply forallb_weaken. Qed.

Lemma collapse_no_space (t : jsstring) :
  forallb (fun c => negb (is_space c)) t = true -> collapse_from false t = t.
Proof.
  induction t as [|c t IH]; [reflexivity|]. simpl. intros H.
  apply andb_true_iff in H as [Hc Ht]. apply negb_true_iff in Hc.
  now rewrite Hc, IH.
Qed.

Lemma trim_no_space (t : jsstring) :
  forallb (fun c => negb (is_space c)) t = true -> trim t = t.
Proof.
  intros H. apply trim_fixed.
  - destruct t as [|c t]; [reflexivity|]. simpl in H.
    now apply andb_true_iff in H as [Hc _].
  - rewrite <- forallb_reversed in H.
    destruct (rev t) as [|c u]; [reflexivity|]. simpl in H.
    now apply andb_true_iff in H as [Hc _].
Qed.

(** A text of letters, digits and hyphens is left as it is. *)
Lemma cleanText_plain_word (t : jsstring) :
  forallb (fun c => alnum c || (c =? 45)%N) t = true -> cleanText t = t.
Proof.
  intros H. unfold cleanText. destruct t as [|c0 t0] eqn:Et; [reflexivity|].
  rewrite <- Et in *. replace (truthy t) with true by now subst.
  cbn [negb].
  assert (Hs : forallb (fun c => negb (is_space c)) t = true).
  { apply forallb_weaken with (2 := H). intros c Hc.
    apply alnum_facts in Hc as (-> & _). reflexivity. }
  assert (H60 : free_of 60 t = true).
  { apply forallb_weaken with (2 := H). intros c Hc.
    apply alnum_facts in Hc as (_ & -> & _). reflexivity. }
  assert (H38 : free_of 38 t = true).
  { apply forallb_weaken with (2 := H). intros c Hc.
    apply alnum_facts in Hc as (_ & _ & -> & _). reflexivity. }
  rewrite (replace_all_absent tag_re);
    [|apply (regexp_exec_absent tag_re 60
               (seqs [Star true not_gt; lit ">"])); auto].
  rewrite (replace_all_absent nbsp_re);
    [|apply (regexp_exec_absent nbsp_re 38 (lit "nbsp;")); auto].
  rewrite (replace_all_absent entity_re);
    [|apply (regexp_exec_absent entity_re 38
               (seqs [Plus true (Cls false [CChar (ch "#");
                                            CRange (ch "a") (ch "z");
                                            CRange (ch "0") (ch "9")]);
                      lit ";"])); auto].
  rewrite replace_spaces_collapse, (collapse_no_space t Hs).
  now apply trim_no_space.
Qed.

(** The site-name pattern does not start at a letter or a digit. *)
Lemma site_name_not_here (c : N) (s : jsstring) :
  alnum c = true -> match_here site_name_re (c :: s) = None.
Proof.
  intros Hc. apply match_here_none.
  assert (Ha : alnum c || (c =? 45)%N = true) by now rewrite Hc.
  apply alnum_facts in Ha as (Hs & _ & _ & H124 & H8212).
  assert (H45 : (c =? 45)%N = false).
  { unfold alnum, is_digit, is_upper, is_lower in Hc.
    destruct (N.eqb_spec c 45); [subst c; discriminate|reflexivity]. }
  unfold site_name_re, csens. cbn [re_src re_ic seqs].
  rewrite matcher_seq. unfold space. rewrite class_star_cons.
  replace (class_mem false false [CSpace] c) with false
    by (unfold class_mem; cbn; now rewrite Hs).
  cbn [flat_map]. rewrite app_nil_r, matcher_seq_class.
  replace (class_mem false false
             [CChar (ch "|"); CChar (ch "-"); CChar 8212] c) with false;
    [reflexivity|].
  unfold class_mem. cbn [existsb item_mem canon andb xorb].
  change (ch "|") with 124%N. change (ch "-") with 45%N.
  rewrite (N.eqb_sym 124), (N.eqb_sym 45), (N.eqb_sym 8212).
  now rewrite H124, H45, H8212.
Qed.

(** At a hyphen followed by letters and digits the site-name pattern
    takes all that is left. *)
Lemma site_name_at_hyphen (b : jsstring) :
  forallb alnum b = true -> b <> [] ->
  match_here site_name_re (45%N :: b)
  = Some {| m_before := []; m_text := 45%N :: b; m_caps := [];
            m_after := [] |}.
Proof.
  intros Hb Hn.
  assert (Hbar : forallb (class_mem false true [CChar (ch "|")]) b = true).
  { apply forallb_weaken with (2 := Hb). intros c Hc.
    assert (Ha : alnum c || (c =? 45)%N = true) by now rewrite Hc.
    apply alnum_facts in Ha as (_ & _ & _ & H124 & _).
    change (ch "|") with 124%N.
    rewrite not_sign_member by reflexivity. now rewrite H124. }
  destruct b as [|c b]; [contradiction|].
  simpl in Hb. apply andb_true_iff in Hb as [Hc Hb].
  assert (Ha : alnum c || (c =? 45)%N = true) by now rewrite Hc.
  apply alnum_facts in Ha as (Hs & _).
  cbn [forallb] in Hbar. apply andb_true_iff in Hbar as [Hcbar Hbar].
  assert (exists l, matcher false (re_src site_name_re) (45%N :: c :: b, [])
                    = ([], []) :: l) as [l Hl].
  { unfold site_name_re, csens. cbn [re_src seqs].
    rewrite matcher_seq. unfold space. rewrite class_star_cons.
    replace (class_mem false false [CSpace] 45) with false by reflexivity.
    cbn [flat_map]. rewrite app_nil_r, matcher_seq_class.
    replace (class_mem false false
               [CChar (ch "|"); CChar (ch "-"); CChar 8212] 45)
      with true by reflexivity.
    rewrite matcher_seq, class_star_cons.
    replace (class_mem false false [CSpace] c) with false
      by (unfold class_mem; cbn; now rewrite Hs).
    cbn [flat_map]. rewrite app_nil_r, matcher_seq, class_plus_cons, Hcbar.
    destruct (greedy_star_first false true [CChar (ch "|")]
                (matcher false Eos) b [] [] Hbar) as [l Hl].
    - intros a' b' E Ha'. symmetry in E.
      apply app_eq_nil in E as [-> _]. contradiction.
    - exists l. rewrite app_nil_r in Hl. exact Hl. }
  rewrite (match_here_first site_name_re _ _ _ _ Hl). f_equal. f_equal.
  cbn [length Nat.sub firstn]. now rewrite firstn_all.
Qed.

Lemma site_name_cut (a b : jsstring) :
  forallb alnum a = true -> forallb alnum b = true -> b <> [] ->
  replace_first site_name_re [] (a ++ 45%N :: b) = a.
Proof.
  intros Ha Hb Hn. unfold replace_first.
  assert (E : regexp_exec site_name_re (a ++ 45%N :: b)
              = Some {| m_before := a; m_text := 45%N :: b; m_caps := [];
                        m_after := [] |}).
  { induction a as [|c a IH].
    - apply regexp_exec_here. now apply site_name_at_hyphen.
    - simpl in Ha. apply andb_true_iff in Ha as [Hc Ha].
      cbn [app]. rewrite regexp_exec_skip by now apply site_name_not_here.
      now rewrite (IH Ha). }
  rewrite E. cbn [m_before m_after]. now rewrite !app_nil_r.
Qed.

Lemma group_if_any_some (i : nat) (m : match_result) (g : jsstring) :
  group i m = Some g -> g <> [] -> group_if_any i (Some m) = Some g.
Proof.
  unfold group_if_any. intros -> H. destruct g; [contradiction|reflexivity].
Qed.

(** X17: when the [title] element of a page holds two runs of letters
    and digits joined by a hyphen, the candidate [extractTitle] takes
    from it is the first run alone: the pattern for a site name removes
    everything from the hyphen on; without an og:title, a twitter:title
    and an [h1] this is the title. *)
Theorem hyphen_cuts_title (a b rest : jsstring) :
  forallb alnum a = true -> forallb alnum b = true -> b <> [] ->
  let doc := page_titled (a ++ js "-" ++ b) rest in
  title_tag_candidate doc = a
  /\ (extractMetaTag "og:title" doc = [] ->
      extractMetaTag "twitter:title" doc = [] ->
      h1_candidate doc = [] -> extractTitle doc = a).
Proof.
  intros Ha Hb Hn. cbv zeta.
  assert (Hw : forallb (fun c => alnum c || (c =? 45)%N) (a ++ js "-" ++ b)
               = true).
  { rewrite !forallb_app. cbn [js list_ascii_of_string map forallb].
    change (N_of_ascii "-") with 45%N. cbn [N.eqb Pos.eqb orb andb].
    rewrite orb_true_r. cbn [andb].
    apply andb_true_iff. split.
    - apply forallb_weaken with (2 := Ha). now intros c ->.
    - apply forallb_weaken with (2 := Hb). now intros c ->. }
  assert (H60 : free_of 60 (a ++ js "-" ++ b) = true).
  { apply forallb_weaken with (2 := Hw). intros c Hc.
    apply alnum_facts in Hc as (_ & -> & _). reflexivity. }
  assert (Ht : title_tag_candidate (page_titled (a ++ js "-" ++ b) rest) = a).
  { unfold title_tag_candidate. rewrite (title_match _ rest H60).
    rewrite (group_if_any_some 1 _ (a ++ js "-" ++ b));
      [|reflexivity|destruct a; discriminate].
    rewrite (cleanText_plain_word _ Hw).
    change (js "-" ++ b) with (45%N :: b).
    rewrite (site_name_cut a b Ha Hb Hn).
    apply trim_no_space. apply forallb_weaken with (2 := Ha). intros d Hd.
    assert (Hd' : alnum d || (d =? 45)%N = true) by now rewrite Hd.
    apply alnum_facts in Hd' as (-> & _). reflexivity. }
  split; [exact Ht|].
  intros H1 H2 H3. unfold extractTitle. rewrite H1, H2, H3, Ht.
  cbn [truthy]. now destruct a.
Qed.

Lemma hyphen_cuts_title_witness :
  title_tag_candidate
    (page_titled (js "Spider-Man") (js "</head><body></body></html>"))
  = js "Spider".
Proof.
  apply (proj1 (hyphen_cuts_title (js "Spider") (js "Man")
                  (js "</head><body></body></html>")
                  eq_refl eq_refl ltac:(discriminate))).
Defined.

(* ================================================================== *)
(** * The .env file *)
(* ================================================================== *)

Lemma split_on_nonempty (sep : N) (piece s : jsstring) :
  Env.split_on sep piece s <> [].
Proof.
  revert piece. induction s as [|c s IH]; intros piece; cbn [Env.split_on].
  - discriminate.
  - destruct (c =? sep)%N; [discriminate|apply IH].
Qed.

Lemma split_on_free (sep : N) (piece s : jsstring) :
  free_of sep s = true -> Env.split_on sep piece s = [rev piece ++ s].
Proof.
  revert piece. induction s as [|c s IH]; intros piece H; cbn [Env.split_on].
  - now rewrite app_nil_r.
  - rewrite free_of_cons in H. apply andb_true_iff in H as [Hc Hs].
    apply negb_true_iff in Hc. rewrite Hc, (IH _ Hs). cbn [rev].
    now rewrite <- app_assoc.
Qed.

Lemma split_on_app (sep : N) (piece a b : jsstring) :
  free_of sep a = true ->
  Env.split_on sep piece (a ++ sep :: b)
  = (rev piece ++ a) :: Env.split_on sep [] b.
Proof.
  revert piece. induction a as [|c a IH]; intros piece H;
    cbn [app Env.split_on].
  - now rewrite N.eqb_refl, app_nil_r.
  - rewrite free_of_cons in H. apply andb_true_iff in H as [Hc Ha].
    apply negb_true_iff in Hc. rewrite Hc, (IH _ Ha). cbn [rev].
    now rewrite <- app_assoc.
Qed.

(** Joining the pieces of a split with the separator gives the text
    back. *)
Lemma join_split_on (sep : N) (piece s : jsstring) :
  join [sep] (Env.split_on sep piece s) = rev piece ++ s.
Proof.
  revert piece. induction s as [|c s IH]; intros piece; cbn [Env.split_on].
  - cbn [join]. now rewrite app_nil_r.
  - destruct (N.eqb_spec c sep) as [-> |Hc].
    + rewrite join_cons by apply split_on_nonempty.
      now rewrite IH.
    + rewrite IH. cbn [rev]. now rewrite <- app_assoc.
Qed.

(** Splitting lines that were joined gives the lines back. *)
Lemma split_on_join (sep : N) (lines : list jsstring) :
  lines <> [] -> Forall (fun l => free_of sep l = true) lines ->
  Env.split_on sep [] (join [sep] lines) = lines.
Proof.
  induction lines as [|l lines IH]; [contradiction|]. intros _ H.
  inversion H as [|? ? Hl Hls]; subst.
  destruct lines as [|l' lines].
  - cbn [join]. now rewrite split_on_free.
  - rewrite join_cons by discriminate. cbn [app].
    rewrite split_on_app by exact Hl. cbn [rev app]. f_equal.
    apply IH; [discriminate|exact Hls].
Qed.

(** A line [key=value]: the value is all that follows the first [=]. *)
Lemma read_line_pair (e : Env.env) (k v : jsstring) :
  k <> [] -> free_of 61 k = true ->
  Env.read_line e (k ++ js "=" ++ v)
  = Env.set_property (trim k) (trim v) e.
Proof.
  intros Hk Hf. unfold Env.read_line.
  change (k ++ js "=" ++ v) with (k ++ 61%N :: v).
  rewrite split_on_app by exact Hf. cbn [rev app].
  destruct (Env.split_on 61 [] v) as [|p ps] eqn:E.
  { now apply split_on_nonempty in E. }
  replace (truthy k) with true by now destruct k.
  cbn [length Nat.ltb Nat.leb andb].
  rewrite <- E. change (js "=") with [61%N].
  now rewrite join_split_on.
Qed.

Lemma read_line_skips (e : Env.env) (line : jsstring) :
  free_of 61 line = true \/ (exists v, line = js "=" ++ v) ->
  Env.read_line e line = e.
Proof.
  unfold Env.read_line. intros [H|[v ->]].
  - rewrite split_on_free by exact H. cbn [length Nat.ltb Nat.leb].
    now rewrite andb_false_r.
  - reflexivity.
Qed.

Lemma assign_fresh (k v : jsstring) (e : Env.env) :
  ~ In k (map fst e) -> Env.assign k v e = e ++ [(k, v)].
Proof.
  induction e as [|[k' v'] e IH]; [reflexivity|]. cbn [map fst In].
  intros H. cbn [Env.assign app].
  destruct (jseqb k k') eqn:E.
  - apply jseqb_true in E. subst k'. exfalso. apply H. now left.
  - f_equal. apply IH. intros Hin. apply H. now right.
Qed.

Lemma read_lines_entries (entries e : Env.env) :
  NoDup (map fst (e ++ entries)) -> Forall Env.storable entries ->
  fold_left Env.read_line
            (map (fun kv => fst kv ++ js "=" ++ snd kv) entries) e
  = e ++ entries.
Proof.
  revert e. induction entries as [|[k v] entries IH]; intros e Hd Hs.
  - now rewrite app_nil_r.
  - inversion Hs as [|? ? Hkv Hrest]; subst.
    destruct Hkv as (Hk & Htk & H61 & _ & Hp & Htv & _). cbn [fst snd] in *.
    cbn [map fold_left fst snd].
    rewrite read_line_pair by assumption. rewrite Htk, Htv.
    unfold Env.set_property.
    replace (jseqb k (js "__proto__")) with false.
    2:{ symmetry. destruct (jseqb k (js "__proto__")) eqn:E; [|reflexivity].
        apply jseqb_true in E. contradiction. }
    rewrite assign_fresh.
    + rewrite IH; [now rewrite <- app_assoc| |exact Hrest].
      now rewrite <- app_assoc.
    + rewrite map_app in Hd. cbn [map fst] in Hd.
      apply NoDup_remove_2 in Hd. intros Hin. apply Hd.
      apply in_or_app. now left.
Qed.

(** X18: what [saveEnv] writes, [loadEnv] reads back: for keys that are
    distinct, not empty, without [=] and line feed, without blanks at
    their ends and without a digit at their start, and values without
    line feed and without blanks at their ends, the entries come back as
    they were, in their order.  The values may hold the sign [=]. *)
Theorem env_round_trip (entries : Env.env) :
  NoDup (map fst entries) -> Forall Env.storable entries ->
  Env.loadEnv (Env.saveEnv entries) = entries.
Proof.
  intros Hd Hs. unfold Env.loadEnv, Env.saveEnv.
  destruct entries as [|kv entries]; [reflexivity|].
  rewrite split_on_join.
  - now apply (read_lines_entries (kv :: entries) []).
  - discriminate.
  - apply Forall_forall. intros l Hl.
    apply in_map_iff in Hl as ([k v] & <- & Hin).
    rewrite Forall_forall in Hs.
    destruct (Hs _ Hin) as (_ & _ & _ & H10k & _ & _ & H10v & _).
    cbn [fst snd] in *. rewrite !free_of_app, H10k, H10v. reflexivity.
Qed.

Lemma env_round_trip_witness :
  Env.loadEnv (Env.saveEnv [(js "GOOGLE_CLIENT_ID", js "id-7.apps");
                            (js "GOOGLE_REFRESH_TOKEN", js "1//0g=rt=")])
  = [(js "GOOGLE_CLIENT_ID", js "id-7.apps");
     (js "GOOGLE_REFRESH_TOKEN", js "1//0g=rt=")].
Proof.
  apply env_round_trip.
  - repeat constructor; cbn; intuition discriminate.
  - repeat constructor; discriminate.
Defined.

(** X19: [loadEnv] takes from a line the text before the first [=] as
    the key and all the text after it as the value, both trimmed; a line
    without [=] and a line that begins with [=] change nothing; of two
    lines with the same key the second gives the value. *)
Theorem loadEnv_lines :
  (forall e k v, k <> [] -> free_of 61 k = true ->
                 Env.read_line e (k ++ js "=" ++ v)
                 = Env.set_property (trim k) (trim v) e)
  /\ (forall e line, free_of 61 line = true -> Env.read_line e line = e)
  /\ (forall e v, Env.read_line e (js "=" ++ v) = e)
  /\ (forall k v1 v2,
         k <> [] -> free_of 61 k = true -> free_of 10 k = true ->
         free_of 10 v1 = true -> free_of 10 v2 = true ->
         trim k <> js "__proto__" ->
         Env.loadEnv (k ++ js "=" ++ v1 ++ [10%N] ++ k ++ js "=" ++ v2)
         = [(trim k, trim v2)]).
Proof.
  split; [exact read_line_pair|]. split; [|split].
  - intros e line H. apply read_line_skips. now left.
  - intros e v. apply read_line_skips. right. now exists v.
  - intros k v1 v2 Hk H61 H10 Hv1 Hv2 Hp. unfold Env.loadEnv.
    change (k ++ js "=" ++ v1 ++ [10%N] ++ k ++ js "=" ++ v2)
      with (k ++ js "=" ++ v1 ++ 10%N :: (k ++ js "=" ++ v2)).
    rewrite !app_assoc. rewrite <- (app_assoc k).
    rewrite split_on_app
      by (rewrite !free_of_app, H10, Hv1; reflexivity).
    rewrite split_on_free
      by (rewrite !free_of_app, H10, Hv2; reflexivity).
    cbn [rev app fold_left].
    rewrite <- !app_assoc.
    rewrite !read_line_pair by assumption.
    unfold Env.set_property.
    replace (jseqb (trim k) (js "__proto__")) with false.
    2:{ symmetry. destruct (jseqb (trim k) (js "__proto__")) eqn:E;
          [|reflexivity].
        apply jseqb_true in E. contradiction. }
    cbn [Env.assign]. now rewrite jseqb_refl.
Qed.

Lemma loadEnv_lines_witness :
  Env.loadEnv (js "TOKEN" ++ js "=" ++ js "a" ++ [10%N]
               ++ js "TOKEN" ++ js "=" ++ js " b=c ")
  = [(js "TOKEN", js "b=c")].
Proof.
  apply (proj2 (proj2 (proj2 loadEnv_lines)) (js "TOKEN") (js "a")
               (js " b=c "));
    try reflexivity; discriminate.
Defined.

(* ================================================================== *)
(** * A meta tag with the content first *)
(* ================================================================== *)

(** The places where a run of [[^>]] can end inside a tag
    [pre ++ v ++ DQ :: tail ++ [62]]: in [pre], in the value [v], or in
    [tail]. *)
Lemma splits_of_tag (P : jsstring -> jsstring -> Prop)
      (pre v tail rest : jsstring) :
  (forall p1 p2, pre = p1 ++ p2 -> p2 <> [] ->
                 P p1 (p2 ++ v ++ DQ :: tail ++ 62%N :: rest)) ->
  (forall u0 u, v = u0 ++ u ->
                P (pre ++ u0) (u ++ DQ :: tail ++ 62%N :: rest)) ->
  (forall t1 t2, tail = t1 ++ t2 ->
                 P (pre ++ v ++ DQ :: t1) (t2 ++ 62%N :: rest)) ->
  forall a b,
    pre ++ v ++ DQ :: tail ++ 62%N :: rest = a ++ b ->
    forallb (class_mem true true [CChar (ch ">")]) a = true -> P a b.
Proof.
  intros Hpre Hval Htail a b Hab Ha.
  assert (pre ++ v ++ DQ :: tail ++ 62%N :: rest
          = (pre ++ v ++ DQ :: tail) ++ 62%N :: rest) as E.
  { rewrite <- app_assoc. f_equal. rewrite <- app_assoc. reflexivity. }
  rewrite E in Hab. clear E.
  destruct (split_run _ _ _ _ _ _ Hab Ha eq_refl) as (u & Hu & ->).
  clear Hab Ha.
  assert (forall a' b', a' = a -> b' = u ++ 62%N :: rest ->
                        P a' b' -> P a (u ++ 62%N :: rest)) as Same
      by (intros a' b' -> ->; auto).
  apply app_eq_app in Hu as [l [[Hp Hl]|[Hp Hl]]].
  - (* the run ends in [pre] *)
    destruct l as [|c l].
    + rewrite app_nil_r in Hp. cbn [app] in Hl.
      refine (Same _ _ _ _ (Hval [] v eq_refl)).
      * now rewrite app_nil_r.
      * rewrite Hl. cbn [app]. now rewrite <- app_assoc.
    + refine (Same _ _ eq_refl _ (Hpre a (c :: l) Hp _)); [|discriminate].
      rewrite Hl, <- app_assoc. f_equal. now rewrite <- app_assoc.
  - (* the run ends after [pre] *)
    apply app_eq_app in Hl as [l' [[Hv Hl']|[Hv Hl']]].
    + refine (Same _ _ _ _ (Hval l l' Hv)); [now rewrite Hp|].
      rewrite Hl'. now rewrite <- app_assoc.
    + destruct l' as [|c l'].
      * rewrite app_nil_r in Hv. cbn [app] in Hl'.
        refine (Same _ _ _ _ (Hval v [] (eq_sym (app_nil_r v)))).
        -- now rewrite Hp, Hv.
        -- now rewrite <- Hl'.
      * cbn [app] in Hl'. injection Hl' as <- Hl'.
        refine (Same _ _ _ _ (Htail l' u Hl')); [|reflexivity].
        now rewrite Hp, Hv.
Qed.

(** The end of the second meta pattern, from the blank before
    [property=]. *)
Lemma meta_property_match (rest : jsstring) (caps : captures) :
  exists l,
    matcher true
      (seqs [Star true not_gt; Alt (lit "name") (lit "property"); lit "=";
             quote; lit "og:title"; quote; Star true not_gt; lit ">"])
      (js " " ++ html "property=`og:title`>" ++ rest, caps)
    = (rest, caps) :: l.
Proof.
  cbn [seqs]. rewrite matcher_seq. unfold not_gt at 1.
  match goal with
  | |- context [flat_map ?f _] =>
      destruct (greedy_star_first true true [CChar (ch ">")] f (js " ")
                  (html "property=`og:title`>" ++ rest) caps eq_refl)
        as [l Hl]
  end.
  - intros a b Hab Ha Hm.
    let l := eval vm_compute in (html "property=`og:title`>") in
      change (html "property=`og:title`>") with l in Hab.
    cbn [app] in Hab.
    apply name_or_property_fails;
      cut_known Hab; try reflexivity; try congruence;
      cbn [forallb] in Hm;
      repeat (let Hc := fresh "Hc" in
              apply andb_true_iff in Hm as [Hc Hm];
              try (vm_compute in Hc; discriminate Hc); clear Hc).
  - exists l. etransitivity; [exact Hl|]. f_equal.
    change (html "property=`og:title`>" ++ rest)
      with (js "property"
            ++ (js "=" ++ (DQ :: (js "og:title" ++ (DQ :: 62 :: rest)))))%N.
    rewrite matcher_seq, matcher_alt.
    rewrite (matcher_lit_ic true "name"), matcher_lit_app.
    replace (starts_with_ic true (js "name") _) with false by reflexivity.
    cbn [app flat_map]. rewrite app_nil_r.
    rewrite matcher_seq_lit_app.
    unfold quote at 1. rewrite matcher_seq_class.
    replace (class_mem true false [CChar DQ; CChar SQ] DQ) with true
      by reflexivity.
    rewrite matcher_seq_lit_app.
    unfold quote at 1. rewrite matcher_seq_class.
    replace (class_mem true false [CChar DQ; CChar SQ] DQ) with true
      by reflexivity.
    rewrite matcher_seq. unfold not_gt. rewrite class_star_cons.
    replace (class_mem true true [CChar (ch ">")] 62) with false
      by reflexivity.
    cbn [flat_map]. rewrite app_nil_r. unfold lit.
    change (62 :: rest)%N with (js ">" ++ rest).
    now rewrite matcher_text_app.
Qed.

(** The second meta pattern from the quote that opens the value [v]:
    group 1 is [v]. *)
Lemma meta_value_first_match (v rest : jsstring) (caps : captures) :
  plain v = true -> v <> [] ->
  exists l,
    matcher true
      (seqs [quote; Grp 1 (Plus true not_quote); quote; Star true not_gt;
             Alt (lit "name") (lit "property"); lit "="; quote;
             lit "og:title"; quote; Star true not_gt; lit ">"])
      (DQ :: v ++ DQ :: js " " ++ html "property=`og:title`>" ++ rest, caps)
    = (rest, set_cap 1 (Some v) caps) :: l.
Proof.
  intros Hv Hne. cbn [seqs]. unfold quote at 1.
  rewrite matcher_seq_class.
  replace (class_mem true false [CChar DQ; CChar SQ] DQ) with true
    by reflexivity.
  rewrite matcher_seq, matcher_grp, flat_map_of_map.
  destruct v as [|c v]; [congruence|].
  pose proof (plain_not_quote _ Hv) as Hq. cbn [forallb] in Hq.
  apply andb_true_iff in Hq as [Hc Hq].
  cbn [app]. unfold not_quote. rewrite class_plus_cons, Hc.
  match goal with
  | |- context [flat_map ?f _] =>
      destruct (greedy_star_first true true [CChar DQ; CChar SQ] f v
                  (DQ :: js " " ++ html "property=`og:title`>" ++ rest)
                  caps Hq) as [l Hl]
  end.
  - intros a b Hab Ha Hm. exfalso.
    destruct a as [|a0 a]; [congruence|].
    cbn [app] in Hab. injection Hab as <- _.
    cbn [forallb] in Hm. apply andb_true_iff in Hm as [Hm _].
    discriminate Hm.
  - destruct (meta_property_match rest (set_cap 1 (Some (c :: v)) caps))
      as [l' Hl'].
    exists (l' ++ l). etransitivity; [exact Hl|].
    match goal with
    | |- ?x ++ l = _ =>
        assert (x = (rest, set_cap 1 (Some (c :: v)) caps) :: l') as ->;
          [|reflexivity]
    end.
    cbn [fst snd].
    change (c :: v ++ DQ :: js " " ++ html "property=`og:title`>" ++ rest)
      with ((c :: v)
              ++ DQ :: js " " ++ html "property=`og:title`>" ++ rest).
    rewrite firstn_prefix. unfold quote at 1. rewrite matcher_seq_class.
    replace (class_mem true false [CChar DQ; CChar SQ] DQ) with true
      by reflexivity.
    exact Hl'.
Qed.

(** The second og:title pattern at a tag that gives the content [v]
    before the property: the match is the tag and group 1 is [v]. *)
Lemma og_title_content_first_here (v rest : jsstring) :
  plain v = true -> v <> [] ->
  match_here (meta_regexB "og:title") (og_title_tag_content_first v ++ rest)
  = Some {| m_before := []; m_text := og_title_tag_content_first v;
            m_caps := [None; Some v]; m_after := rest |}.
Proof.
  intros Hv Hne.
  assert (exists l,
             matcher true (re_src (meta_regexB "og:title"))
                     (og_title_tag_content_first v ++ rest, [])
             = (rest, [None; Some v]) :: l) as [l Hl].
  { unfold meta_regexB, icase. cbn [re_src seqs]. unfold lit at 1.
    replace (og_title_tag_content_first v ++ rest)
      with (js "<meta"
            ++ (js " "
                ++ ((js "content=" ++ [DQ]) ++ v
                    ++ DQ :: html " property=`og:title`" ++ 62%N :: rest))).
    2:{ unfold og_title_tag_content_first. rewrite <- !app_assoc.
        reflexivity. }
    rewrite matcher_seq_text_app, matcher_seq. unfold not_gt at 1.
    match goal with
    | |- context [flat_map ?f _] =>
        destruct (greedy_star_first true true [CChar (ch ">")] f (js " ")
                    ((js "content=" ++ [DQ]) ++ v
                     ++ DQ :: html " property=`og:title`" ++ 62%N :: rest)
                    [] eq_refl)
          as [l Hl]
    end.
    - intros a b Hab Ha Hm. unfold lit. rewrite matcher_seq_text.
      replace (starts_with_ic true (js "content=") b) with false;
        [reflexivity|].
      symmetry. revert Ha.
      apply (splits_of_tag
               (fun a b => a <> [] ->
                           starts_with_ic true (js "content=") b = false)
               (js "content=" ++ [DQ]) v (html " property=`og:title`") rest)
        with (a := a) (b := b); [| | |exact Hab|exact Hm].
      + intros p1 p2 Hp Hp2 Hp1. spell Hp.
        cut_cases Hp; try reflexivity; congruence.
      + intros u0 u Hu _.
        apply (text_blocked true 61 DQ); try reflexivity; [discriminate|].
        apply (free_of_suffix 61 u0). rewrite <- Hu. now apply plain_no_eq.
      + intros t1 t2 Ht _. spell Ht. cut_cases Ht; reflexivity.
    - destruct (meta_value_first_match v rest [] Hv Hne) as [l' Hl'].
      exists (l' ++ l). etransitivity; [exact Hl|].
      change ((js "content=" ++ [DQ]) ++ v
              ++ DQ :: html " property=`og:title`" ++ 62%N :: rest)
        with (js "content="
              ++ (DQ :: v ++ DQ :: js " " ++ html "property=`og:title`>"
                                ++ rest)).
      unfold lit at 1. rewrite matcher_seq_text_app.
      apply (f_equal (fun z => z ++ l)) in Hl'. exact Hl'. }
  rewrite (match_here_first (meta_regexB "og:title") _ _ _ _ Hl).
  now rewrite firstn_prefix.
Qed.

(** The first og:title pattern finds nothing at such a tag: after the
    property no [content=] follows. *)
Lemma og_title_property_first_fails (v rest : jsstring) :
  plain v = true ->
  match_here (meta_regexA "og:title") (og_title_tag_content_first v ++ rest)
  = None.
Proof.
  intros Hv. apply match_here_none.
  unfold meta_regexA, icase. cbn [re_src re_ic seqs]. unfold lit at 1.
  replace (og_title_tag_content_first v ++ rest)
    with (js "<meta"
          ++ ((js " content=" ++ [DQ]) ++ v
              ++ DQ :: html " property=`og:title`" ++ 62%N :: rest)).
  2:{ unfold og_title_tag_content_first. rewrite <- !app_assoc.
      reflexivity. }
  rewrite matcher_seq_text_app, matcher_seq. apply flat_map_fails.
  intros y Hy. unfold not_gt in Hy.
  apply in_class_star in Hy as (a & b & Hab & Ha & ->).
  revert Ha.
  apply (splits_of_tag
           (fun _ b =>
              matcher true
                (Seq (Alt (lit "name") (lit "property"))
                   (Seq (lit "=")
                      (Seq quote
                         (Seq (lit "og:title")
                            (Seq quote
                               (Seq (Star true not_gt)
                                  (Seq (lit "content=")
                                     (Seq quote
                                        (Seq (Grp 1 (Plus true not_quote))
                                           (Seq quote
                                              (Seq (Star true not_gt)
                                                 (lit ">")))))))))))) 
                (b, []) = [])
           (js " content=" ++ [DQ]) v (html " property=`og:title`") rest)
    with (a := a) (b := b); [| | |exact Hab].
  - intros p1 p2 Hp Hp2. spell Hp.
    cut_cases Hp; try congruence; apply name_or_property_fails; reflexivity.
  - intros u0 u Hu.
    assert (free_of 61 u = true) as Hf.
    { apply (free_of_suffix 61 u0). rewrite <- Hu. now apply plain_no_eq. }
    apply name_or_property_fails;
      (apply (text_blocked true 61 DQ); try reflexivity;
       [discriminate|exact Hf]).
  - intros t1 t2 Ht. spell Ht.
    cut_cases Ht;
      first
        [ apply name_or_property_fails; reflexivity
        | idtac ].
    match goal with
    | |- matcher true ?r (_, []) = [] =>
        change (matcher true r
                  (js "property"
                   ++ (js "="
                       ++ (DQ :: (js "og:title" ++ (DQ :: 62%N :: rest)))),
                   []) = [])
    end.
    rewrite matcher_seq, matcher_alt.
    rewrite (matcher_lit_ic true "name"), matcher_lit_app.
    replace (starts_with_ic true (js "name") _) with false by reflexivity.
    cbn [app flat_map]. rewrite app_nil_r.
    rewrite matcher_seq_lit_app.
    unfold quote at 1. rewrite matcher_seq_class.
    replace (class_mem true false [CChar DQ; CChar SQ] DQ) with true
      by reflexivity.
    rewrite matcher_seq_lit_app.
    unfold quote at 1. rewrite matcher_seq_class.
    replace (class_mem true false [CChar DQ; CChar SQ] DQ) with true
      by reflexivity.
    rewrite matcher_seq. unfold not_gt. rewrite class_star_cons.
    replace (class_mem true true [CChar (ch ">")] 62) with false
      by reflexivity.
    cbn [flat_map]. rewrite app_nil_r. unfold lit at 1.
    now rewrite matcher_seq_text.
Qed.

(** Skipping a prefix that is free of the sign the pattern begins
    with. *)
Lemma regexp_exec_skip_free (re : RegExp) (e : N) (w : jsstring) (r : regex)
      (pre s : jsstring) :
  re_src re = Seq (lit_units (e :: w)) r ->
  is_lower e = false -> is_upper e = false -> free_of e pre = true ->
  regexp_exec re (pre ++ s)
  = option_map (fun m => {| m_before := pre ++ m_before m;
                            m_text := m_text m; m_caps := m_caps m;
                            m_after := m_after m |})
               (regexp_exec re s).
Proof.
  intros Hre Hl Hu Hf.
  apply (regexp_exec_skip_prefix re (e :: w) r pre s Hre).
  intros a b -> Hb. apply free_of_suffix in Hf.
  destruct b as [|c b]; [congruence|].
  rewrite free_of_cons in Hf. apply andb_true_iff in Hf as [Hc _].
  apply negb_true_iff in Hc. cbn [app].
  apply starts_with_ic_sign; [exact Hl|exact Hu|].
  now rewrite N.eqb_sym.
Qed.

(** The first og:title pattern finds nothing before the end of a tag
    that gives the content first: its matches are those of the rest of
    the page. *)
Lemma first_pattern_passes_tag (v s : jsstring) :
  plain v = true -> free_of 60 v = true ->
  regexp_exec (meta_regexA "og:title")
              (js "<html><head>" ++ og_title_tag_content_first v ++ s)
  = option_map
      (fun m => {| m_before := js "<html><head>"
                               ++ og_title_tag_content_first v ++ m_before m;
                   m_text := m_text m; m_caps := m_caps m;
                   m_after := m_after m |})
      (regexp_exec (meta_regexA "og:title") s).
Proof.
  intros Hv Hf.
  rewrite (regexp_exec_skip_prefix (meta_regexA "og:title") (js "<meta")
             (seqs [Star true not_gt; Alt (lit "name") (lit "property");
                    lit "="; quote; lit "og:title"; quote; Star true not_gt;
                    lit "content="; quote; Grp 1 (Plus true not_quote);
                    quote; Star true not_gt; lit ">"])).
  2:{ reflexivity. }
  2:{ intros a b Hab Hb. spell Hab.
      cut_cases Hab; try reflexivity. congruence. }
  pose proof (og_title_property_first_fails v s Hv) as Hnone.
  assert (og_title_tag_content_first v ++ s
          = 60%N :: (html "meta content=`" ++ v
                     ++ html "` property=`og:title`>") ++ s) as E.
  { unfold og_title_tag_content_first. rewrite <- !app_assoc. reflexivity. }
  rewrite E in Hnone |- *.
  rewrite (regexp_exec_skip _ _ _ Hnone).
  rewrite (regexp_exec_skip_free (meta_regexA "og:title") 60 (js "meta")
             (seqs [Star true not_gt; Alt (lit "name") (lit "property");
                    lit "="; quote; lit "og:title"; quote; Star true not_gt;
                    lit "content="; quote; Grp 1 (Plus true not_quote);
                    quote; Star true not_gt; lit ">"]));
    try reflexivity.
  2:{ now rewrite !free_of_app, Hf. }
  destruct (regexp_exec (meta_regexA "og:title") s) as [m|];
    [|reflexivity].
  reflexivity.
Qed.

(** X20: the order of the attributes of an og:title tag is free.  A tag
    that gives [content] before [property] is found by the second
    pattern of [extractMetaTag] when the first pattern finds nothing in
    the rest of the page, and the candidate is the cleaned content, the
    same as for the tag with [property] first. *)
Theorem attribute_order_is_free (v rest : jsstring) :
  plain v = true -> v <> [] -> free_of 60 v = true ->
  regexp_exec (meta_regexA "og:title") rest = None ->
  extractMetaTag "og:title"
    (js "<html><head>" ++ og_title_tag_content_first v ++ rest)
  = cleanText v
  /\ extractMetaTag "og:title"
       (js "<html><head>" ++ og_title_tag_content_first v ++ rest)
     = extractMetaTag "og:title"
         (js "<html><head>" ++ og_title_tag v ++ rest).
Proof.
  intros Hv Hne Hf Hnone.
  assert (extractMetaTag "og:title"
            (js "<html><head>" ++ og_title_tag_content_first v ++ rest)
          = cleanText v) as E.
  { unfold extractMetaTag.
    rewrite (first_pattern_passes_tag v rest Hv Hf), Hnone.
    cbn [option_map or_match].
    rewrite (regexp_exec_skip_prefix (meta_regexB "og:title") (js "<meta")
               (seqs [Star true not_gt; lit "content="; quote;
                      Grp 1 (Plus true not_quote); quote; Star true not_gt;
                      Alt (lit "name") (lit "property"); lit "="; quote;
                      lit "og:title"; quote; Star true not_gt; lit ">"])).
    - rewrite (regexp_exec_here _ _ _
                 (og_title_content_first_here v rest Hv Hne)).
      reflexivity.
    - reflexivity.
    - intros a b Hab Hb. spell Hab.
      cut_cases Hab; try reflexivity. congruence. }
  split; [exact E|].
  now rewrite E, (extractMetaTag_og_title v rest Hv Hne).
Qed.

Lemma attribute_order_is_free_witness :
  extractMetaTag "og:title"
    (js "<html><head>" ++ og_title_tag_content_first (js "Weekly  notes")
        ++ js "</head></html>")
  = cleanText (js "Weekly  notes")
  /\ extractMetaTag "og:title"
       (js "<html><head>" ++ og_title_tag_content_first (js "Weekly  notes")
           ++ js "</head></html>")
     = extractMetaTag "og:title"
         (js "<html><head>" ++ og_title_tag (js "Weekly  notes")
             ++ js "</head></html>").
Proof.
  apply attribute_order_is_free;
    [reflexivity|discriminate|reflexivity|reflexivity].
Defined.

(** X21: the first pattern of [extractMetaTag] is tried on the whole
    page before the second: of two og:title tags, the later one with
    [property] before [content] gives the candidate, not the earlier one
    with [content] first. *)
Theorem property_first_tag_wins (v1 v2 rest : jsstring) :
  plain v1 = true -> free_of 60 v1 = true ->
  plain v2 = true -> v2 <> [] ->
  extractMetaTag "og:title"
    (js "<html><head>" ++ og_title_tag_content_first v1
        ++ og_title_tag v2 ++ rest)
  = cleanText v2.
Proof.
  intros Hv1 Hf1 Hv2 Hne2. unfold extractMetaTag.
  rewrite (first_pattern_passes_tag v1 _ Hv1 Hf1).
  rewrite (regexp_exec_here _ _ _ (og_title_here v2 rest Hv2 Hne2)).
  reflexivity.
Qed.

Lemma property_first_tag_wins_witness :
  extractMetaTag "og:title"
    (js "<html><head>" ++ og_title_tag_content_first (js "First")
        ++ og_title_tag (js "Second") ++ js "</head></html>")
  = cleanText (js "Second").
Proof.
  apply property_first_tag_wins;
    [reflexivity|reflexivity|reflexivity|discriminate].
Defined.

(* ================================================================== *)
(** * The language of a page *)
(* ================================================================== *)

Lemma free_not_gt (w : jsstring) :
  free_of 62 w = true ->
  forallb (class_mem true true [CChar (ch ">")]) w = true.
Proof.
  unfold free_of. induction w as [|c w IH]; [reflexivity|].
  cbn [forallb]. intros H. apply andb_true_iff in H as [Hc H].
  rewrite (IH H), andb_true_r. change (ch ">") with 62%N.
  rewrite (not_sign_member true 62 c); [exact Hc|reflexivity|reflexivity].
Qed.

(** The end of the language pattern, at the value [b] between quotes:
    group 1 is [b]. *)
Lemma lang_value_match (b s : jsstring) (caps : captures) :
  plain b = true -> b <> [] ->
  exists l,
    matcher true (seqs [quote; Grp 1 (Plus true not_quote); quote])
            (DQ :: b ++ DQ :: s, caps)
    = (s, set_cap 1 (Some b) caps) :: l.
Proof.
  intros Hb Hne. cbn [seqs]. unfold quote at 1.
  rewrite matcher_seq_class.
  replace (class_mem true false [CChar DQ; CChar SQ] DQ) with true
    by reflexivity.
  rewrite matcher_seq, matcher_grp, flat_map_of_map.
  destruct b as [|c b]; [congruence|].
  pose proof (plain_not_quote _ Hb) as Hq. cbn [forallb] in Hq.
  apply andb_true_iff in Hq as [Hc Hq].
  cbn [app]. unfold not_quote. rewrite class_plus_cons, Hc.
  match goal with
  | |- context [flat_map ?f _] =>
      destruct (greedy_star_first true true [CChar DQ; CChar SQ] f b
                  (DQ :: s) caps Hq) as [l Hl]
  end.
  - intros a0 b0 Hab Ha Hm. exfalso.
    destruct a0 as [|a1 a0]; [congruence|].
    cbn [app] in Hab. injection Hab as <- _.
    cbn [forallb] in Hm. apply andb_true_iff in Hm as [Hm _].
    discriminate Hm.
  - exists l. etransitivity; [exact Hl|].
    cbn [fst snd].
    change (c :: b ++ DQ :: s) with ((c :: b) ++ DQ :: s).
    rewrite firstn_prefix. unfold quote. rewrite class_step.
    replace (class_mem true false [CChar DQ; CChar SQ] DQ) with true
      by reflexivity.
    reflexivity.
Qed.

(** The language pattern at an opening tag whose last attribute is
    [lang] with the plain value [b]: group 1 is [b], whatever the tag
    holds before. *)
Lemma lang_here (w b rest : jsstring) :
  free_of 62 w = true -> plain b = true -> b <> [] ->
  exists text,
    match_here lang_re
               (js "<html" ++ w ++ html "lang=`" ++ b ++ html "`>" ++ rest)
    = Some {| m_before := []; m_text := text;
              m_caps := [None; Some b]; m_after := 62%N :: rest |}.
Proof.
  intros Hw Hb Hne.
  assert (exists l,
             matcher true (re_src lang_re)
                     (js "<html" ++ w ++ html "lang=`" ++ b ++ html "`>"
                         ++ rest, [])
             = (62%N :: rest, [None; Some b]) :: l) as [l Hl].
  { unfold lang_re, icase. cbn [re_src seqs]. unfold lit at 1.
    rewrite matcher_seq_text_app, matcher_seq. unfold not_gt at 1.
    change (html "lang=`" ++ b ++ html "`>" ++ rest)
      with ((js "lang=" ++ [DQ]) ++ b ++ DQ :: [] ++ 62%N :: rest).
    match goal with
    | |- context [flat_map ?f _] =>
        destruct (greedy_star_first true true [CChar (ch ">")] f w
                    ((js "lang=" ++ [DQ]) ++ b ++ DQ :: [] ++ 62%N :: rest)
                    [] (free_not_gt w Hw))
          as [l Hl]
    end.
    - intros a' b' Hab Ha Hm. unfold lit. rewrite matcher_seq_text.
      replace (starts_with_ic true (js "lang=") b') with false;
        [reflexivity|].
      symmetry. revert Ha.
      apply (splits_of_tag
               (fun a b => a <> [] ->
                           starts_with_ic true (js "lang=") b = false)
               (js "lang=" ++ [DQ]) b [] rest)
        with (a := a') (b := b'); [| | |exact Hab|exact Hm].
      + intros p1 p2 Hp Hp2 Hp1. spell Hp.
        cut_cases Hp; try reflexivity; congruence.
      + intros u0 u Hu _.
        apply (text_blocked true 61 DQ); try reflexivity; [discriminate|].
        apply (free_of_suffix 61 u0). rewrite <- Hu. now apply plain_no_eq.
      + intros t1 t2 Ht _. cut_cases Ht. reflexivity.
    - destruct (lang_value_match b (62%N :: rest) [] Hb Hne) as [l' Hl'].
      exists (l' ++ l). etransitivity; [exact Hl|].
      change ((js "lang=" ++ [DQ]) ++ b ++ DQ :: [] ++ 62%N :: rest)
        with (js "lang=" ++ (DQ :: b ++ DQ :: 62%N :: rest)).
      unfold lit at 1. rewrite matcher_seq_text_app.
      apply (f_equal (fun z => z ++ l)) in Hl'. exact Hl'. }
  rewrite (match_here_first lang_re _ _ _ _ Hl). eexists. reflexivity.
Qed.

(** X22: [extractLanguage] reads the last [lang=] of the opening [html]
    tag: when the tag ends with [lang=\x22b\x22] for a plain value [b],
    the language is [b] as written, whatever precedes it in the tag, an
    earlier [lang] attribute included, and [xml:lang] counts as
    [lang]. *)
Theorem last_lang_attribute_wins (w b rest : jsstring) :
  free_of 62 w = true -> plain b = true -> b <> [] ->
  extractLanguage
    (js "<html" ++ w ++ html "lang=`" ++ b ++ html "`>" ++ rest)
  = b.
Proof.
  intros Hw Hb Hne. unfold extractLanguage.
  destruct (lang_here w b rest Hw Hb Hne) as [text Hm].
  rewrite (regexp_exec_here _ _ _ Hm).
  erewrite group_if_any_some; [reflexivity|reflexivity|exact Hne].
Qed.

Lemma last_lang_attribute_wins_witness :
  extractLanguage
    (js "<html" ++ html " lang=`en` xml:" ++ html "lang=`" ++ js "FR-ca"
        ++ html "`>" ++ js "<head></head></html>")
  = js "FR-ca".
Proof.
  apply (last_lang_attribute_wins (html " lang=`en` xml:") (js "FR-ca"));
    [reflexivity|reflexivity|discriminate].
Defined.

(* ================================================================== *)
(** * The providers of summaries *)
(* ================================================================== *)

Lemma trimStart_nil_iff (s : jsstring) : trimStart s = [] <-> blank s = true.
Proof.
  unfold blank. induction s as [|c s IH]; [now split|].
  cbn [trimStart forallb]. destruct (is_space c); cbn [andb].
  - exact IH.
  - split; discriminate.
Qed.

(** Trimming leaves nothing exactly of a text of white space. *)
Lemma trim_nil_iff (s : jsstring) : trim s = [] <-> blank s = true.
Proof.
  split.
  - unfold trim. intros H.
    apply (f_equal (@rev N)) in H. rewrite rev_involutive in H.
    cbn [rev] in H. apply trimStart_nil_iff in H. unfold blank in H.
    rewrite forallb_reversed in H.
    pose proof (trimStart_no_lead s) as Hl.
    apply trimStart_nil_iff.
    destruct (trimStart s) as [|c t]; [reflexivity|].
    cbn [no_lead] in Hl. cbn [forallb] in H.
    apply andb_true_iff in H as [Hc _]. now rewrite Hc in Hl.
  - intros H. unfold trim. apply trimStart_nil_iff in H. now rewrite H.
Qed.

(** The first piece of a split that has begun with a character is not
    empty. *)
Lemma split_from_head (piece s : jsstring) :
  piece <> [] ->
  exists p ps, split_from piece s = p :: ps /\ p <> [].
Proof.
  revert piece. induction s as [|c s IH]; intros piece Hp.
  - exists (rev piece), []. split; [reflexivity|].
    intros H. apply (f_equal (@rev N)) in H.
    now rewrite rev_involutive in H.
  - rewrite split_from_cons. destruct (is_space c).
    + exists (rev piece), (split_from [] (trimStart s)).
      split; [reflexivity|].
      intros H. apply (f_equal (@rev N)) in H.
      now rewrite rev_involutive in H.
    + apply IH. discriminate.
Qed.

(** The words of a text that is not empty are not empty when joined. *)
Lemma joined_words_nonempty (content : jsstring) :
  content <> [] ->
  join (js " ") (firstn 50 (split spaces_re content)) <> [].
Proof.
  intros Hc. rewrite split_is_split_from.
  destruct content as [|c s]; [congruence|].
  rewrite split_from_cons. destruct (is_space c).
  - destruct (split_from [] (trimStart s)) as [|q qs] eqn:E.
    + now apply split_from_nonempty in E.
    + change (firstn 50 (rev [] :: q :: qs)) with ([] :: q :: firstn 48 qs).
      rewrite join_cons by discriminate. discriminate.
  - destruct (split_from_head [c] s) as (p & ps & -> & Hp); [discriminate|].
    change (firstn 50 (p :: ps)) with (p :: firstn 49 ps). intros H.
    pose proof (join_length_first (js " ") p (firstn 49 ps)) as Hl.
    rewrite H in Hl. destruct p; [congruence|]. cbn [length] in Hl. lia.
Qed.

(** The summary of last resort is empty exactly for an input without
    text. *)
Lemma fallback_summary_nil (input : Summarize.Input) :
  Summarize.summary (Summarize.fallbackSummarization input) = []
  <-> Summarize.content_of input = [].
Proof.
  unfold Summarize.fallbackSummarization. cbn [Summarize.summary].
  split.
  - intros H. apply app_eq_nil in H as [H _].
    destruct (list_eq_dec N.eq_dec (Summarize.content_of input) [])
      as [E|E]; [exact E|].
    now apply joined_words_nonempty in E.
  - intros ->. reflexivity.
Qed.

(** A provider reports an error only with an empty summary: its result
    can be used exactly when its summary is not empty. *)
Lemma openai_usable (m : option jsstring) (reply : Summarize.Reply) :
  Summarize.usable (Summarize.openai_summarize m reply)
  = truthy (Summarize.summary (Summarize.openai_summarize m reply)).
Proof.
  destruct reply; unfold Summarize.usable; cbn; [apply andb_true_r|].
  reflexivity.
Qed.

Lemma anthropic_usable (m : option jsstring) (reply : Summarize.Reply) :
  Summarize.usable (Summarize.anthropic_summarize m reply)
  = truthy (Summarize.summary (Summarize.anthropic_summarize m reply)).
Proof.
  destruct reply; unfold Summarize.usable; cbn; [apply andb_true_r|].
  reflexivity.
Qed.

(** With both keys, [summarize] is the loop over the two providers. *)
Lemma summarize_both (env : Summarize.Environment)
      (openai anthropic : Summarize.Reply) (input : Summarize.Input) :
  Summarize.is_set (Summarize.OPENAI_API_KEY env) = true ->
  Summarize.is_set (Summarize.ANTHROPIC_API_KEY env) = true ->
  let a := Summarize.openai_summarize (Summarize.OPENAI_MODEL env) openai in
  let b := Summarize.anthropic_summarize (Summarize.ANTHROPIC_MODEL env)
                                         anthropic in
  Summarize.summarize env openai anthropic input
  = if truthy (Summarize.summary a) then Summarize.tagged (js "openai") a
    else if truthy (Summarize.summary b)
         then Summarize.tagged (js "anthropic") b
         else Summarize.fallbackSummarization input.
Proof.
  intros Ho Ha a b. unfold Summarize.summarize. rewrite Ho, Ha.
  cbn [app map fst snd]. unfold Summarize.hybrid_summarize.
  cbn [Summarize.hybrid_loop]. fold a b.
  unfold a at 1, b at 1. rewrite openai_usable, anthropic_usable.
  fold a b. destruct (truthy (Summarize.summary a)); [reflexivity|].
  destruct (truthy (Summarize.summary b)); reflexivity.
Qed.

(** X23: with both keys set, [summarize] asks OpenAI first: its summary,
    when not empty, is the result, marked with the name of the provider;
    otherwise that of Anthropic, when not empty; otherwise the first
    words of the input. *)
Theorem summarize_order (env : Summarize.Environment)
        (openai anthropic : Summarize.Reply) (input : Summarize.Input) :
  Summarize.is_set (Summarize.OPENAI_API_KEY env) = true ->
  Summarize.is_set (Summarize.ANTHROPIC_API_KEY env) = true ->
  let a := Summarize.openai_summarize (Summarize.OPENAI_MODEL env) openai in
  let b := Summarize.anthropic_summarize (Summarize.ANTHROPIC_MODEL env)
                                         anthropic in
  let r := Summarize.summarize env openai anthropic input in
  (Summarize.summary a <> [] ->
   Summarize.summary r = js "[OPENAI] " ++ Summarize.summary a
   /\ Summarize.error r = None /\ Summarize.model r = Summarize.model a)
  /\ (Summarize.summary a = [] -> Summarize.summary b <> [] ->
      Summarize.summary r = js "[ANTHROPIC] " ++ Summarize.summary b
      /\ Summarize.error r = None /\ Summarize.model r = Summarize.model b)
  /\ (Summarize.summary a = [] -> Summarize.summary b = [] ->
      r = Summarize.fallbackSummarization input).
Proof.
  intros Ho Ha a b r. unfold r.
  rewrite (summarize_both env openai anthropic input Ho Ha). fold a b.
  split; [|split].
  - intros H. apply truthy_true in H. rewrite H.
    cbn [Summarize.tagged Summarize.summary Summarize.error Summarize.model].
    repeat split. unfold a in *.
    destruct openai; [reflexivity|discriminate H].
  - intros H1 H2. apply truthy_false in H1. apply truthy_true in H2.
    rewrite H1, H2.
    cbn [Summarize.tagged Summarize.summary Summarize.error Summarize.model].
    repeat split. unfold b in *.
    destruct anthropic; [reflexivity|discriminate H2].
  - intros H1 H2. apply truthy_false in H1. apply truthy_false in H2.
    now rewrite H1, H2.
Qed.

Lemma summarize_order_witness :
  Summarize.summary
    (Summarize.summarize
       {| Summarize.OPENAI_API_KEY := Some (js "sk-1");
          Summarize.ANTHROPIC_API_KEY := Some (js "sk-2");
          Summarize.OPENAI_MODEL := None;
          Summarize.ANTHROPIC_MODEL := None |}
       (Summarize.Rejected (js "quota"))
       (Summarize.Answer (Some (js " Rest it. ")) None)
       {| Summarize.input_title := Some (js "Grilling basics");
          Summarize.input_summary := None;
          Summarize.input_content := Some (js "rest the patty") |})
  = js "[ANTHROPIC] Rest it.".
Proof.
  apply (summarize_order
           {| Summarize.OPENAI_API_KEY := Some (js "sk-1");
              Summarize.ANTHROPIC_API_KEY := Some (js "sk-2");
              Summarize.OPENAI_MODEL := None;
              Summarize.ANTHROPIC_MODEL := None |}
           (Summarize.Rejected (js "quota"))
           (Summarize.Answer (Some (js " Rest it. ")) None)
           {| Summarize.input_title := Some (js "Grilling basics");
              Summarize.input_summary := None;
              Summarize.input_content := Some (js "rest the patty") |}
           eq_refl eq_refl);
    [reflexivity|discriminate].
Defined.

(** X24: when a provider has no summary to give.  The summary of
    OpenAI is empty when the call fails or the text of the response is
    white space, not when the response has no text or an empty one:
    then it is the words [No summary generated].  For Anthropic an
    empty text gives an empty summary as well.  A response never gives
    an error. *)
Theorem provider_summary_empty (m : option jsstring)
        (reply : Summarize.Reply) :
  (Summarize.summary (Summarize.openai_summarize m reply) = []
   <-> (exists message, reply = Summarize.Rejected message)
       \/ (exists t u, reply = Summarize.Answer (Some t) u
                       /\ t <> [] /\ blank t = true))
  /\ (Summarize.summary (Summarize.anthropic_summarize m reply) = []
      <-> (exists message, reply = Summarize.Rejected message)
          \/ (exists t u, reply = Summarize.Answer (Some t) u
                          /\ blank t = true))
  /\ (forall u, Summarize.summary
                  (Summarize.openai_summarize m (Summarize.Answer None u))
                = js "No summary generated"
                /\ Summarize.summary
                     (Summarize.openai_summarize
                        m (Summarize.Answer (Some []) u))
                   = js "No summary generated"
                /\ Summarize.summary
                     (Summarize.anthropic_summarize
                        m (Summarize.Answer None u))
                   = js "No summary generated")
  /\ (forall text u,
         Summarize.error
           (Summarize.openai_summarize m (Summarize.Answer text u)) = None
         /\ Summarize.error
              (Summarize.anthropic_summarize m (Summarize.Answer text u))
            = None).
Proof.
  split; [|split; [|split]].
  - destruct reply as [[t|] u|message];
      cbn [Summarize.openai_summarize Summarize.summary Summarize.field_or].
    + destruct t as [|c t]; cbn [truthy].
      * split; [discriminate|].
        intros [[message H]|(t & u' & H & Ht & _)]; [discriminate|].
        injection H as <- _. congruence.
      * rewrite trim_nil_iff. split.
        -- intros H. right. exists (c :: t), u.
           split; [reflexivity|]. split; [discriminate|exact H].
        -- intros [[message H]|(t' & u' & H & _ & Hb)]; [discriminate|].
           injection H as <- _. exact Hb.
    + split; [discriminate|].
      intros [[message H]|(t & u' & H & _)]; discriminate.
    + split; [|reflexivity]. intros _. left. now exists message.
  - destruct reply as [[t|] u|message];
      cbn [Summarize.anthropic_summarize Summarize.summary].
    + rewrite trim_nil_iff. split.
      * intros H. right. exists t, u. now split.
      * intros [[message H]|(t' & u' & H & Hb)]; [discriminate|].
        injection H as <- _. exact Hb.
    + split; [discriminate|].
      intros [[message H]|(t & u' & H & _)]; discriminate.
    + split; [|reflexivity]. intros _. left. now exists message.
  - intros u. repeat split.
  - intros text u. split; reflexivity.
Qed.

(** X25: with both keys set the result of [summarize] names the
    provider [hybrid]; it has no error exactly when one of the two
    providers gave a summary, and its summary is empty only when neither
    did and the input has no content, no summary and no title. *)
Theorem summarize_result_shape (env : Summarize.Environment)
        (openai anthropic : Summarize.Reply) (input : Summarize.Input) :
  Summarize.is_set (Summarize.OPENAI_API_KEY env) = true ->
  Summarize.is_set (Summarize.ANTHROPIC_API_KEY env) = true ->
  let a := Summarize.openai_summarize (Summarize.OPENAI_MODEL env) openai in
  let b := Summarize.anthropic_summarize (Summarize.ANTHROPIC_MODEL env)
                                         anthropic in
  let r := Summarize.summarize env openai anthropic input in
  Summarize.provider r = js "hybrid"
  /\ (Summarize.error r = None
      <-> Summarize.summary a <> [] \/ Summarize.summary b <> [])
  /\ (Summarize.summary r = []
      <-> Summarize.summary a = [] /\ Summarize.summary b = []
          /\ Summarize.content_of input = []).
Proof.
  intros Ho Ha a b r. unfold r.
  rewrite (summarize_both env openai anthropic input Ho Ha). fold a b.
  destruct (truthy (Summarize.summary a)) eqn:Ea.
  - apply truthy_true in Ea.
    cbn [Summarize.tagged Summarize.summary Summarize.error
         Summarize.provider].
    split; [reflexivity|]. split.
    + split; [now left|]. intros _. unfold a in *.
      destruct openai; [reflexivity|now cbn in Ea].
    + split; [discriminate|]. intros [H _]. contradiction.
  - apply truthy_false in Ea.
    destruct (truthy (Summarize.summary b)) eqn:Eb.
    + apply truthy_true in Eb.
      cbn [Summarize.tagged Summarize.summary Summarize.error
           Summarize.provider].
      split; [reflexivity|]. split.
      * split; [now right|]. intros _. unfold b in *.
        destruct anthropic; [reflexivity|now cbn in Eb].
      * split; [discriminate|]. intros (_ & H & _). contradiction.
    + apply truthy_false in Eb.
      split; [reflexivity|]. split.
      * split; [discriminate|]. intros [H|H]; contradiction.
      * rewrite fallback_summary_nil. split; [now intros H|].
        now intros (_ & _ & H).
Qed.

Lemma summarize_result_shape_witness :
  Summarize.provider
    (Summarize.summarize
       {| Summarize.OPENAI_API_KEY := Some (js "sk-1");
          Summarize.ANTHROPIC_API_KEY := Some (js "sk-2");
          Summarize.OPENAI_MODEL := Some (js "gpt-4o");
          Summarize.ANTHROPIC_MODEL := None |}
       (Summarize.Answer (Some (js "  ")) None)
       (Summarize.Rejected (js "overloaded"))
       {| Summarize.input_title := Some (js "Grilling basics");
          Summarize.input_summary := None;
          Summarize.input_content := None |})
  = js "hybrid".
Proof.
  apply (summarize_result_shape
           {| Summarize.OPENAI_API_KEY := Some (js "sk-1");
              Summarize.ANTHROPIC_API_KEY := Some (js "sk-2");
              Summarize.OPENAI_MODEL := Some (js "gpt-4o");
              Summarize.ANTHROPIC_MODEL := None |}
           (Summarize.Answer (Some (js "  ")) None)
           (Summarize.Rejected (js "overloaded"))
           {| Summarize.input_title := Some (js "Grilling basics");
              Summarize.input_summary := None;
              Summarize.input_content := None |}
           eq_refl eq_refl).
Defined.

(* ================================================================== *)
(** * The first paragraph *)
(* ================================================================== *)

(** A text free of the sign [e] that starts before [e] ends before
    it. *)
Lemma starts_with_not_past (e : N) (w b rest : jsstring) :
  free_of e w = true ->
  starts_with w (b ++ e :: rest) = true -> starts_with w b = true.
Proof.
  revert b. induction w as [|a w IH]; intros b Hf H; [reflexivity|].
  rewrite free_of_cons in Hf. apply andb_true_iff in Hf as [Ha Hf].
  apply negb_true_iff in Ha.
  destruct b as [|d b]; cbn [app starts_with] in *.
  - rewrite Ha in H. discriminate.
  - apply andb_true_iff in H as [Had H]. rewrite Had. now apply IH.
Qed.

(** A text that begins with the sign [e] and has it nowhere else does
    not start in the last part [b] of a text that does not hold it, when
    what follows [b] begins with [e]. *)
Lemma starts_before_sign (e : N) (w a b rest : jsstring) :
  free_of e w = true -> b <> [] ->
  includes (e :: w) (a ++ b) = false ->
  starts_with (e :: w) (b ++ e :: rest) = false.
Proof.
  intros Hf Hb Hi.
  destruct (starts_with (e :: w) (b ++ e :: rest)) eqn:E; [|reflexivity].
  destruct b as [|d b]; [congruence|].
  cbn [app starts_with] in E. apply andb_true_iff in E as [Hd E].
  apply (starts_with_not_past e w b rest Hf) in E.
  rewrite (includes_at_suffix (e :: w) a (d :: b)) in Hi; [discriminate|].
  cbn [starts_with]. now rewrite Hd, E.
Qed.

Lemma toLowerCase_length (s : jsstring) : length (toLowerCase s) = length s.
Proof. apply length_map. Qed.

(** With the [i] flag a text without capitals is read where it stands
    in any letter case. *)
Lemma matcher_seq_text_lower (w o : jsstring) (r : regex) (s : jsstring)
      (caps : captures) :
  forallb (fun c => negb (is_upper c)) w = true ->
  toLowerCase o = w ->
  matcher true (Seq (lit_units w) r) (o ++ s, caps) = matcher true r (s, caps).
Proof.
  intros Hw Ho. rewrite matcher_seq_text, (starts_with_ic_lower w _ Hw).
  rewrite toLowerCase_app, Ho, starts_with_app.
  now rewrite <- Ho, toLowerCase_length, skipn_length_app.
Qed.

Lemma matcher_text_lower (w o s : jsstring) (caps : captures) :
  forallb (fun c => negb (is_upper c)) w = true ->
  toLowerCase o = w ->
  matcher true (lit_units w) (o ++ s, caps) = [(s, caps)].
Proof.
  intros Hw Ho. rewrite matcher_text, (starts_with_ic_lower w _ Hw).
  rewrite toLowerCase_app, Ho, starts_with_app.
  now rewrite <- Ho, toLowerCase_length, skipn_length_app.
Qed.

(** The paragraph pattern at an opening tag: group 1 is the text up to
    the next closing tag. *)
Lemma first_p_found (o attrs t c rest : jsstring) :
  toLowerCase o = js "<p" -> free_of 62 attrs = true ->
  includes (js "</p>") (toLowerCase t) = false ->
  toLowerCase c = js "</p>" ->
  exists text,
    match_here first_p_re (o ++ attrs ++ js ">" ++ t ++ c ++ rest)
    = Some {| m_before := []; m_text := text;
              m_caps := [None; Some t]; m_after := rest |}.
Proof.
  intros Ho Ha Ht Hc.
  assert (exists l,
             matcher true (re_src first_p_re)
                     (o ++ attrs ++ js ">" ++ t ++ c ++ rest, [])
             = (rest, [None; Some t]) :: l) as [l Hl].
  { unfold first_p_re, icase. cbn [re_src seqs]. unfold lit at 1.
    rewrite (matcher_seq_text_lower (js "<p") o _ _ _ eq_refl Ho).
    rewrite matcher_seq. unfold not_gt.
    match goal with
    | |- context [flat_map ?f _] =>
        destruct (greedy_star_first true true [CChar (ch ">")] f attrs
                    (js ">" ++ t ++ c ++ rest) [] (free_not_gt attrs Ha))
          as [l1 Hl1]
    end.
    { intros a b Hab Hne Hm. exfalso.
      destruct a as [|a0 a]; [congruence|].
      cbn [app] in Hab. injection Hab as <- _.
      cbn [forallb] in Hm. apply andb_true_iff in Hm as [Hm _].
      discriminate Hm. }
    destruct (lazy_star_first true false [CSpace; CNonSpace]
                (fun y =>
                   matcher true (lit "</p>")
                     (fst y,
                      set_cap 1
                        (Some (firstn
                                 (length (fst (t ++ c ++ rest,
                                               @nil (option jsstring)))
                                  - length (fst y))
                                 (fst (t ++ c ++ rest,
                                       @nil (option jsstring)))))
                        (snd y)))
                t (c ++ rest) [] (forallb_any _ _)) as [l2 Hl2].
    { intros a b -> Hb. cbn [fst]. unfold lit. rewrite matcher_text.
      rewrite (starts_with_ic_lower (js "</p>") _ eq_refl).
      rewrite !toLowerCase_app, Hc.
      rewrite toLowerCase_app in Ht.
      change (js "</p>" ++ toLowerCase rest)
        with (60%N :: (js "/p>" ++ toLowerCase rest)).
      rewrite (starts_before_sign 60 (js "/p>") (toLowerCase a)
                 (toLowerCase b)); [reflexivity|reflexivity| |exact Ht].
      destruct b; [congruence|discriminate]. }
    exists (l2 ++ l1). etransitivity; [exact Hl1|]. cbv beta.
    unfold lit at 1.
    rewrite matcher_seq_text_app, matcher_seq, matcher_grp.
    rewrite flat_map_of_map. unfold any.
    etransitivity; [apply (f_equal (fun z => z ++ l1) Hl2)|].
    cbn [fst snd]. rewrite firstn_prefix. unfold lit.
    now rewrite (matcher_text_lower (js "</p>") c rest _ eq_refl Hc). }
  rewrite (match_here_first first_p_re _ _ _ _ Hl). eexists. reflexivity.
Qed.

(** The paragraph pattern finds nothing before the first [<p]. *)
Lemma first_p_skips (pre o s : jsstring) :
  includes (js "<p") (toLowerCase pre) = false ->
  toLowerCase o = js "<p" ->
  regexp_exec first_p_re (pre ++ o ++ s)
  = option_map (fun m => {| m_before := pre ++ m_before m;
                            m_text := m_text m; m_caps := m_caps m;
                            m_after := m_after m |})
               (regexp_exec first_p_re (o ++ s)).
Proof.
  intros Hpre Ho.
  apply (regexp_exec_skip_prefix first_p_re (js "<p")
           (seqs [Star true not_gt; lit ">"; Grp 1 (Star false any);
                  lit "</p>"])); [reflexivity|].
  intros a b -> Hb. cbn [re_ic first_p_re icase].
  rewrite (starts_with_ic_lower (js "<p") _ eq_refl).
  rewrite !toLowerCase_app, Ho. rewrite toLowerCase_app in Hpre.
  change (js "<p" ++ toLowerCase s) with (60%N :: (js "p" ++ toLowerCase s)).
  apply (starts_before_sign 60 (js "p") (toLowerCase a) (toLowerCase b));
    [reflexivity| |exact Hpre].
  destruct b; [congruence|discriminate].
Qed.

(** Without [<p] in any letter case the pattern finds nothing. *)
Lemma first_p_needs_open (doc : jsstring) :
  includes (js "<p") (toLowerCase doc) = false ->
  regexp_exec first_p_re doc = None.
Proof.
  intros H. rewrite <- (app_nil_r doc).
  rewrite (regexp_exec_skip_prefix first_p_re (js "<p")
             (seqs [Star true not_gt; lit ">"; Grp 1 (Star false any);
                    lit "</p>"])); [reflexivity|reflexivity|].
  intros a b -> Hb. cbn [re_ic first_p_re icase]. rewrite app_nil_r.
  rewrite (starts_with_ic_lower (js "<p") _ eq_refl).
  destruct (starts_with (js "<p") (toLowerCase b)) eqn:E; [|reflexivity].
  rewrite toLowerCase_app in H.
  now rewrite (includes_at_suffix _ _ _ E) in H.
Qed.

(** Where the pattern matches, a closing tag is read. *)
Lemma first_p_here_reads_close (s : jsstring) :
  includes (js "</p>") (toLowerCase s) = false ->
  match_here first_p_re s = None.
Proof.
  intros H. apply match_here_none.
  destruct (matcher (re_ic first_p_re) (re_src first_p_re) (s, []))
    as [|y l] eqn:E; [reflexivity|].
  exfalso.
  assert (In y (matcher (re_ic first_p_re) (re_src first_p_re) (s, [])))
    as Hin by (rewrite E; now left).
  unfold first_p_re, icase in Hin. cbn [re_ic re_src seqs] in Hin.
  apply in_matcher_seq in Hin as (z1 & H1 & Hin).
  apply in_matcher_seq in Hin as (z2 & H2 & Hin).
  apply in_matcher_seq in Hin as (z3 & H3 & Hin).
  apply in_matcher_seq in Hin as (z4 & H4 & Hin).
  apply matcher_reads in H1, H2, H3, H4.
  destruct (reads_trans _ _ _ (reads_trans _ _ _ (reads_trans _ _ _ H1 H2) H3)
                        H4) as [w Hw].
  cbn [fst] in Hw. destruct z4 as [s4 caps4]. cbn [fst] in Hw.
  unfold lit in Hin. rewrite matcher_text in Hin.
  rewrite (starts_with_ic_lower (js "</p>") _ eq_refl) in Hin.
  destruct (starts_with (js "</p>") (toLowerCase s4)) eqn:E4;
    [|destruct Hin].
  rewrite Hw, toLowerCase_app in H.
  now rewrite (includes_at_suffix _ _ _ E4) in H.
Qed.

Lemma includes_tail (w : jsstring) (c : N) (s : jsstring) :
  includes w (c :: s) = false -> includes w s = false.
Proof.
  rewrite (includes_unfold w (c :: s)). intros H.
  now apply orb_false_iff in H as [_ H].
Qed.

(** Without [</p>] in any letter case the pattern finds nothing. *)
Lemma first_p_needs_close (doc : jsstring) :
  includes (js "</p>") (toLowerCase doc) = false ->
  regexp_exec first_p_re doc = None.
Proof.
  induction doc as [|c doc IH]; intros H.
  - reflexivity.
  - rewrite (regexp_exec_skip _ _ _ (first_p_here_reads_close _ H)).
    cbn [toLowerCase map] in H. apply includes_tail in H.
    now rewrite (IH H).
Qed.

(** Without a description in a meta tag and without a summary element,
    the pattern of the first paragraph decides. *)
Lemma extractSummary_falls_to_paragraph (doc : jsstring) :
  meta_summary doc = [] ->
  test summary_element_re doc = false ->
  extractSummary doc = first_paragraph_summary doc.
Proof.
  intros Hm Hs. unfold extractSummary, summary_element.
  rewrite Hm. cbn [truthy]. unfold test in Hs.
  destruct (regexp_exec summary_element_re doc); [discriminate|].
  reflexivity.
Qed.

(** C8, amended: on a page without a description in a meta tag and
    without a summary element, where before the first [p] tag no other
    tag begins with [p], the summary is the cleaned text between that
    tag, which ends at its first [>], and the next [/p] tag if it is
    longer than 50 and shorter than 300 characters, and is empty
    otherwise; the paragraphs after the first are not looked at.  The
    summary is empty as well when the page holds no [p] tag or no [/p]
    tag.  Tags are read in either letter case. *)
Theorem extractSummary_first_paragraph :
  (forall pre o attrs t c rest,
      let doc := pre ++ o ++ attrs ++ js ">" ++ t ++ c ++ rest in
      meta_summary doc = [] ->
      test summary_element_re doc = false ->
      includes (js "<p") (toLowerCase pre) = false ->
      toLowerCase o = js "<p" ->
      paragraph_attributes attrs = true ->
      includes (js "</p>") (toLowerCase t) = false ->
      toLowerCase c = js "</p>" ->
      extractSummary doc
      = if qualifies_as_summary (cleanText t) then cleanText t else [])
  /\ (forall doc,
         meta_summary doc = [] ->
         test summary_element_re doc = false ->
         includes (js "<p") (toLowerCase doc) = false
         \/ includes (js "</p>") (toLowerCase doc) = false ->
         extractSummary doc = []).
Proof.
  split.
  - intros pre o attrs t c rest doc Hm Hs Hpre Ho Ha Ht Hc.
    rewrite (extractSummary_falls_to_paragraph doc Hm Hs).
    unfold first_paragraph_summary, doc.
    rewrite (first_p_skips pre o _ Hpre Ho).
    unfold paragraph_attributes in Ha. apply andb_true_iff in Ha as [Ha _].
    destruct (first_p_found o attrs t c rest Ho Ha Ht Hc) as [text Hfound].
    rewrite (regexp_exec_here _ _ _ Hfound).
    cbn [option_map group_if_any group m_caps get_cap nth].
    unfold qualifies_as_summary.
    destruct t as [|d t]; [|reflexivity].
    reflexivity.
  - intros doc Hm Hs H.
    rewrite (extractSummary_falls_to_paragraph doc Hm Hs).
    unfold first_paragraph_summary.
    destruct H as [H|H];
      [rewrite (first_p_needs_open doc H)|rewrite (first_p_needs_close doc H)];
      reflexivity.
Qed.

Lemma extractSummary_first_paragraph_witness :
  extractSummary doc_first_p_inside
  = js "This first paragraph is long enough to serve as a summary of the page.".
Proof.
  change doc_first_p_inside
    with (html "<html><head><title>Grilling</title></head><body><h1>Notes</h1>"
          ++ js "<P" ++ html " id=`first`" ++ js ">"
          ++ js "This first paragraph is <b>long</b> enough to serve as a summary of the page."
          ++ js "</P>" ++ js "<p>Hi.</p></body></html>").
  rewrite (proj1 extractSummary_first_paragraph);
    vm_compute; reflexivity.
Defined.

(** What the amended claim leaves out: the pattern takes every tag whose
    name begins with [p] for the opening tag of a paragraph, so a [pre]
    element before the first paragraph is read with it. *)
Lemma summary_reads_pre_as_paragraph :
  extractSummary doc_pre_before_p
  = js "x = 1This first paragraph is long enough to serve as a summary of the page.".
Proof. vm_compute. reflexivity. Qed.
